(** * MeshFEM, [python/tri_mesh_viewer.py]: buffer, material and ghost lifecycle

    A shallow embedding of the notebook mesh viewer: the texture padding of
    [TextureMap], the per-corner replication of attributes, the material cache
    of [MaterialLibrary] and the [setGeometry] state machine of [ViewerBase].

    Python objects that are shared by reference (buffer attributes, geometries,
    meshes, materials) live in a store indexed by object identity; dictionaries
    are finite maps; exceptions are results of an error monad whose state
    survives the raise, as the state of a Python object does. *)

From Stdlib Require Import ZArith NArith List String PrimFloat Lia.
From stdpp Require Import base gmap strings list option.

Open Scope string_scope.
Open Scope list_scope.
Open Scope nat_scope.
Open Scope stdpp_scope.

(* ===================================================================== *)
(** * Part I: definitions                                                 *)
(* ===================================================================== *)

(** ** Exceptions and the two monads *)

Inductive exn :=
| KeyError (key : string)
| IndexError
| ValueError
| ZeroDivisionError
| AssertionError
| AttributeError
| Exception (msg : string)
| NoSuchObject.

Inductive result (A : Type) :=
| Ok (a : A)
| Raise (e : exn).
Arguments Ok {A} a.
Arguments Raise {A} e.

#[global] Instance result_ret : MRet result := λ A a, Ok a.
#[global] Instance result_bind : MBind result := λ A B f r,
  match r with Ok a => f a | Raise e => Raise e end.
#[global] Instance result_fmap : FMap result := λ A B f r,
  match r with Ok a => Ok (f a) | Raise e => Raise e end.

(** A method call on an object of state [S]: the state after the call is
    returned also when the call raises. *)
Definition M (S A : Type) : Type := S → result A * S.

Definition ret {S A} (a : A) : M S A := λ s, (Ok a, s).
Definition raise {S A} (e : exn) : M S A := λ s, (Raise e, s).
Definition bind {S A B} (m : M S A) (k : A → M S B) : M S B := λ s,
  match m s with
  | (Ok a, s') => k a s'
  | (Raise e, s') => (Raise e, s')
  end.
Definition get {S} : M S S := λ s, (Ok s, s).
Definition gets {S A} (f : S → A) : M S A := λ s, (Ok (f s), s).
Definition modify {S} (f : S → S) : M S unit := λ s, (Ok tt, f s).
Definition lift_result {S A} (r : result A) : M S A := λ s, (r, s).
Definition when {S} (b : bool) (m : M S unit) : M S unit :=
  if b then m else ret tt.

Notation "'let!' x ':=' m 'in' k" := (bind m (λ x, k))
  (at level 10, x pattern, m at level 100, k at level 200).
Notation "m ';;' k" := (bind m (λ _, k))
  (at level 100, k at level 200, right associativity).

(** [hoare P m Q E]: from a state in [P], [m] either returns [a] in a state in
    [Q a] or raises in a state in [E]. *)
Definition hoare {S A} (P : S → Prop) (m : M S A)
    (Q : A → S → Prop) (E : S → Prop) : Prop :=
  ∀ s, P s → match m s with
             | (Ok a, s') => Q a s'
             | (Raise _, s') => E s'
             end.

(** [preserves I m]: [I] holds after [m], returned or raised, if it held
    before. *)
Definition preserves {S A} (I : S → Prop) (m : M S A) : Prop :=
  hoare I m (λ _, I) I.

(** [respects I R m]: run from a state in [I], [m] ends, returned or raised,
    in a state that [R] relates to the one it started from. *)
Definition respects {S A} (I : S → Prop) (R : S → S → Prop) (m : M S A) : Prop :=
  ∀ s, I s → R s (m s).2.

(** What makes [respects I R] compose: [R] is a preorder and [I] is carried
    along it. *)
Class FrameRel {S} (I : S → Prop) (R : S → S → Prop) : Prop := {
  frame_refl : ∀ s, R s s;
  frame_trans : ∀ s1 s2 s3, R s1 s2 → R s2 s3 → R s1 s3;
  frame_stable : ∀ s s', I s → R s s' → I s';
}.

(** A loop that threads a local variable through its iterations. *)
Fixpoint foldM {S A B} (body : B → A → M S B) (acc : B) (xs : list A) : M S B :=
  match xs with
  | [] => ret acc
  | x :: xs' => let! acc' := body acc x in foldM body acc' xs'
  end.

(** [for x in xs: body x] *)
Fixpoint for_each {S A} (xs : list A) (body : A → M S unit) : M S unit :=
  match xs with
  | [] => ret tt
  | x :: xs' => body x ;; for_each xs' body
  end.

(** ** numpy arrays

    The element type [F] of the float arrays and its arithmetic belong to
    numpy; the viewer only moves the values around, except in [TextureMap]
    and in the model matrix.  They are taken as an interface. *)

Class FloatOps (F : Type) := {
  fzero : F;
  fadd : F → F → F;
  fsub : F → F → F;
  fmul : F → F → F;
  fdiv : F → F → F;
  fneg : F → F;
  fabs : F → F;
  fsqrt : F → F;
  fmin : F → F → F;
  fmax : F → F → F;
  float_of_nat : nat → F;
}.

(** The arrays the viewer handles: the raveled [uint32] index array and
    two-dimensional float arrays, stored by rows (axis 0). *)
Inductive ndarray (F : Type) :=
| UIntArray (data : list N)
| FloatArray (rows : list (list F)).
Arguments UIntArray {F} data.
Arguments FloatArray {F} rows.

(** One entry along axis 0. *)
Inductive item (F : Type) :=
| UIntItem (n : N)
| RowItem (r : list F).
Arguments UIntItem {F} n.
Arguments RowItem {F} r.

Section Numpy.
Context {F : Type}.

(** [len(a)] *)
Definition np_len (a : ndarray F) : nat :=
  match a with
  | UIntArray d => length d
  | FloatArray r => length r
  end.

(** [a[j]] for one position [j] along axis 0 *)
Definition np_item (a : ndarray F) (j : nat) : option (item F) :=
  match a with
  | UIntArray d => UIntItem <$> d !! j
  | FloatArray r => RowItem <$> r !! j
  end.

(** [l[idxs]] for an integer index array: [None] stands for numpy's
    IndexError on an index that is out of bounds. *)
Definition take_rows {A} (l : list A) (idxs : list N) : option (list A) :=
  mapM (λ i, l !! N.to_nat i) idxs.

Definition np_take (a : ndarray F) (idxs : list N) : option (ndarray F) :=
  match a with
  | UIntArray d => UIntArray <$> take_rows d idxs
  | FloatArray r => FloatArray <$> take_rows r idxs
  end.

(** [np.repeat(a, k, axis=0)] *)
Definition repeat_rows {A} (k : nat) (l : list A) : list A :=
  flat_map (replicate k) l.

Definition np_repeat (a : ndarray F) (k : nat) : ndarray F :=
  match a with
  | UIntArray d => UIntArray (repeat_rows k d)
  | FloatArray r => FloatArray (repeat_rows k r)
  end.

(** [np.arange(n, dtype=np.uint32)]: the entries are 32-bit. *)
Definition np_arange_uint32 (n : nat) : ndarray F :=
  UIntArray (map (λ i, (N.of_nat i mod 2 ^ 32)%N) (seq 0 n)).

(** *** replicateAttributesPerTriCorner (lines 41-51)

    The loop rebinds every entry of [attr]; the entries are independent of
    each other because [idxs] is read once, before the loop.  An entry whose
    gather is out of bounds makes the whole call raise. *)
Definition replicate_entry (perTriColor : bool) (idxs : list N)
    (key : string) (a : ndarray F) : option (ndarray F) :=
  if perTriColor && bool_decide (key = "color")
  then Some (np_repeat a 3)
  else np_take a idxs.

Definition replicateAttributesPerTriCorner
    (attr : gmap string (ndarray F)) (perTriColor : bool)
    : result (gmap string (ndarray F)) :=
  match attr !! "index" with
  | None => Raise (KeyError "index")
  | Some (FloatArray _) => Raise IndexError
  | Some (UIntArray idxs) =>
      let entries : gmap string (option (ndarray F)) :=
        map_imap (λ key a, Some (replicate_entry perTriColor idxs key a)) attr in
      if decide (map_Forall (λ _ o, is_Some o) entries)
      then Ok (<["index" := np_arange_uint32 (length idxs)]> (omap id entries))
      else Raise IndexError
  end.
End Numpy.

(** ** TextureMap (lines 12-36) *)

(** An image array of shape [(h, w, c)]: [h] rows of [w] pixels of [c]
    channels each. *)
Record Image := mkImage {
  img_h : nat;
  img_w : nat;
  img_c : nat;
  img_rows : list (list (list N));
}.

Definition image_wf (tex : Image) : Prop :=
  length (img_rows tex) = img_h tex ∧
  Forall (λ row, length row = img_w tex) (img_rows tex).

(** [tex[r, c]]: the pixel in row [r] (counted from the first row of the
    array) and column [c]. *)
Definition pixel (tex : Image) (r c : nat) : option (list N) :=
  img_rows tex !! r ≫= λ row, row !! c.

(** [np.pad(tex, [(top, 0), (0, right), (0, 0)], 'constant', constant_values=v)] *)
Definition np_pad_top_right (tex : Image) (top right : nat) (v : N) : Image :=
  let px := replicate (img_c tex) v in
  {| img_h := top + img_h tex;
     img_w := img_w tex + right;
     img_c := img_c tex;
     img_rows := replicate top (replicate (img_w tex + right) px)
                 ++ map (λ row, row ++ replicate right px) (img_rows tex) |}.

(** [int(np.exp2(np.ceil(np.log2(s))))].  numpy computes this in binary64:
    [log2 0 = -inf] and [exp2 (-inf) = 0]; for [1 <= s] the result is the
    least power of two that is at least [s], as long as [log2] separates [s]
    from the power of two below it, which binary64 does for every side length
    an image array can have.  The model is that exact value. *)
Definition ceil_pow2 (s : nat) : nat :=
  if decide (s = 0) then 0 else 2 ^ Nat.log2_up s.

(** The [pythreejs.DataTexture] widget with the fields the constructor sets;
    [model_id] is the identity the widget framework gave it. *)
Record DataTexture := mkDataTexture {
  model_id : string;
  tex_data : Image;
  tex_format : string;
  tex_type : string;
  wrapS : string;
  magFilter : string;
  minFilter : string;
  generateMipmaps : bool;
  flipY : bool;
}.

#[global] Instance Image_eq_dec : EqDecision Image.
Proof. solve_decision. Defined.
#[global] Instance DataTexture_eq_dec : EqDecision DataTexture.
Proof. solve_decision. Defined.

Module TextureMap.
Section TextureMap.
Context {F : Type} `{FloatOps F}.

Record t := mk {
  uv : list (F * F);
  dataTex : DataTexture;
}.

(** Reduction of one column by [op] ([np.min] or [np.max] along axis 0). *)
Definition reduce_columns (op : F → F → F) (first : F * F) (rest : list (F * F)) : F * F :=
  foldl (λ acc p, (op acc.1 p.1, op acc.2 p.2)) first rest.

(** Lines 19-22: make the parametric domain stretch from (0,0) to (1,1).
    [np.min] of an empty array raises ValueError. *)
Definition normalize (uv : list (F * F)) : result (list (F * F)) :=
  match uv with
  | [] => Raise ValueError
  | p :: ps =>
      let lo := reduce_columns fmin p ps in
      let shifted := map (λ q, (fsub q.1 lo.1, fsub q.2 lo.2)) uv in
      match shifted with
      | [] => Raise ValueError
      | p' :: ps' =>
          let dim := reduce_columns fmax p' ps' in
          Ok (map (λ q, (fdiv q.1 dim.1, fdiv q.2 dim.2)) shifted)
      end
  end.

(** Line 25-26: the side of the padded square. *)
Definition side (h w : nat) (powerOfTwo : bool) : nat :=
  let s := Nat.max w h in
  if powerOfTwo then ceil_pow2 s else s.

(** Line 36: [self.uv *= np.array([float(w) / s, float(h) / s])] *)
Definition rescale (w h s : nat) (uv : list (F * F)) : list (F * F) :=
  let sw := fdiv (float_of_nat w) (float_of_nat s) in
  let sh := fdiv (float_of_nat h) (float_of_nat s) in
  map (λ q, (fmul q.1 sw, fmul q.2 sh)) uv.

(** [TextureMap.__init__]; [new_id] is the identity of the texture widget
    that line 29 creates.  [np.pad] refuses a negative pad width. *)
Definition __init__ (uv : list (F * F)) (tex : Image)
    (normalizeUV powerOfTwo : bool) (new_id : string) : result t :=
  uv1 ← (if normalizeUV then normalize uv else Ok uv);
  let h := img_h tex in
  let w := img_w tex in
  let s := side h w powerOfTwo in
  if decide (s < h ∨ s < w) then Raise ValueError else
  let padded := np_pad_top_right tex (s - h) (s - w) 128 in
  let dataTex :=
    {| model_id := new_id; tex_data := padded;
       tex_format := "RGBAFormat"; tex_type := "UnsignedByteType";
       wrapS := "ClampToEdgeWrapping"; magFilter := "LinearFilter";
       minFilter := "LinearMipMapLinearFilter";
       generateMipmaps := true; flipY := true |} in
  if decide (s = 0) then Raise ZeroDivisionError
  else Ok {| uv := rescale w h s uv1; dataTex := dataTex |}.
End TextureMap.
Arguments t F : clear implicits.
End TextureMap.

(** binary64 arithmetic for the concrete evaluations.  [fmin]/[fmax] are
    the steps of [np.min]/[np.max]: a NaN operand is the result. *)
Fixpoint float64_of_nat (n : nat) : float :=
  match n with
  | O => 0%float
  | S n' => (float64_of_nat n' + 1)%float
  end.

#[global] Instance float64_ops : FloatOps float := {|
  fzero := 0%float;
  fadd := PrimFloat.add;
  fsub := PrimFloat.sub;
  fmul := PrimFloat.mul;
  fdiv := PrimFloat.div;
  fneg := PrimFloat.opp;
  fabs := PrimFloat.abs;
  fsqrt := PrimFloat.sqrt;
  fmin := λ x y, if PrimFloat.is_nan x then x
                 else if PrimFloat.is_nan y then y
                 else if PrimFloat.ltb y x then y else x;
  fmax := λ x y, if PrimFloat.is_nan x then x
                 else if PrimFloat.is_nan y then y
                 else if PrimFloat.ltb x y then y else x;
  float_of_nat := float64_of_nat;
|}.

(** ** The widget store

    Every pythreejs object is a widget with an identity.  Objects that the
    viewer shares by reference are kept in a store, one table per class; a
    reference is the identity of the object.  [next_id] is the identity the
    next new object gets.  [closed] logs the calls of [close()], the latest
    first, and [three_calls] the calls of [exec_three_obj_method]. *)

Abbreviation oid := nat.

Inductive ref :=
| BufferRef (i : oid)
| GeometryRef (i : oid)
| MeshRef (i : oid)
| MaterialRef (i : oid).

#[global] Instance ref_eq_dec : EqDecision ref.
Proof. solve_decision. Defined.

Inductive MaterialClass :=
| LineBasicMaterial
| MeshLambertMaterial
| MeshBasicMaterial
| PointsMaterial
| ShaderMaterial.

Inductive MeshClass :=
| Mesh
| LineSegments
| Points.

(** A keyword argument or attribute value. *)
Inductive pyval (F : Type) :=
| PyStr (s : string)
| PyBool (b : bool)
| PyInt (z : Z)
| PyFloat (x : F)
| PyTexture (t : DataTexture).
Arguments PyStr {F} s.
Arguments PyBool {F} b.
Arguments PyInt {F} z.
Arguments PyFloat {F} x.
Arguments PyTexture {F} t.

Section Store.
Context {F : Type} `{FloatOps F}.

(** A material: its class and the attributes that were set on it (the
    constructor's keyword arguments, and later assignments). *)
Record Material := mkMaterial {
  mat_class : MaterialClass;
  mat_attrs : gmap string (pyval F);
}.

Record BufferAttribute := mkBufferAttribute {
  array : ndarray F;
}.

Record BufferGeometry := mkBufferGeometry {
  attributes : gmap string oid;
}.

Record Object3D := mkObject3D {
  obj_class : MeshClass;
  geometry : oid;
  obj_material : oid;
}.

Record Store := mkStore {
  buffers : gmap oid BufferAttribute;
  geometries : gmap oid BufferGeometry;
  objects3d : gmap oid Object3D;
  materialObjs : gmap oid Material;
  next_id : oid;
  closed : list ref;
  three_calls : list (ref * string);
}.

Definition empty_store : Store :=
  {| buffers := ∅; geometries := ∅; objects3d := ∅; materialObjs := ∅;
     next_id := 0; closed := []; three_calls := [] |}.

Definition set_buffers (f : gmap oid BufferAttribute → gmap oid BufferAttribute)
    (h : Store) : Store :=
  {| buffers := f (buffers h); geometries := geometries h;
     objects3d := objects3d h; materialObjs := materialObjs h;
     next_id := next_id h; closed := closed h; three_calls := three_calls h |}.
Definition set_geometries (f : gmap oid BufferGeometry → gmap oid BufferGeometry)
    (h : Store) : Store :=
  {| buffers := buffers h; geometries := f (geometries h);
     objects3d := objects3d h; materialObjs := materialObjs h;
     next_id := next_id h; closed := closed h; three_calls := three_calls h |}.
Definition set_objects3d (f : gmap oid Object3D → gmap oid Object3D)
    (h : Store) : Store :=
  {| buffers := buffers h; geometries := geometries h;
     objects3d := f (objects3d h); materialObjs := materialObjs h;
     next_id := next_id h; closed := closed h; three_calls := three_calls h |}.
Definition set_materialObjs (f : gmap oid Material → gmap oid Material)
    (h : Store) : Store :=
  {| buffers := buffers h; geometries := geometries h;
     objects3d := objects3d h; materialObjs := f (materialObjs h);
     next_id := next_id h; closed := closed h; three_calls := three_calls h |}.
Definition bump_next_id (h : Store) : Store :=
  {| buffers := buffers h; geometries := geometries h;
     objects3d := objects3d h; materialObjs := materialObjs h;
     next_id := S (next_id h); closed := closed h; three_calls := three_calls h |}.

(** [widget.close()] *)
Definition close (r : ref) (h : Store) : Store :=
  {| buffers := buffers h; geometries := geometries h;
     objects3d := objects3d h; materialObjs := materialObjs h;
     next_id := next_id h; closed := r :: closed h; three_calls := three_calls h |}.

(** [widget.exec_three_obj_method(method)] *)
Definition exec_three_obj_method (r : ref) (method : string) (h : Store) : Store :=
  {| buffers := buffers h; geometries := geometries h;
     objects3d := objects3d h; materialObjs := materialObjs h;
     next_id := next_id h; closed := closed h;
     three_calls := (r, method) :: three_calls h |}.

(** Constructors: the new object takes the identity [next_id]. *)
Definition new_BufferAttribute (a : ndarray F) (h : Store) : oid * Store :=
  (next_id h, bump_next_id (set_buffers <[next_id h := mkBufferAttribute a]> h)).
Definition new_BufferGeometry (attrs : gmap string oid) (h : Store) : oid * Store :=
  (next_id h, bump_next_id (set_geometries <[next_id h := mkBufferGeometry attrs]> h)).
Definition new_Object3D (cls : MeshClass) (geom mat : oid) (h : Store) : oid * Store :=
  (next_id h, bump_next_id (set_objects3d <[next_id h := mkObject3D cls geom mat]> h)).
Definition new_Material (cls : MaterialClass) (kwargs : gmap string (pyval F))
    (h : Store) : oid * Store :=
  (next_id h, bump_next_id (set_materialObjs <[next_id h := mkMaterial cls kwargs]> h)).

(** ** MaterialLibrary (lines 59-122) *)

Record MaterialLibrary := mkMaterialLibrary {
  materials : gmap string oid;
  lib_isLineMesh : bool;
  commonArgs : gmap string (pyval F);
}.

Definition set_materials (f : gmap string oid → gmap string oid)
    (lib : MaterialLibrary) : MaterialLibrary :=
  {| materials := f (materials lib); lib_isLineMesh := lib_isLineMesh lib;
     commonArgs := commonArgs lib |}.

(** The state a library method works on: the library and the store. *)
Local Abbreviation LibState := (MaterialLibrary * Store)%type.

(** [str(b)] for a Python bool, as an f-string prints it. *)
Definition pybool_str (b : bool) : string := if b then "True" else "False".

(** The float literal [0.25]. *)
Definition quarter : F := fdiv (float_of_nat 1) (float_of_nat 4).

Definition MaterialLibrary_init (isLineMesh : bool) : MaterialLibrary :=
  {| materials := ∅;
     lib_isLineMesh := isLineMesh;
     commonArgs :=
       if isLineMesh then ∅
       else <["side" := PyStr "DoubleSide"]>
            (<["polygonOffset" := PyBool true]>
            (<["polygonOffsetFactor" := PyInt 1]>
            (<["polygonOffsetUnits" := PyInt 1]> ∅))) |}.

(** Lines 95-103 *)
Definition _colorTexArgs (useVertexColors : bool)
    (textureMapDataTex : option DataTexture) (solidColor : string)
    : gmap string (pyval F) :=
  let args := ∅ in
  let args := if useVertexColors
              then <["vertexColors" := PyStr "VertexColors"]> args else args in
  let args := match textureMapDataTex with
              | Some t => <["map" := PyTexture t]> args
              | None => args
              end in
  if negb useVertexColors && bool_decide (textureMapDataTex = None)
  then <["color" := PyStr solidColor]> args else args.

(** Lines 105-109 *)
Definition _mangledMaterialName (isGhost useVertexColors : bool)
    (textureMapDataTex : option DataTexture) : string :=
  let category := if isGhost then "ghost" else "solid" in
  match textureMapDataTex with
  | None => category +:+ "_vc" +:+ pybool_str useVertexColors
  | Some t => "solid_vc" +:+ pybool_str useVertexColors +:+ "_tex" +:+ model_id t
  end.

(** [hasattr(material, 'map')]: the classes of pythreejs that declare a
    [map] attribute. *)
Definition has_map_attr (cls : MaterialClass) : bool :=
  match cls with
  | MeshLambertMaterial | MeshBasicMaterial | PointsMaterial => true
  | LineBasicMaterial | ShaderMaterial => false
  end.

(** Lines 111-114.  An attribute that was never set has its default:
    ['NoColors'] for [vertexColors], [None] for [map]. *)
Definition _extractMaterialDescriptors (material : Material)
    : bool * option DataTexture :=
  (match mat_attrs material !! "vertexColors" with
   | Some (PyStr s) => bool_decide (s = "VertexColors")
   | _ => false
   end,
   if has_map_attr (mat_class material)
   then match mat_attrs material !! "map" with
        | Some (PyTexture t) => Some t
        | _ => None
        end
   else None).

(** Lines 116-118 *)
Definition _mangledNameForMaterial (isGhost : bool) (material : Material) : string :=
  let '(useVertexColors, textureMapDataTex) := _extractMaterialDescriptors material in
  _mangledMaterialName isGhost useVertexColors textureMapDataTex.

(** Lines 68-77 *)
Definition material (useVertexColors : bool)
    (textureMapDataTex : option DataTexture) : M LibState oid := λ '(lib, h),
  let name := _mangledMaterialName false useVertexColors textureMapDataTex in
  match materials lib !! name with
  | Some m => (Ok m, (lib, h))
  | None =>
      let '(cls, solidColor) :=
        if lib_isLineMesh lib then (LineBasicMaterial, "black")
        else (MeshLambertMaterial, "lightgray") in
      let args := _colorTexArgs useVertexColors textureMapDataTex solidColor in
      let '(m, h') := new_Material cls (args ∪ commonArgs lib) h in
      (Ok m, (set_materials <[name := m]> lib, h'))
  end.

(** Lines 79-86.  [NoSuchObject] stands for a reference that names nothing
    in the store; a Python program cannot hold one. *)
Definition ghostMaterial (origMaterial : oid) : M LibState oid := λ '(lib, h),
  match materialObjs h !! origMaterial with
  | None => (Raise NoSuchObject, (lib, h))
  | Some orig =>
      let name := _mangledNameForMaterial true orig in
      match materials lib !! name with
      | Some m => (Ok m, (lib, h))
      | None =>
          let args := <["transparent" := PyBool true]>
                      (<["opacity" := PyFloat quarter]> ∅) in
          let '(useVertexColors, textureMapDataTex) :=
            _extractMaterialDescriptors orig in
          let args := _colorTexArgs useVertexColors textureMapDataTex "red" ∪ args in
          let cls := if lib_isLineMesh lib then LineBasicMaterial
                     else MeshLambertMaterial in
          let '(m, h') := new_Material cls (args ∪ commonArgs lib) h in
          (Ok m, (set_materials <[name := m]> lib, h'))
      end
  end.

Definition not_found_msg : string :=
  "Material to be freed is not found (is it a ghost?)".

(** Lines 88-93 *)
Definition freeMaterial (mat : oid) : M LibState unit := λ '(lib, h),
  match materialObjs h !! mat with
  | None => (Raise NoSuchObject, (lib, h))
  | Some m =>
      let name := _mangledNameForMaterial false m in
      match materials lib !! name with
      | None => (Raise (Exception not_found_msg), (lib, h))
      | Some cached =>
          (Ok tt, (set_materials (delete name) lib, close (MaterialRef cached) h))
      end
  end.

(** Lines 120-122 *)
Definition MaterialLibrary_del : M LibState unit := λ '(lib, h),
  (Ok tt, (lib, foldl (λ h' km, close (MaterialRef km.2) h') h
                      (map_to_list (materials lib)))).

(** The cache invariant: the cached materials were allocated, and no
    material is cached under two names. *)
Definition lib_wf (s : LibState) : Prop :=
  (∀ name m, materials s.1 !! name = Some m → m < next_id s.2) ∧
  (∀ n1 n2 m, materials s.1 !! n1 = Some m → materials s.1 !! n2 = Some m → n1 = n2).
End Store.
Arguments Material F : clear implicits.
Arguments BufferAttribute F : clear implicits.
Arguments Store F : clear implicits.
Arguments MaterialLibrary F : clear implicits.
Abbreviation LibState F := (MaterialLibrary F * Store F)%type.

(** ** Fields and the mesh adapter *)

Inductive DomainType :=
| PER_VTX
| PER_TRI.

Section Viewer.
Context {F : Type} `{FloatOps F}.

(** Modelled from the spec: [vis.fields.ScalarField] is not part of this
    file.  A scalar field has a domain (per vertex or per triangle) and one
    colour row per value; [validateSize] signals a size mismatch when the
    number of values disagrees with the vertex count, or the face count for a
    per-triangle field. *)
Record ScalarField := mkScalarField {
  domainType : DomainType;
  colors : ndarray F;
}.

Definition size_mismatch_msg : string := "size mismatch".

Definition expected_size (d : DomainType) (vertexCount elementCount : nat) : nat :=
  match d with
  | PER_VTX => vertexCount
  | PER_TRI => elementCount
  end.

Definition ScalarField_validateSize (sf : ScalarField)
    (vertexCount elementCount : nat) : result unit :=
  if decide (np_len (colors sf)
             = expected_size (domainType sf) vertexCount elementCount)
  then Ok tt else Raise (Exception size_mismatch_msg).

(** Modelled from the spec: [vis.fields.VectorField] is not part of this
    file.  A vector field has a domain and a number of vectors, checked by
    [validateSize] like a scalar field; from the visualisation geometry it
    computes the per-arrow position, vector and colour arrays of its glyphs;
    [alignOffset] is [align.getRelativeOffset()]. *)
Record VectorField := mkVectorField {
  vf_domainType : DomainType;
  vf_size : nat;
  arrowAttributes : list (list F) → list (list N) → ndarray F * ndarray F * ndarray F;
  alignOffset : F;
}.

Definition VectorField_validateSize (vf : VectorField)
    (vertexCount elementCount : nat) : result unit :=
  if decide (vf_size vf = expected_size (vf_domainType vf) vertexCount elementCount)
  then Ok tt else Raise (Exception size_mismatch_msg).

(** The [scalarField] and [vectorField] arguments: a field object, or a raw
    data array that the viewer wraps. *)
Inductive ScalarFieldArg :=
| ScalarFieldObject (sf : ScalarField)
| ScalarFieldData (data : ndarray F).

Inductive VectorFieldArg :=
| VectorFieldObject (vf : VectorField)
| VectorFieldData (data : ndarray F).

(** The mesh object a viewer displays; its class is outside this file.
    [RawMesh] below is one. *)
Class MeshAdapter (MeshT : Type) := {
  visualizationGeometry : MeshT → list (list F) * list (list N) * list (list F);
  new_ScalarField : MeshT → ndarray F → ScalarField;
  new_VectorField : MeshT → ndarray F → VectorField;
}.

(** *** Store access from methods *)

Definition alloc (new : Store F → oid * Store F) : M (Store F) oid := λ h,
  let '(i, h') := new h in (Ok i, h').

Definition get_object (m : oid) : M (Store F) Object3D := λ h,
  match objects3d h !! m with
  | Some o => (Ok o, h)
  | None => (Raise NoSuchObject, h)
  end.

Definition get_geometry (g : oid) : M (Store F) BufferGeometry := λ h,
  match geometries h !! g with
  | Some o => (Ok o, h)
  | None => (Raise NoSuchObject, h)
  end.

Definition get_array (b : oid) : M (Store F) (ndarray F) := λ h,
  match buffers h !! b with
  | Some o => (Ok (array o), h)
  | None => (Raise NoSuchObject, h)
  end.

(** [buffer.array = a] *)
Definition set_array (b : oid) (a : ndarray F) : Store F → Store F :=
  set_buffers (alter (λ _, mkBufferAttribute a) b).

(** [geometry.attributes = attrs] *)
Definition set_attributes (g : oid) (attrs : gmap string oid) : Store F → Store F :=
  set_geometries (alter (λ _, mkBufferGeometry attrs) g).

(** [mesh.material = mat] and [mesh.geometry = g] *)
Definition set_obj_material (m mat : oid) : Store F → Store F :=
  set_objects3d (alter (λ o, mkObject3D (obj_class o) (geometry o) mat) m).
Definition set_obj_geometry (m g : oid) : Store F → Store F :=
  set_objects3d (alter (λ o, mkObject3D (obj_class o) g (obj_material o)) m).

(** [material.name = value] *)
Definition set_material_attr (mat : oid) (name : string) (value : pyval F)
    : Store F → Store F :=
  set_materialObjs
    (alter (λ o, mkMaterial (mat_class o) (<[name := value]> (mat_attrs o))) mat).

(** [d[key]] on a dictionary *)
Definition getitem {S V} (d : gmap string V) (key : string) : M S V :=
  match d !! key with
  | Some x => ret x
  | None => raise (KeyError key)
  end.

(** Modelled from the spec: [VectorField.getArrows] is not part of this file.
    It builds the glyph mesh of the field, with buffers of its own for the
    arrow positions, vectors and colours and with the given material (a new
    shader material if none is given), or updates the arrays of
    [existingMesh] and returns it. *)
Definition getArrows (vf : VectorField) (visVertices : list (list F))
    (visTris : list (list N)) (material existingMesh : option oid)
    : M (Store F) oid :=
  let '(pos, vec, col) := arrowAttributes vf visVertices visTris in
  match existingMesh with
  | Some m =>
      let! obj := get_object m in
      let! g := get_geometry (geometry obj) in
      let! bp := getitem (attributes g) "arrowPos" in
      modify (set_array bp pos) ;;
      let! bv := getitem (attributes g) "arrowVec" in
      modify (set_array bv vec) ;;
      let! bc := getitem (attributes g) "arrowColor" in
      modify (set_array bc col) ;;
      ret m
  | None =>
      let! mat := match material with
                  | Some mt => ret mt
                  | None => alloc (new_Material ShaderMaterial ∅)
                  end in
      let! bp := alloc (new_BufferAttribute pos) in
      let! bv := alloc (new_BufferAttribute vec) in
      let! bc := alloc (new_BufferAttribute col) in
      let! g := alloc (new_BufferGeometry
                         (<["arrowPos" := bp]> (<["arrowVec" := bv]>
                          (<["arrowColor" := bc]> ∅)))) in
      alloc (new_Object3D Mesh g mat)
  end.

Context {MeshT : Type} `{MeshAdapter MeshT}.

(** The pythreejs objects a viewer owns alone: camera, trackball controls,
    renderer and the [objects] group. *)
Record Scene := mkScene {
  cam_position : list F;
  cam_up : list F;
  cam_calls : list (string * list F);
  controls_target : list F;
  controls_shaderMaterial : option oid;
  renderer_width : nat;
  renderer_height : nat;
  rendering_paused : bool;
  objects_scale : list F;
  objects_position : list F;
}.

Definition set_cam_position (f : list F → list F) (sc : Scene) : Scene :=
  {| cam_position := f (cam_position sc); cam_up := cam_up sc; cam_calls := cam_calls sc;
     controls_target := controls_target sc;
     controls_shaderMaterial := controls_shaderMaterial sc;
     renderer_width := renderer_width sc; renderer_height := renderer_height sc;
     rendering_paused := rendering_paused sc; objects_scale := objects_scale sc;
     objects_position := objects_position sc |}.
Definition set_cam_up (f : list F → list F) (sc : Scene) : Scene :=
  {| cam_position := cam_position sc; cam_up := f (cam_up sc); cam_calls := cam_calls sc;
     controls_target := controls_target sc;
     controls_shaderMaterial := controls_shaderMaterial sc;
     renderer_width := renderer_width sc; renderer_height := renderer_height sc;
     rendering_paused := rendering_paused sc; objects_scale := objects_scale sc;
     objects_position := objects_position sc |}.
Definition set_cam_calls (f : list (string * list F) → list (string * list F)) (sc : Scene) : Scene :=
  {| cam_position := cam_position sc; cam_up := cam_up sc; cam_calls := f (cam_calls sc);
     controls_target := controls_target sc;
     controls_shaderMaterial := controls_shaderMaterial sc;
     renderer_width := renderer_width sc; renderer_height := renderer_height sc;
     rendering_paused := rendering_paused sc; objects_scale := objects_scale sc;
     objects_position := objects_position sc |}.
Definition set_controls_target (f : list F → list F) (sc : Scene) : Scene :=
  {| cam_position := cam_position sc; cam_up := cam_up sc; cam_calls := cam_calls sc;
     controls_target := f (controls_target sc);
     controls_shaderMaterial := controls_shaderMaterial sc;
     renderer_width := renderer_width sc; renderer_height := renderer_height sc;
     rendering_paused := rendering_paused sc; objects_scale := objects_scale sc;
     objects_position := objects_position sc |}.
Definition set_controls_shaderMaterial (f : option oid → option oid) (sc : Scene) : Scene :=
  {| cam_position := cam_position sc; cam_up := cam_up sc; cam_calls := cam_calls sc;
     controls_target := controls_target sc;
     controls_shaderMaterial := f (controls_shaderMaterial sc);
     renderer_width := renderer_width sc; renderer_height := renderer_height sc;
     rendering_paused := rendering_paused sc; objects_scale := objects_scale sc;
     objects_position := objects_position sc |}.
Definition set_renderer_width (f : nat → nat) (sc : Scene) : Scene :=
  {| cam_position := cam_position sc; cam_up := cam_up sc; cam_calls := cam_calls sc;
     controls_target := controls_target sc;
     controls_shaderMaterial := controls_shaderMaterial sc;
     renderer_width := f (renderer_width sc); renderer_height := renderer_height sc;
     rendering_paused := rendering_paused sc; objects_scale := objects_scale sc;
     objects_position := objects_position sc |}.
Definition set_renderer_height (f : nat → nat) (sc : Scene) : Scene :=
  {| cam_position := cam_position sc; cam_up := cam_up sc; cam_calls := cam_calls sc;
     controls_target := controls_target sc;
     controls_shaderMaterial := controls_shaderMaterial sc;
     renderer_width := renderer_width sc; renderer_height := f (renderer_height sc);
     rendering_paused := rendering_paused sc; objects_scale := objects_scale sc;
     objects_position := objects_position sc |}.
Definition set_rendering_paused (f : bool → bool) (sc : Scene) : Scene :=
  {| cam_position := cam_position sc; cam_up := cam_up sc; cam_calls := cam_calls sc;
     controls_target := controls_target sc;
     controls_shaderMaterial := controls_shaderMaterial sc;
     renderer_width := renderer_width sc; renderer_height := renderer_height sc;
     rendering_paused := f (rendering_paused sc); objects_scale := objects_scale sc;
     objects_position := objects_position sc |}.
Definition set_objects_scale (f : list F → list F) (sc : Scene) : Scene :=
  {| cam_position := cam_position sc; cam_up := cam_up sc; cam_calls := cam_calls sc;
     controls_target := controls_target sc;
     controls_shaderMaterial := controls_shaderMaterial sc;
     renderer_width := renderer_width sc; renderer_height := renderer_height sc;
     rendering_paused := rendering_paused sc; objects_scale := f (objects_scale sc);
     objects_position := objects_position sc |}.
Definition set_objects_position (f : list F → list F) (sc : Scene) : Scene :=
  {| cam_position := cam_position sc; cam_up := cam_up sc; cam_calls := cam_calls sc;
     controls_target := controls_target sc;
     controls_shaderMaterial := controls_shaderMaterial sc;
     renderer_width := renderer_width sc; renderer_height := renderer_height sc;
     rendering_paused := rendering_paused sc; objects_scale := objects_scale sc;
     objects_position := f (objects_position sc) |}.

(** The fields of a [ViewerBase] (lines 125-183).  [meshes] and [ghostMeshes]
    are the children of the two groups. *)
Record ViewerBase := mkViewerBase {
  MeshConstructor : MeshClass;
  avoidRedrawFlicker : bool;
  bbSize : option F;
  meshes : list oid;
  ghostMeshes : list oid;
  materialLibrary : MaterialLibrary F;
  bufferAttributeStash : gmap string oid;
  currMesh : option oid;
  wireframeMesh : option oid;
  pointsMesh : option oid;
  vectorFieldMesh : option oid;
  cachedWireframeMaterial : option oid;
  cachedPointsMaterial : option oid;
  shouldShowWireframe : bool;
  scalarField : option ScalarFieldArg;
  vectorField : option VectorFieldArg;
  arrowMaterial : option oid;
  _arrowSize : F;
  mesh : MeshT;
  scene : Scene;
  store : Store F;
}.

Definition set_bbSize (f : option F → option F) (v : ViewerBase) : ViewerBase :=
  {| MeshConstructor := MeshConstructor v; avoidRedrawFlicker := avoidRedrawFlicker v;
     bbSize := f (bbSize v); meshes := meshes v; ghostMeshes := ghostMeshes v;
     materialLibrary := materialLibrary v; bufferAttributeStash := bufferAttributeStash v;
     currMesh := currMesh v; wireframeMesh := wireframeMesh v; pointsMesh := pointsMesh v;
     vectorFieldMesh := vectorFieldMesh v;
     cachedWireframeMaterial := cachedWireframeMaterial v;
     cachedPointsMaterial := cachedPointsMaterial v;
     shouldShowWireframe := shouldShowWireframe v; scalarField := scalarField v;
     vectorField := vectorField v; arrowMaterial := arrowMaterial v;
     _arrowSize := _arrowSize v; mesh := mesh v; scene := scene v; store := store v |}.
Definition set_meshes (f : list oid → list oid) (v : ViewerBase) : ViewerBase :=
  {| MeshConstructor := MeshConstructor v; avoidRedrawFlicker := avoidRedrawFlicker v;
     bbSize := bbSize v; meshes := f (meshes v); ghostMeshes := ghostMeshes v;
     materialLibrary := materialLibrary v; bufferAttributeStash := bufferAttributeStash v;
     currMesh := currMesh v; wireframeMesh := wireframeMesh v; pointsMesh := pointsMesh v;
     vectorFieldMesh := vectorFieldMesh v;
     cachedWireframeMaterial := cachedWireframeMaterial v;
     cachedPointsMaterial := cachedPointsMaterial v;
     shouldShowWireframe := shouldShowWireframe v; scalarField := scalarField v;
     vectorField := vectorField v; arrowMaterial := arrowMaterial v;
     _arrowSize := _arrowSize v; mesh := mesh v; scene := scene v; store := store v |}.
Definition set_ghostMeshes (f : list oid → list oid) (v : ViewerBase) : ViewerBase :=
  {| MeshConstructor := MeshConstructor v; avoidRedrawFlicker := avoidRedrawFlicker v;
     bbSize := bbSize v; meshes := meshes v; ghostMeshes := f (ghostMeshes v);
     materialLibrary := materialLibrary v; bufferAttributeStash := bufferAttributeStash v;
     currMesh := currMesh v; wireframeMesh := wireframeMesh v; pointsMesh := pointsMesh v;
     vectorFieldMesh := vectorFieldMesh v;
     cachedWireframeMaterial := cachedWireframeMaterial v;
     cachedPointsMaterial := cachedPointsMaterial v;
     shouldShowWireframe := shouldShowWireframe v; scalarField := scalarField v;
     vectorField := vectorField v; arrowMaterial := arrowMaterial v;
     _arrowSize := _arrowSize v; mesh := mesh v; scene := scene v; store := store v |}.
Definition set_materialLibrary (f : MaterialLibrary F → MaterialLibrary F) (v : ViewerBase) : ViewerBase :=
  {| MeshConstructor := MeshConstructor v; avoidRedrawFlicker := avoidRedrawFlicker v;
     bbSize := bbSize v; meshes := meshes v; ghostMeshes := ghostMeshes v;
     materialLibrary := f (materialLibrary v);
     bufferAttributeStash := bufferAttributeStash v; currMesh := currMesh v;
     wireframeMesh := wireframeMesh v; pointsMesh := pointsMesh v;
     vectorFieldMesh := vectorFieldMesh v;
     cachedWireframeMaterial := cachedWireframeMaterial v;
     cachedPointsMaterial := cachedPointsMaterial v;
     shouldShowWireframe := shouldShowWireframe v; scalarField := scalarField v;
     vectorField := vectorField v; arrowMaterial := arrowMaterial v;
     _arrowSize := _arrowSize v; mesh := mesh v; scene := scene v; store := store v |}.
Definition set_bufferAttributeStash (f : gmap string oid → gmap string oid) (v : ViewerBase) : ViewerBase :=
  {| MeshConstructor := MeshConstructor v; avoidRedrawFlicker := avoidRedrawFlicker v;
     bbSize := bbSize v; meshes := meshes v; ghostMeshes := ghostMeshes v;
     materialLibrary := materialLibrary v;
     bufferAttributeStash := f (bufferAttributeStash v); currMesh := currMesh v;
     wireframeMesh := wireframeMesh v; pointsMesh := pointsMesh v;
     vectorFieldMesh := vectorFieldMesh v;
     cachedWireframeMaterial := cachedWireframeMaterial v;
     cachedPointsMaterial := cachedPointsMaterial v;
     shouldShowWireframe := shouldShowWireframe v; scalarField := scalarField v;
     vectorField := vectorField v; arrowMaterial := arrowMaterial v;
     _arrowSize := _arrowSize v; mesh := mesh v; scene := scene v; store := store v |}.
Definition set_currMesh (f : option oid → option oid) (v : ViewerBase) : ViewerBase :=
  {| MeshConstructor := MeshConstructor v; avoidRedrawFlicker := avoidRedrawFlicker v;
     bbSize := bbSize v; meshes := meshes v; ghostMeshes := ghostMeshes v;
     materialLibrary := materialLibrary v; bufferAttributeStash := bufferAttributeStash v;
     currMesh := f (currMesh v); wireframeMesh := wireframeMesh v;
     pointsMesh := pointsMesh v; vectorFieldMesh := vectorFieldMesh v;
     cachedWireframeMaterial := cachedWireframeMaterial v;
     cachedPointsMaterial := cachedPointsMaterial v;
     shouldShowWireframe := shouldShowWireframe v; scalarField := scalarField v;
     vectorField := vectorField v; arrowMaterial := arrowMaterial v;
     _arrowSize := _arrowSize v; mesh := mesh v; scene := scene v; store := store v |}.
Definition set_wireframeMesh (f : option oid → option oid) (v : ViewerBase) : ViewerBase :=
  {| MeshConstructor := MeshConstructor v; avoidRedrawFlicker := avoidRedrawFlicker v;
     bbSize := bbSize v; meshes := meshes v; ghostMeshes := ghostMeshes v;
     materialLibrary := materialLibrary v; bufferAttributeStash := bufferAttributeStash v;
     currMesh := currMesh v; wireframeMesh := f (wireframeMesh v);
     pointsMesh := pointsMesh v; vectorFieldMesh := vectorFieldMesh v;
     cachedWireframeMaterial := cachedWireframeMaterial v;
     cachedPointsMaterial := cachedPointsMaterial v;
     shouldShowWireframe := shouldShowWireframe v; scalarField := scalarField v;
     vectorField := vectorField v; arrowMaterial := arrowMaterial v;
     _arrowSize := _arrowSize v; mesh := mesh v; scene := scene v; store := store v |}.
Definition set_pointsMesh (f : option oid → option oid) (v : ViewerBase) : ViewerBase :=
  {| MeshConstructor := MeshConstructor v; avoidRedrawFlicker := avoidRedrawFlicker v;
     bbSize := bbSize v; meshes := meshes v; ghostMeshes := ghostMeshes v;
     materialLibrary := materialLibrary v; bufferAttributeStash := bufferAttributeStash v;
     currMesh := currMesh v; wireframeMesh := wireframeMesh v;
     pointsMesh := f (pointsMesh v); vectorFieldMesh := vectorFieldMesh v;
     cachedWireframeMaterial := cachedWireframeMaterial v;
     cachedPointsMaterial := cachedPointsMaterial v;
     shouldShowWireframe := shouldShowWireframe v; scalarField := scalarField v;
     vectorField := vectorField v; arrowMaterial := arrowMaterial v;
     _arrowSize := _arrowSize v; mesh := mesh v; scene := scene v; store := store v |}.
Definition set_vectorFieldMesh (f : option oid → option oid) (v : ViewerBase) : ViewerBase :=
  {| MeshConstructor := MeshConstructor v; avoidRedrawFlicker := avoidRedrawFlicker v;
     bbSize := bbSize v; meshes := meshes v; ghostMeshes := ghostMeshes v;
     materialLibrary := materialLibrary v; bufferAttributeStash := bufferAttributeStash v;
     currMesh := currMesh v; wireframeMesh := wireframeMesh v; pointsMesh := pointsMesh v;
     vectorFieldMesh := f (vectorFieldMesh v);
     cachedWireframeMaterial := cachedWireframeMaterial v;
     cachedPointsMaterial := cachedPointsMaterial v;
     shouldShowWireframe := shouldShowWireframe v; scalarField := scalarField v;
     vectorField := vectorField v; arrowMaterial := arrowMaterial v;
     _arrowSize := _arrowSize v; mesh := mesh v; scene := scene v; store := store v |}.
Definition set_cachedWireframeMaterial (f : option oid → option oid) (v : ViewerBase) : ViewerBase :=
  {| MeshConstructor := MeshConstructor v; avoidRedrawFlicker := avoidRedrawFlicker v;
     bbSize := bbSize v; meshes := meshes v; ghostMeshes := ghostMeshes v;
     materialLibrary := materialLibrary v; bufferAttributeStash := bufferAttributeStash v;
     currMesh := currMesh v; wireframeMesh := wireframeMesh v; pointsMesh := pointsMesh v;
     vectorFieldMesh := vectorFieldMesh v;
     cachedWireframeMaterial := f (cachedWireframeMaterial v);
     cachedPointsMaterial := cachedPointsMaterial v;
     shouldShowWireframe := shouldShowWireframe v; scalarField := scalarField v;
     vectorField := vectorField v; arrowMaterial := arrowMaterial v;
     _arrowSize := _arrowSize v; mesh := mesh v; scene := scene v; store := store v |}.
Definition set_cachedPointsMaterial (f : option oid → option oid) (v : ViewerBase) : ViewerBase :=
  {| MeshConstructor := MeshConstructor v; avoidRedrawFlicker := avoidRedrawFlicker v;
     bbSize := bbSize v; meshes := meshes v; ghostMeshes := ghostMeshes v;
     materialLibrary := materialLibrary v; bufferAttributeStash := bufferAttributeStash v;
     currMesh := currMesh v; wireframeMesh := wireframeMesh v; pointsMesh := pointsMesh v;
     vectorFieldMesh := vectorFieldMesh v;
     cachedWireframeMaterial := cachedWireframeMaterial v;
     cachedPointsMaterial := f (cachedPointsMaterial v);
     shouldShowWireframe := shouldShowWireframe v; scalarField := scalarField v;
     vectorField := vectorField v; arrowMaterial := arrowMaterial v;
     _arrowSize := _arrowSize v; mesh := mesh v; scene := scene v; store := store v |}.
Definition set_shouldShowWireframe (f : bool → bool) (v : ViewerBase) : ViewerBase :=
  {| MeshConstructor := MeshConstructor v; avoidRedrawFlicker := avoidRedrawFlicker v;
     bbSize := bbSize v; meshes := meshes v; ghostMeshes := ghostMeshes v;
     materialLibrary := materialLibrary v; bufferAttributeStash := bufferAttributeStash v;
     currMesh := currMesh v; wireframeMesh := wireframeMesh v; pointsMesh := pointsMesh v;
     vectorFieldMesh := vectorFieldMesh v;
     cachedWireframeMaterial := cachedWireframeMaterial v;
     cachedPointsMaterial := cachedPointsMaterial v;
     shouldShowWireframe := f (shouldShowWireframe v); scalarField := scalarField v;
     vectorField := vectorField v; arrowMaterial := arrowMaterial v;
     _arrowSize := _arrowSize v; mesh := mesh v; scene := scene v; store := store v |}.
Definition set_scalarField (f : option ScalarFieldArg → option ScalarFieldArg) (v : ViewerBase) : ViewerBase :=
  {| MeshConstructor := MeshConstructor v; avoidRedrawFlicker := avoidRedrawFlicker v;
     bbSize := bbSize v; meshes := meshes v; ghostMeshes := ghostMeshes v;
     materialLibrary := materialLibrary v; bufferAttributeStash := bufferAttributeStash v;
     currMesh := currMesh v; wireframeMesh := wireframeMesh v; pointsMesh := pointsMesh v;
     vectorFieldMesh := vectorFieldMesh v;
     cachedWireframeMaterial := cachedWireframeMaterial v;
     cachedPointsMaterial := cachedPointsMaterial v;
     shouldShowWireframe := shouldShowWireframe v; scalarField := f (scalarField v);
     vectorField := vectorField v; arrowMaterial := arrowMaterial v;
     _arrowSize := _arrowSize v; mesh := mesh v; scene := scene v; store := store v |}.
Definition set_vectorField (f : option VectorFieldArg → option VectorFieldArg) (v : ViewerBase) : ViewerBase :=
  {| MeshConstructor := MeshConstructor v; avoidRedrawFlicker := avoidRedrawFlicker v;
     bbSize := bbSize v; meshes := meshes v; ghostMeshes := ghostMeshes v;
     materialLibrary := materialLibrary v; bufferAttributeStash := bufferAttributeStash v;
     currMesh := currMesh v; wireframeMesh := wireframeMesh v; pointsMesh := pointsMesh v;
     vectorFieldMesh := vectorFieldMesh v;
     cachedWireframeMaterial := cachedWireframeMaterial v;
     cachedPointsMaterial := cachedPointsMaterial v;
     shouldShowWireframe := shouldShowWireframe v; scalarField := scalarField v;
     vectorField := f (vectorField v); arrowMaterial := arrowMaterial v;
     _arrowSize := _arrowSize v; mesh := mesh v; scene := scene v; store := store v |}.
Definition set_arrowMaterial (f : option oid → option oid) (v : ViewerBase) : ViewerBase :=
  {| MeshConstructor := MeshConstructor v; avoidRedrawFlicker := avoidRedrawFlicker v;
     bbSize := bbSize v; meshes := meshes v; ghostMeshes := ghostMeshes v;
     materialLibrary := materialLibrary v; bufferAttributeStash := bufferAttributeStash v;
     currMesh := currMesh v; wireframeMesh := wireframeMesh v; pointsMesh := pointsMesh v;
     vectorFieldMesh := vectorFieldMesh v;
     cachedWireframeMaterial := cachedWireframeMaterial v;
     cachedPointsMaterial := cachedPointsMaterial v;
     shouldShowWireframe := shouldShowWireframe v; scalarField := scalarField v;
     vectorField := vectorField v; arrowMaterial := f (arrowMaterial v);
     _arrowSize := _arrowSize v; mesh := mesh v; scene := scene v; store := store v |}.
Definition set_mesh (f : MeshT → MeshT) (v : ViewerBase) : ViewerBase :=
  {| MeshConstructor := MeshConstructor v; avoidRedrawFlicker := avoidRedrawFlicker v;
     bbSize := bbSize v; meshes := meshes v; ghostMeshes := ghostMeshes v;
     materialLibrary := materialLibrary v; bufferAttributeStash := bufferAttributeStash v;
     currMesh := currMesh v; wireframeMesh := wireframeMesh v; pointsMesh := pointsMesh v;
     vectorFieldMesh := vectorFieldMesh v;
     cachedWireframeMaterial := cachedWireframeMaterial v;
     cachedPointsMaterial := cachedPointsMaterial v;
     shouldShowWireframe := shouldShowWireframe v; scalarField := scalarField v;
     vectorField := vectorField v; arrowMaterial := arrowMaterial v;
     _arrowSize := _arrowSize v; mesh := f (mesh v); scene := scene v; store := store v |}.
Definition set_scene (f : Scene → Scene) (v : ViewerBase) : ViewerBase :=
  {| MeshConstructor := MeshConstructor v; avoidRedrawFlicker := avoidRedrawFlicker v;
     bbSize := bbSize v; meshes := meshes v; ghostMeshes := ghostMeshes v;
     materialLibrary := materialLibrary v; bufferAttributeStash := bufferAttributeStash v;
     currMesh := currMesh v; wireframeMesh := wireframeMesh v; pointsMesh := pointsMesh v;
     vectorFieldMesh := vectorFieldMesh v;
     cachedWireframeMaterial := cachedWireframeMaterial v;
     cachedPointsMaterial := cachedPointsMaterial v;
     shouldShowWireframe := shouldShowWireframe v; scalarField := scalarField v;
     vectorField := vectorField v; arrowMaterial := arrowMaterial v;
     _arrowSize := _arrowSize v; mesh := mesh v; scene := f (scene v); store := store v |}.
Definition set_store (f : Store F → Store F) (v : ViewerBase) : ViewerBase :=
  {| MeshConstructor := MeshConstructor v; avoidRedrawFlicker := avoidRedrawFlicker v;
     bbSize := bbSize v; meshes := meshes v; ghostMeshes := ghostMeshes v;
     materialLibrary := materialLibrary v; bufferAttributeStash := bufferAttributeStash v;
     currMesh := currMesh v; wireframeMesh := wireframeMesh v; pointsMesh := pointsMesh v;
     vectorFieldMesh := vectorFieldMesh v;
     cachedWireframeMaterial := cachedWireframeMaterial v;
     cachedPointsMaterial := cachedPointsMaterial v;
     shouldShowWireframe := shouldShowWireframe v; scalarField := scalarField v;
     vectorField := vectorField v; arrowMaterial := arrowMaterial v;
     _arrowSize := _arrowSize v; mesh := mesh v; scene := scene v; store := f (store v) |}.

(** *** Running library and store code inside a viewer method *)

Definition on_store {A} (m : M (Store F) A) : M ViewerBase A := λ v,
  let '(r, h) := m (store v) in (r, set_store (λ _, h) v).

Definition on_lib {A} (m : M (LibState F) A) : M ViewerBase A := λ v,
  let '(r, (l, h)) := m (materialLibrary v, store v) in
  (r, set_store (λ _, h) (set_materialLibrary (λ _, l) v)).

Definition on_scene (f : Scene → Scene) : M ViewerBase unit :=
  modify (set_scene f).

(** [group.add(x)], [group.remove(x)] and [x in group.children], where [x]
    may be [None]. *)
Definition group_add (x : oid) (children : list oid) : list oid :=
  children ++ [x].
Definition group_remove (x : oid) (children : list oid) : list oid :=
  filter (λ c, c ≠ x) children.
Definition in_children (x : option oid) (children : list oid) : bool :=
  match x with
  | Some m => bool_decide (m ∈ children)
  | None => false
  end.

(** *** The model matrix (lines 198-203) *)

Definition column_sums (rows : list (list F)) : list F :=
  match rows with
  | [] => []
  | r :: rs => foldl (zip_with fadd) r rs
  end.

(** [np.mean(rows, axis=0)] *)
Definition np_mean_axis0 (rows : list (list F)) : list F :=
  map (λ x, fdiv x (float_of_nat (length rows))) (column_sums rows).

(** [np.max(np.abs(rows))]; the maximum of no value raises ValueError. *)
Definition np_max_abs (rows : list (list F)) : result F :=
  match concat (map (map fabs) rows) with
  | [] => Raise ValueError
  | x :: xs => Ok (foldl fmax x xs)
  end.

Definition setModelMatrix (vertices : list (list F)) : M ViewerBase unit :=
  let translate := map fneg (np_mean_axis0 vertices) in
  let! bb := lift_result (np_max_abs (map (λ r, zip_with fadd r translate) vertices)) in
  modify (set_bbSize (λ _, Some bb)) ;;
  let scaleFactor := fdiv (float_of_nat 2) bb in
  on_scene (set_objects_scale (λ _, [scaleFactor; scaleFactor; scaleFactor])) ;;
  on_scene (set_objects_position (λ _, map (fmul scaleFactor) translate)).

(** *** The raw attributes of the new frame (lines 208-227) *)

Definition rawAttributes (vertices : list (list F)) (idxs : list (list N))
    (normals : list (list F)) (textureMap : option (TextureMap.t F))
    : M ViewerBase (gmap string (ndarray F) * bool) :=
  let attrRaw : gmap string (ndarray F) :=
    <["normal" := FloatArray normals]>
    (<["index" := UIntArray (concat idxs)]>
    (<["position" := FloatArray vertices]> ∅)) in
  let attrRaw :=
    match textureMap with
    | Some tm => <["uv" := FloatArray (map (λ p, [p.1; p.2]) (TextureMap.uv tm))]> attrRaw
    | None => attrRaw
    end in
  let! field := gets scalarField in
  match field with
  | None => ret (attrRaw, false)
  | Some a =>
      let! m := gets mesh in
      let sf := match a with
                | ScalarFieldObject sf => sf
                | ScalarFieldData data => new_ScalarField m data
                end in
      modify (set_scalarField (λ _, Some (ScalarFieldObject sf))) ;;
      lift_result (ScalarField_validateSize sf (length vertices) (length idxs)) ;;
      let attrRaw := <["color" := colors sf]> attrRaw in
      let! attrRaw :=
        match domainType sf with
        | PER_TRI => lift_result (replicateAttributesPerTriCorner attrRaw true)
        | PER_VTX => ret attrRaw
        end in
      ret (attrRaw, true)
  end.

(** *** Ghosts (lines 229-248 and 419-432) *)

(** [colors[:, j] = x] *)
Definition set_column (a : ndarray F) (j : nat) (x : F) : result (ndarray F) :=
  match a with
  | UIntArray _ => Raise IndexError
  | FloatArray rows =>
      if decide (Forall (λ r, j < length r) rows)
      then Ok (FloatArray (map (λ r, <[j := x]> r) rows))
      else Raise IndexError
  end.

(** [__cleanMeshes(meshGroup)], for the group whose children [children]
    reads and [set_children] writes. *)
Definition __cleanMeshes (children : ViewerBase → list oid)
    (set_children : (list oid → list oid) → ViewerBase → ViewerBase)
    : M ViewerBase unit :=
  let! group := gets children in
  for_each group (λ oldMesh,
    modify (set_children (group_remove oldMesh)) ;;
    let! wire := gets wireframeMesh in
    let! points := gets pointsMesh in
    when (bool_decide (Some oldMesh ≠ wire) && bool_decide (Some oldMesh ≠ points))
      (let! obj := on_store (get_object oldMesh) in
       on_store (modify (exec_three_obj_method (GeometryRef (geometry obj)) "dispose")) ;;
       let! g := on_store (get_geometry (geometry obj)) in
       for_each (map_to_list (attributes g))
                (λ kb, on_store (modify (close (BufferRef kb.2)))) ;;
       on_store (modify (close (GeometryRef (geometry obj))))) ;;
    on_store (modify (close (MeshRef oldMesh)))).

(** Lines 231-246: the current mesh, and the glyph mesh if it is displayed,
    become ghosts. *)
Definition ghostCurrentMesh (oldMesh : oid) : M ViewerBase unit :=
  modify (set_currMesh (λ _, None)) ;;
  let! obj := on_store (get_object oldMesh) in
  let! ghost := on_lib (ghostMaterial (obj_material obj)) in
  on_store (modify (set_obj_material oldMesh ghost)) ;;
  modify (set_meshes (group_remove oldMesh)) ;;
  modify (set_ghostMeshes (group_add oldMesh)) ;;
  let! vfMesh := gets vectorFieldMesh in
  let! shown := gets meshes in
  match vfMesh with
  | Some oldVFMesh =>
      when (bool_decide (oldVFMesh ∈ shown))
        (modify (set_vectorFieldMesh (λ _, None)) ;;
         let! vobj := on_store (get_object oldVFMesh) in
         on_store (modify (set_material_attr (obj_material vobj)
                                             "transparent" (PyBool true))) ;;
         let! g := on_store (get_geometry (geometry vobj)) in
         let! bc := getitem (attributes g) "arrowColor" in
         let! old := on_store (get_array bc) in
         let! new := lift_result (set_column old 3 quarter) in
         on_store (modify (set_array bc new)) ;;
         modify (set_meshes (group_remove oldVFMesh)) ;;
         modify (set_ghostMeshes (group_add oldVFMesh)))
  | None => ret tt
  end.

Definition ghostOrClean (preserveExisting : bool) : M ViewerBase unit :=
  let! curr := gets currMesh in
  match preserveExisting, curr with
  | true, Some oldMesh => ghostCurrentMesh oldMesh
  | _, _ => __cleanMeshes ghostMeshes set_ghostMeshes
  end.

(** *** Building or updating the mesh (lines 255-306) *)

Definition stashableKeys : list string := ["index"; "color"; "uv"].

(** The local function of lines 256-276.  [attr] is the dictionary it is
    given and mutates; the result is that dictionary after the call. *)
Definition allocateUpdateOrStashBufferAttribute
    (attrRaw : gmap string (ndarray F)) (attr : gmap string oid) (key : string)
    : M ViewerBase (gmap string oid) :=
  let! stash := gets bufferAttributeStash in
  if bool_decide (is_Some (attr !! key) ∧ is_Some (stash !! key))
  then raise AssertionError
  else
    match attrRaw !! key with
    | Some a =>
        let! attr :=
          match stash !! key with
          | Some stashed =>
              modify (set_bufferAttributeStash (delete key)) ;;
              ret (<[key := stashed]> attr)
          | None => ret attr
          end in
        match attr !! key with
        | Some b => on_store (modify (set_array b a)) ;; ret attr
        | None =>
            let! b := on_store (alloc (new_BufferAttribute a)) in
            ret (<[key := b]> attr)
        end
    | None =>
        match attr !! key with
        | Some b =>
            modify (set_bufferAttributeStash <[key := b]>) ;;
            ret (delete key attr)
        | None => ret attr
        end
    end.

(** Lines 283-295: no current mesh.  The dictionaries are walked in the
    order of the finite map, Python walks them in insertion order; only the
    identities that the new buffers get depend on it. *)
Definition buildMesh (attrRaw : gmap string (ndarray F)) (material : oid)
    : M ViewerBase unit :=
  let presentKeys := (map_to_list attrRaw).*1 in
  let! (attr, attrRaw) :=
    foldM (λ '(attr, attrRaw) key,
             if bool_decide (key ∈ stashableKeys)
             then let! attr := allocateUpdateOrStashBufferAttribute attrRaw attr key in
                  ret (attr, delete key attrRaw)
             else ret (attr, attrRaw))
          (∅, attrRaw) presentKeys in
  let! attr :=
    foldM (λ attr kv,
             let! b := on_store (alloc (new_BufferAttribute kv.2)) in
             ret (<[kv.1 := b]> attr))
          attr (map_to_list attrRaw) in
  let! geom := on_store (alloc (new_BufferGeometry attr)) in
  let! cls := gets MeshConstructor in
  let! m := on_store (alloc (new_Object3D cls geom material)) in
  modify (set_currMesh (λ _, Some m)) ;;
  modify (set_meshes (group_add m)).

(** Lines 297-306: the current mesh is updated in place. *)
Definition updateMesh (curr : oid) (attrRaw : gmap string (ndarray F))
    (material : oid) : M ViewerBase unit :=
  let! obj := on_store (get_object curr) in
  let! g := on_store (get_geometry (geometry obj)) in
  let attr := attributes g in
  let! bp := getitem attr "position" in
  let! ap := getitem attrRaw "position" in
  on_store (modify (set_array bp ap)) ;;
  let! bn := getitem attr "normal" in
  let! an := getitem attrRaw "normal" in
  on_store (modify (set_array bn an)) ;;
  let! attr := foldM (allocateUpdateOrStashBufferAttribute attrRaw) attr stashableKeys in
  on_store (modify (set_attributes (geometry obj) attr)) ;;
  on_store (modify (set_obj_material curr material)).

Definition buildOrUpdateMesh (attrRaw : gmap string (ndarray F)) (material : oid)
    : M ViewerBase unit :=
  let! curr := gets currMesh in
  match curr with
  | None => buildMesh attrRaw material
  | Some m => updateMesh m attrRaw material
  end.

(** Lines 310-313: [overlay.geometry = self.currMesh.geometry] *)
Definition repointOverlay (overlay : option oid) : M ViewerBase unit :=
  match overlay with
  | None => ret tt
  | Some w =>
      let! curr := gets currMesh in
      match curr with
      | None => raise AttributeError
      | Some m =>
          let! obj := on_store (get_object m) in
          on_store (modify (set_obj_geometry w (geometry obj)))
      end
  end.

(** *** The vector field (lines 318-336) *)

(** [np.linalg.norm(np.array(p) - np.array(q))] *)
Definition np_norm_diff (p q : list F) : F :=
  fsqrt (foldl (λ acc d, fadd acc (fmul d d)) fzero (zip_with fsub p q)).

(** Modelled from the spec: [updateUniforms] belongs to the arrow shader
    material, which is not part of this file; it pushes the given uniforms to
    the material. *)
Definition updateUniforms (mat : oid) (uniforms : list (string * pyval F))
    : Store F → Store F :=
  λ h, foldl (λ h' kv, set_material_attr mat kv.1 kv.2 h') h uniforms.

Definition showVectorField (vertices : list (list F)) (idxs : list (list N))
    : M ViewerBase unit :=
  let! field := gets vectorField in
  match field with
  | Some a =>
      let! m := gets mesh in
      let vf := match a with
                | VectorFieldObject vf => vf
                | VectorFieldData data => new_VectorField m data
                end in
      modify (set_vectorField (λ _, Some (VectorFieldObject vf))) ;;
      lift_result (VectorField_validateSize vf (length vertices) (length idxs)) ;;
      let! arrowMat := gets arrowMaterial in
      let! existing := gets vectorFieldMesh in
      let! vm := on_store (getArrows vf vertices idxs arrowMat existing) in
      modify (set_vectorFieldMesh (λ _, Some vm)) ;;
      let! vobj := on_store (get_object vm) in
      modify (set_arrowMaterial (λ _, Some (obj_material vobj))) ;;
      let! v := get in
      on_store (modify (updateUniforms (obj_material vobj)
        [("arrowSizePx_x", PyFloat (_arrowSize v));
         ("rendererWidth", PyInt (Z.of_nat (renderer_width (scene v))));
         ("targetDepth", PyFloat (np_norm_diff (cam_position (scene v))
                                               (controls_target (scene v))));
         ("arrowAlignment", PyFloat (alignOffset vf))])) ;;
      on_scene (set_controls_shaderMaterial (λ _, Some (obj_material vobj))) ;;
      let! shown := gets meshes in
      when (negb (bool_decide (vm ∈ shown))) (modify (set_meshes (group_add vm)))
  | None =>
      let! vfMesh := gets vectorFieldMesh in
      let! shown := gets meshes in
      match vfMesh with
      | Some vm => when (bool_decide (vm ∈ shown)) (modify (set_meshes (group_remove vm)))
      | None => ret tt
      end
  end.

(** *** setGeometry (lines 194-340) and update (lines 185-192) *)

Definition setGeometry (vertices : list (list F)) (idxs : list (list N))
    (normals : list (list F)) (preserveExisting updateModelMatrix : bool)
    (textureMap : option (TextureMap.t F))
    (scalarField0 : option ScalarFieldArg) (vectorField0 : option VectorFieldArg)
    : M ViewerBase unit :=
  modify (set_scalarField (λ _, scalarField0)) ;;
  modify (set_vectorField (λ _, vectorField0)) ;;
  when updateModelMatrix (setModelMatrix vertices) ;;
  let! (attrRaw, useVertexColors) := rawAttributes vertices idxs normals textureMap in
  ghostOrClean preserveExisting ;;
  let! mat := on_lib (material useVertexColors (TextureMap.dataTex <$> textureMap)) in
  let! flicker := gets avoidRedrawFlicker in
  when flicker (on_scene (set_rendering_paused (λ _, true))) ;;
  buildOrUpdateMesh attrRaw mat ;;
  (let! wire := gets wireframeMesh in repointOverlay wire) ;;
  (let! points := gets pointsMesh in repointOverlay points) ;;
  showVectorField vertices idxs ;;
  let! flicker := gets avoidRedrawFlicker in
  when flicker (on_scene (set_rendering_paused (λ _, false))).

Definition update (preserveExisting : bool) (mesh0 : option MeshT)
    (updateModelMatrix : bool) (textureMap : option (TextureMap.t F))
    (scalarField0 : option ScalarFieldArg) (vectorField0 : option VectorFieldArg)
    : M ViewerBase unit :=
  match mesh0 with
  | Some m => modify (set_mesh (λ _, m))
  | None => ret tt
  end ;;
  let! m := gets mesh in
  let '(vertices, idxs, normals) := visualizationGeometry m in
  setGeometry vertices idxs normals preserveExisting updateModelMatrix
              textureMap scalarField0 vectorField0.

(** *** The constructor (lines 125-183) *)

(** The fields as lines 129-182 set them, before the first update.  [h] is
    the widget store the viewer is created in. *)
Definition initial_fields (isLineMesh : option bool) (cls : option MeshClass)
    (obj : MeshT) (width height : nat) (h : Store F) : ViewerBase :=
  {| MeshConstructor := default Mesh cls;
     avoidRedrawFlicker := false;
     bbSize := None;
     meshes := [];
     ghostMeshes := [];
     materialLibrary := MaterialLibrary_init (default false isLineMesh);
     bufferAttributeStash := ∅;
     currMesh := None;
     wireframeMesh := None;
     pointsMesh := None;
     vectorFieldMesh := None;
     cachedWireframeMaterial := None;
     cachedPointsMaterial := None;
     shouldShowWireframe := false;
     scalarField := None;
     vectorField := None;
     arrowMaterial := None;
     _arrowSize := float_of_nat 60;
     mesh := obj;
     scene := {| cam_position := map float_of_nat [0; 0; 5];
                 cam_up := map float_of_nat [0; 1; 0];
                 cam_calls := [];
                 controls_target := map float_of_nat [0; 0; 0];
                 controls_shaderMaterial := None;
                 renderer_width := width;
                 renderer_height := height;
                 rendering_paused := false;
                 objects_scale := map float_of_nat [1; 1; 1];
                 objects_position := map float_of_nat [0; 0; 0] |};
     store := h |}.

Definition ViewerBase_init (isLineMesh : option bool) (cls : option MeshClass)
    (obj : MeshT) (width height : nat) (textureMap : option (TextureMap.t F))
    (scalarField0 : option ScalarFieldArg) (vectorField0 : option VectorFieldArg)
    (h : Store F) : result unit * ViewerBase :=
  update true (Some obj) true textureMap scalarField0 vectorField0
         (initial_fields isLineMesh cls obj width height h).

(** *** Camera parameters (lines 397-402) *)

Definition getCameraParams : M ViewerBase (list F * list F * list F) :=
  gets (λ v, (cam_position (scene v), cam_up (scene v), controls_target (scene v))).

Definition setCameraParams (params : list F * list F * list F) : M ViewerBase unit :=
  let '(position, up, target) := params in
  on_scene (set_cam_position (λ _, position)) ;;
  on_scene (set_cam_up (λ _, up)) ;;
  on_scene (set_controls_target (λ _, target)) ;;
  let! target' := gets (λ v, controls_target (scene v)) in
  on_scene (set_cam_calls (cons ("lookAt", target'))).

(** *** Overlays (lines 352-395) *)

Definition allocateWireframeMaterial : M ViewerBase oid :=
  on_store (alloc (new_Material MeshBasicMaterial
    (<["color" := PyStr "black"]> (<["side" := PyStr "DoubleSide"]>
     (<["wireframe" := PyBool true]> ∅))))).

Definition allocatePointsMaterial : M ViewerBase oid :=
  on_store (alloc (new_Material PointsMaterial
    (<["color" := PyStr "black"]> (<["size" := PyInt 5]>
     (<["sizeAttenuation" := PyBool false]> ∅))))).

Definition wireframeMaterial : M ViewerBase oid :=
  let! cached := gets cachedWireframeMaterial in
  match cached with
  | Some mat => ret mat
  | None =>
      let! mat := allocateWireframeMaterial in
      modify (set_cachedWireframeMaterial (λ _, Some mat)) ;;
      ret mat
  end.

Definition pointsMaterial : M ViewerBase oid :=
  let! cached := gets cachedPointsMaterial in
  match cached with
  | Some mat => ret mat
  | None =>
      let! mat := allocatePointsMaterial in
      modify (set_cachedPointsMaterial (λ _, Some mat)) ;;
      ret mat
  end.

(** The geometry of the current mesh; without a current mesh the attribute
    access fails. *)
Definition currentGeometry : M ViewerBase oid :=
  let! curr := gets currMesh in
  match curr with
  | None => raise AttributeError
  | Some m => let! obj := on_store (get_object m) in ret (geometry obj)
  end.

Definition showWireframe (shouldShow : bool) : M ViewerBase unit :=
  (if shouldShow then
     let! wire := gets wireframeMesh in
     let! w :=
       match wire with
       | Some w => ret w
       | None =>
           let! g := currentGeometry in
           let! mat := wireframeMaterial in
           let! w := on_store (alloc (new_Object3D Mesh g mat)) in
           modify (set_wireframeMesh (λ _, Some w)) ;;
           ret w
       end in
     let! shown := gets meshes in
     when (negb (bool_decide (w ∈ shown))) (modify (set_meshes (group_add w)))
   else
     let! wire := gets wireframeMesh in
     let! shown := gets meshes in
     match wire with
     | Some w => when (bool_decide (w ∈ shown)) (modify (set_meshes (group_remove w)))
     | None => ret tt
     end) ;;
  modify (set_shouldShowWireframe (λ _, shouldShow)).

Definition showPoints (shouldShow : bool) (size : Z) : M ViewerBase unit :=
  (if shouldShow then
     let! pts := gets pointsMesh in
     let! p :=
       match pts with
       | Some p => ret p
       | None =>
           let! g := currentGeometry in
           let! mat := pointsMaterial in
           let! p := on_store (alloc (new_Object3D Points g mat)) in
           modify (set_pointsMesh (λ _, Some p)) ;;
           ret p
       end in
     let! shown := gets meshes in
     when (negb (bool_decide (p ∈ shown))) (modify (set_meshes (group_add p)))
   else
     let! pts := gets pointsMesh in
     let! shown := gets meshes in
     match pts with
     | Some p => when (bool_decide (p ∈ shown)) (modify (set_meshes (group_remove p)))
     | None => ret tt
     end) ;;
  let! cached := gets cachedPointsMaterial in
  match cached with
  | Some mat => on_store (modify (set_material_attr mat "size" (PyInt size)))
  | None => ret tt
  end.
End Viewer.
Arguments ScalarField F : clear implicits.
Arguments VectorField F : clear implicits.
Arguments ScalarFieldArg F : clear implicits.
Arguments VectorFieldArg F : clear implicits.
Arguments Scene F : clear implicits.
Arguments ViewerBase F MeshT : clear implicits.
Arguments MeshAdapter F MeshT : clear implicits.

(** ** RawMesh (lines 464-478) *)

Record RawMesh := mkRawMesh {
  rm_vertices : list (list float);
  rm_faces : list (list N);
  rm_normals : list (list float);
}.

(** [RawMesh] as the mesh of a viewer.  The constructors that wrap raw field
    data are given from outside. *)
Definition RawMesh_adapter (wrap_scalar : ndarray float → ScalarField float)
    (wrap_vector : ndarray float → VectorField float) : MeshAdapter float RawMesh :=
  {| visualizationGeometry := λ m, (rm_vertices m, rm_faces m, rm_normals m);
     new_ScalarField := λ _ data, wrap_scalar data;
     new_VectorField := λ _ data, wrap_vector data |}.


(** ** Invariants of the viewer *)

Section ViewerInvariants.
Context {F : Type} `{FloatOps F} {MeshT : Type} `{MeshAdapter F MeshT}.
Implicit Types (v : ViewerBase F MeshT).

(** The geometry of the current mesh and its attribute dictionary (empty
    when there is no current mesh). *)
Definition currGeometry v : option oid :=
  m ← currMesh v; o ← objects3d (store v) !! m; Some (geometry o).

Definition liveAttributes v : gmap string oid :=
  default ∅ (g ← currGeometry v; attributes <$> geometries (store v) !! g).

(** Stash/live mutual exclusion (the comment at lines 151-152 and the
    assertion at line 259). *)
Definition stash_live_exclusive v : Prop :=
  ∀ key, key ∈ stashableKeys →
    ¬ (is_Some (liveAttributes v !! key) ∧ is_Some (bufferAttributeStash v !! key)).

(** The current mesh and its geometry were allocated. *)
Definition current_allocated v : Prop :=
  (∀ m, currMesh v = Some m → m < next_id (store v)) ∧
  (∀ g, currGeometry v = Some g → g < next_id (store v)).

Definition live_invariant v : Prop :=
  stash_live_exclusive v ∧ current_allocated v.

(** [v'] shows the same current mesh, geometry, live attributes and stash as
    [v], keeps the glyph mesh if there was one, has a vector field if and
    only if [v] has one, and has allocated no less. *)
Definition same_live v v' : Prop :=
  currMesh v' = currMesh v ∧
  currGeometry v' = currGeometry v ∧
  liveAttributes v' = liveAttributes v ∧
  bufferAttributeStash v' = bufferAttributeStash v ∧
  (∀ m, vectorFieldMesh v = Some m → vectorFieldMesh v' = Some m) ∧
  (is_Some (vectorField v') ↔ is_Some (vectorField v)) ∧
  next_id (store v) ≤ next_id (store v').

(** A method frames the live state: run from a state that satisfies the
    invariant, it ends, returned or raised, in a state that shows the same
    live state. *)
Definition frames {A} (p : M (ViewerBase F MeshT) A) : Prop :=
  respects live_invariant same_live p.

(** The same for code that works on the store: it leaves the geometries that
    exist and the geometry of each existing mesh as they are. *)
Definition store_extends (h h' : Store F) : Prop :=
  next_id h ≤ next_id h' ∧
  ∀ i, i < next_id h →
    geometries h' !! i = geometries h !! i ∧
    geometry <$> objects3d h' !! i = geometry <$> objects3d h !! i.

Definition extends {A} (m : M (Store F) A) : Prop :=
  respects (λ _, True) store_extends m.

(** No buffer object is created: the buffer table keeps its domain. *)
Definition same_buffers (h h' : Store F) : Prop :=
  dom (buffers h') = dom (buffers h).

Definition allocates_no_buffer {A} (p : M (ViewerBase F MeshT) A) : Prop :=
  respects (λ _, True) (λ v v', same_buffers (store v) (store v')) p.

Definition store_allocates_no_buffer {A} (m : M (Store F) A) : Prop :=
  respects (λ _, True) same_buffers m.
(** A state that differs from [v] in the stash and the store only. *)
Definition with_stash_store v stash h : ViewerBase F MeshT :=
  set_store (λ _, h) (set_bufferAttributeStash (λ _, stash) v).

(** The five ways through lines 261-276, when the assertion of line 259
    holds. *)
Inductive allocate_case (attrRaw : gmap string (ndarray F)) (attr : gmap string oid)
    (key : string) v
  : gmap string oid → gmap string oid → Store F → Prop :=
| reuse_stashed a b :
    attrRaw !! key = Some a → bufferAttributeStash v !! key = Some b →
    allocate_case attrRaw attr key v
      (<[key := b]> attr) (delete key (bufferAttributeStash v))
      (set_array b a (store v))
| update_live a b :
    attrRaw !! key = Some a → bufferAttributeStash v !! key = None →
    attr !! key = Some b →
    allocate_case attrRaw attr key v
      attr (bufferAttributeStash v) (set_array b a (store v))
| allocate_new a :
    attrRaw !! key = Some a → bufferAttributeStash v !! key = None →
    attr !! key = None →
    allocate_case attrRaw attr key v
      (<[key := next_id (store v)]> attr) (bufferAttributeStash v)
      (new_BufferAttribute a (store v)).2
| stash_live b :
    attrRaw !! key = None → attr !! key = Some b →
    allocate_case attrRaw attr key v
      (delete key attr) (<[key := b]> (bufferAttributeStash v)) (store v)
| nothing_to_do :
    attrRaw !! key = None → attr !! key = None →
    allocate_case attrRaw attr key v attr (bufferAttributeStash v) (store v).

(** The viewer holds a buffer for [key], attached or stashed. *)
Definition has_buffer v (key : string) : Prop :=
  is_Some (liveAttributes v !! key) ∨ is_Some (bufferAttributeStash v !! key).

(** [v'] has the current-mesh slot, the stash, the overlay slots and the
    fields of [v]. *)
Definition same_slots v v' : Prop :=
  currMesh v' = currMesh v ∧
  bufferAttributeStash v' = bufferAttributeStash v ∧
  wireframeMesh v' = wireframeMesh v ∧
  pointsMesh v' = pointsMesh v ∧
  scalarField v' = scalarField v ∧
  vectorField v' = vectorField v.

(** [v'] has the current mesh of [v], a buffer for every key [v] has one
    for, and the glyph mesh of [v] if there is one. *)
Definition keeps_buffers v v' : Prop :=
  currMesh v' = currMesh v ∧
  (∀ key, has_buffer v key → has_buffer v' key) ∧
  (∀ m, vectorFieldMesh v = Some m → vectorFieldMesh v' = Some m).

(** One call of [setGeometry] with its arguments, and the states a sequence
    of calls goes through: the state after each call, whether the call
    returned or raised. *)
Record SetGeometryCall := mkCall {
  call_vertices : list (list F);
  call_idxs : list (list N);
  call_normals : list (list F);
  call_preserveExisting : bool;
  call_updateModelMatrix : bool;
  call_textureMap : option (TextureMap.t F);
  call_scalarField : option (ScalarFieldArg F);
  call_vectorField : option (VectorFieldArg F);
}.

Definition run_call (c : SetGeometryCall) : M (ViewerBase F MeshT) unit :=
  setGeometry (call_vertices c) (call_idxs c) (call_normals c)
              (call_preserveExisting c) (call_updateModelMatrix c)
              (call_textureMap c) (call_scalarField c) (call_vectorField c).

Fixpoint states_after (calls : list SetGeometryCall) v : list (ViewerBase F MeshT) :=
  match calls with
  | [] => []
  | c :: calls' => let v' := (run_call c v).2 in v' :: states_after calls' v'
  end.


(** The stashable keys that the frame of a call needs (lines 208-214): the
    index always, the texture coordinates with a texture map, the colours
    with a scalar field. *)
Definition frame_needs (c : SetGeometryCall) (key : string) : Prop :=
  key = "index" ∨
  (key = "uv" ∧ is_Some (call_textureMap c)) ∨
  (key = "color" ∧ is_Some (call_scalarField c)).

(** The viewer has what the frame of [c] needs: a buffer for every stashable
    key of the frame, and a glyph mesh if the call shows a vector field. *)
Definition supplied (c : SetGeometryCall) v : Prop :=
  (∀ key, key ∈ stashableKeys → frame_needs c key → has_buffer v key) ∧
  (is_Some (call_vectorField c) → is_Some (vectorFieldMesh v)).

(** What a call that updates the current mesh of [v0] in place keeps, under
    the condition [C] creating no buffer. *)
Definition steady v0 (C : Prop) v : Prop :=
  live_invariant v ∧ keeps_buffers v0 v ∧
  (C → same_buffers (store v0) (store v)).



End ViewerInvariants.
Arguments SetGeometryCall F : clear implicits.

(** ** Further methods of the viewer *)

Section ViewerMethods.
Context {F : Type} `{FloatOps F} {MeshT : Type} `{MeshAdapter F MeshT}.

Definition set__arrowSize (f : F → F) (v : ViewerBase F MeshT) : ViewerBase F MeshT :=
  {| MeshConstructor := MeshConstructor v; avoidRedrawFlicker := avoidRedrawFlicker v;
     bbSize := bbSize v; meshes := meshes v; ghostMeshes := ghostMeshes v;
     materialLibrary := materialLibrary v; bufferAttributeStash := bufferAttributeStash v;
     currMesh := currMesh v; wireframeMesh := wireframeMesh v; pointsMesh := pointsMesh v;
     vectorFieldMesh := vectorFieldMesh v;
     cachedWireframeMaterial := cachedWireframeMaterial v;
     cachedPointsMaterial := cachedPointsMaterial v;
     shouldShowWireframe := shouldShowWireframe v; scalarField := scalarField v;
     vectorField := vectorField v; arrowMaterial := arrowMaterial v;
     _arrowSize := f (_arrowSize v); mesh := mesh v; scene := scene v; store := store v |}.

(** The [arrowSize] property (lines 342-350) *)
Definition arrowSize : M (ViewerBase F MeshT) F :=
  gets _arrowSize.

Definition set_arrowSize (value : F) : M (ViewerBase F MeshT) unit :=
  modify (set__arrowSize (λ _, value)) ;;
  let! mat := gets arrowMaterial in
  match mat with
  | Some m =>
      let! size := arrowSize in
      on_store (modify (updateUniforms m [("arrowSizePx_x", PyFloat size)]))
  | None => ret tt
  end.

(** Lines 407-409 *)
Definition resize (width height : nat) : M (ViewerBase F MeshT) unit :=
  on_scene (set_renderer_width (λ _, width)) ;;
  on_scene (set_renderer_height (λ _, height)).

(** One call of a public method of a viewer, and the states a sequence of
    calls goes through: the state after each call, returned or raised. *)
Inductive ViewerCall :=
| CallUpdate (preserveExisting : bool) (mesh0 : option MeshT)
    (updateModelMatrix : bool) (textureMap : option (TextureMap.t F))
    (scalarField0 : option (ScalarFieldArg F))
    (vectorField0 : option (VectorFieldArg F))
| CallSetGeometry (c : SetGeometryCall F)
| CallSetArrowSize (value : F)
| CallShowWireframe (shouldShow : bool)
| CallShowPoints (shouldShow : bool) (size : Z)
| CallGetCameraParams
| CallSetCameraParams (params : list F * list F * list F)
| CallResize (width height : nat).

Definition run_viewer_call (c : ViewerCall) : M (ViewerBase F MeshT) unit :=
  match c with
  | CallUpdate preserveExisting mesh0 updateModelMatrix textureMap
               scalarField0 vectorField0 =>
      update preserveExisting mesh0 updateModelMatrix textureMap
             scalarField0 vectorField0
  | CallSetGeometry c => run_call c
  | CallSetArrowSize value => set_arrowSize value
  | CallShowWireframe shouldShow => showWireframe shouldShow
  | CallShowPoints shouldShow size => showPoints shouldShow size
  | CallGetCameraParams => getCameraParams ;; ret tt
  | CallSetCameraParams params => setCameraParams params
  | CallResize width height => resize width height
  end.

Fixpoint viewer_states_after (calls : list ViewerCall) (v : ViewerBase F MeshT)
    : list (ViewerBase F MeshT) :=
  match calls with
  | [] => []
  | c :: calls' =>
      let v' := (run_viewer_call c v).2 in v' :: viewer_states_after calls' v'
  end.
End ViewerMethods.
Arguments ViewerCall F MeshT : clear implicits.

(** ** Sequences of library calls *)

Section LibraryCalls.
Context {F : Type} `{FloatOps F}.

Inductive LibCall :=
| CallMaterial (useVertexColors : bool) (textureMapDataTex : option DataTexture)
| CallGhostMaterial (origMaterial : oid)
| CallFreeMaterial (material : oid).

Definition run_lib_call (c : LibCall) : M (LibState F) unit :=
  match c with
  | CallMaterial useVertexColors textureMapDataTex =>
      material useVertexColors textureMapDataTex ;; ret tt
  | CallGhostMaterial origMaterial => ghostMaterial origMaterial ;; ret tt
  | CallFreeMaterial mat => freeMaterial mat
  end.

Fixpoint lib_states_after (calls : list LibCall) (s : LibState F)
    : list (LibState F) :=
  match calls with
  | [] => []
  | c :: calls' =>
      let s' := (run_lib_call c s).2 in s' :: lib_states_after calls' s'
  end.
End LibraryCalls.

(** ** Exceptions a method does not raise *)

(** [never_raises e m]: whatever the state, [m] does not raise [e]. *)
Definition never_raises {S A} (e : exn) (m : M S A) : Prop :=
  ∀ s, (m s).1 ≠ Raise e.

(** [safe I e m]: from a state in [I], [m] ends in a state in [I] and does
    not raise [e]. *)
Definition safe {S A} (I : S → Prop) (e : exn) (m : M S A) : Prop :=
  ∀ s, I s → I (m s).2 ∧ (m s).1 ≠ Raise e.

(** ** Updates in place *)

Section InPlace.
Context {F : Type} `{FloatOps F} {MeshT : Type} `{MeshAdapter F MeshT}.

(** What an update in place keeps: [v'] has the current mesh of [v], the
    same geometry, the same buffers under the keys that are never stashed, a
    buffer (attached or stashed) for every key [v] had one for, the glyph
    mesh of [v] if there was one, and no buffer object that [v] did not
    have. *)
Definition updated_in_place (v v' : ViewerBase F MeshT) : Prop :=
  currMesh v' = currMesh v ∧
  currGeometry v' = currGeometry v ∧
  (∀ key, key ∉ stashableKeys →
     liveAttributes v' !! key = liveAttributes v !! key) ∧
  (∀ key, has_buffer v key → has_buffer v' key) ∧
  (∀ m, vectorFieldMesh v = Some m → vectorFieldMesh v' = Some m) ∧
  same_buffers (store v) (store v').

(** The calls of a sequence update in place and need no more than [c]
    does. *)
Definition needs_no_more (c c' : SetGeometryCall F) : Prop :=
  call_preserveExisting c' = false ∧
  (∀ key, frame_needs c' key → frame_needs c key) ∧
  (is_Some (call_vectorField c') → is_Some (call_vectorField c)).
End InPlace.

(** ** What a method keeps *)

Section Keeps.
Context {F : Type} `{FloatOps F} {MeshT : Type} `{MeshAdapter F MeshT}.

(** [v'] has the value of [v] for the observation [f]. *)
Definition keeps {A} (f : ViewerBase F MeshT → A) (v v' : ViewerBase F MeshT) : Prop :=
  f v' = f v.



(** Lines 279-280 and 338-340 as state changes. *)
Definition pause_if_flicker (v : ViewerBase F MeshT) : ViewerBase F MeshT :=
  if avoidRedrawFlicker v
  then set_scene (set_rendering_paused (λ _, true)) v else v.

Definition resume_if_flicker (v : ViewerBase F MeshT) : ViewerBase F MeshT :=
  if avoidRedrawFlicker v
  then set_scene (set_rendering_paused (λ _, false)) v else v.
End Keeps.

(** ** Concrete inputs *)

(** A two-triangle strip with per-face colours, and one triangle on six
    vertices (three of them unused) with its normals and its colour. *)
Definition vec3 (x y z : float) : list float := [x; y; z].

Definition strip_attr : gmap string (ndarray float) :=
  <["color" := FloatArray [vec3 1 0 0; vec3 0 0 1]]>
  (<["position" := FloatArray [vec3 0 0 0; vec3 1 0 0; vec3 0 1 0; vec3 1 1 0]]>
  (<["index" := UIntArray [0; 1; 2; 2; 1; 3]%N]> ∅)).

Definition sparse_attr : gmap string (ndarray float) :=
  <["color" := FloatArray [vec3 1 0 0]]>
  (<["position" := FloatArray [vec3 0 0 0; vec3 1 0 0; vec3 2 0 0;
                                vec3 0 1 0; vec3 1 1 0; vec3 2 1 0]]>
  (<["normal" := FloatArray [vec3 0 0 1; vec3 0 0 1; vec3 0 0 1;
                              vec3 0 0 1; vec3 0 0 1; vec3 0 0 1]]>
  (<["index" := UIntArray [0; 1; 5]%N]> ∅))).

(** A 3-by-5 RGBA image, every pixel black and opaque. *)
Definition image_3x5 : Image :=
  {| img_h := 3; img_w := 5; img_c := 4;
     img_rows := replicate 3 (replicate 5 [0; 0; 0; 255]%N) |}.

(** A texture widget and a second one, for the evaluations below. *)
Definition tex_a : DataTexture :=
  {| model_id := "a1"; tex_data := image_3x5;
     tex_format := "RGBAFormat"; tex_type := "UnsignedByteType";
     wrapS := "ClampToEdgeWrapping"; magFilter := "LinearFilter";
     minFilter := "LinearMipMapLinearFilter";
     generateMipmaps := true; flipY := true |}.

Definition tex_b : DataTexture :=
  {| model_id := "b2"; tex_data := image_3x5;
     tex_format := "RGBAFormat"; tex_type := "UnsignedByteType";
     wrapS := "ClampToEdgeWrapping"; magFilter := "LinearFilter";
     minFilter := "LinearMipMapLinearFilter";
     generateMipmaps := true; flipY := true |}.

Definition fresh_lib : LibState float :=
  (MaterialLibrary_init false, empty_store).

(** The library after [material(False)] and [ghostMaterial] of the result,
    and after the solid entry was freed again. *)
Definition lib_solid_and_ghost : LibState float :=
  (ghostMaterial 0 (material false None fresh_lib).2).2.

Definition lib_ghost_only : LibState float :=
  (freeMaterial 0 lib_solid_and_ghost).2.

Definition ghost_object : Material float :=
  {| mat_class := MeshLambertMaterial;
     mat_attrs :=
       <["color" := PyStr "red"]>
       (<["transparent" := PyBool true]>
       (<["opacity" := PyFloat 0.25%float]>
       (commonArgs (MaterialLibrary_init false)))) |}.

(** The same with vertex colours: the library after [material(True)] and
    [ghostMaterial] of the result, and the ghost it created. *)
Definition lib_vc_solid_and_ghost : LibState float :=
  (ghostMaterial 0 (material true None fresh_lib).2).2.

Definition vc_ghost_object : Material float :=
  {| mat_class := MeshLambertMaterial;
     mat_attrs :=
       <["vertexColors" := PyStr "VertexColors"]>
       (<["transparent" := PyBool true]>
       (<["opacity" := PyFloat 0.25%float]>
       (commonArgs (MaterialLibrary_init false)))) |}.

(** A unit square of two triangles, its per-triangle colours and a vector
    field with one arrow per vertex. *)
Definition square : RawMesh :=
  {| rm_vertices := [vec3 0 0 0; vec3 1 0 0; vec3 0 1 0; vec3 1 1 0];
     rm_faces := [[0; 1; 2]; [2; 1; 3]]%N;
     rm_normals := [vec3 0 0 1; vec3 0 0 1; vec3 0 0 1; vec3 0 0 1] |}.

Definition face_colors : ScalarField float :=
  {| domainType := PER_TRI; colors := FloatArray [vec3 1 0 0; vec3 0 0 1] |}.

Definition vertex_arrows : VectorField float :=
  {| vf_domainType := PER_VTX;
     vf_size := 4;
     arrowAttributes := λ vertices _,
       (FloatArray vertices, FloatArray vertices,
        FloatArray (map (λ _, [1; 1; 1; 1]%float) vertices));
     alignOffset := 0%float |}.

(** Raw field data is wrapped as a field without values. *)
#[global] Instance square_adapter : MeshAdapter float RawMesh :=
  RawMesh_adapter
    (λ _, {| domainType := PER_VTX; colors := FloatArray [] |})
    (λ _, {| vf_domainType := PER_VTX; vf_size := 0;
             arrowAttributes := λ _ _, (FloatArray [], FloatArray [], FloatArray []);
             alignOffset := 0%float |}).

Definition square_call (preserveExisting : bool)
    (field : option (ScalarFieldArg float)) (arrows : option (VectorFieldArg float))
    : SetGeometryCall float :=
  {| call_vertices := rm_vertices square;
     call_idxs := rm_faces square;
     call_normals := rm_normals square;
     call_preserveExisting := preserveExisting;
     call_updateModelMatrix := false;
     call_textureMap := None;
     call_scalarField := field;
     call_vectorField := arrows |}.

Definition scalar_on : SetGeometryCall float :=
  square_call false (Some (ScalarFieldObject face_colors)) None.
Definition scalar_off : SetGeometryCall float :=
  square_call false None None.

(** The viewer of the square as the constructor leaves it. *)
Definition square_viewer : ViewerBase float RawMesh :=
  (ViewerBase_init (Some false) (Some Mesh) square 512 512 None None None
                   empty_store).2.

(** The strip with one colour per vertex. *)
Definition vertex_colored_attr : gmap string (ndarray float) :=
  <["color" := FloatArray [vec3 1 0 0; vec3 0 1 0; vec3 0 0 1; vec3 1 1 1]]>
  (<["position" := FloatArray [vec3 0 0 0; vec3 1 0 0; vec3 0 1 0; vec3 1 1 0]]>
  (<["index" := UIntArray [0; 1; 2; 2; 1; 3]%N]> ∅)).

(** The library after [material(False)], and the material it created. *)
Definition lib_solid : LibState float :=
  (material false None fresh_lib).2.

Definition solid_object : Material float :=
  {| mat_class := MeshLambertMaterial;
     mat_attrs := <["color" := PyStr "lightgray"]>
                  (commonArgs (MaterialLibrary_init false)) |}.

(** The viewer of the square with its wireframe shown. *)
Definition square_viewer_wireframe : ViewerBase float RawMesh :=
  (showWireframe true square_viewer).2.


(** The viewer of the square after its per-triangle colours were shown. *)
Definition square_viewer_colored : ViewerBase float RawMesh :=
  (run_call scalar_on square_viewer).2.


(** ** What a method never undoes *)

(** [h'] has closed what [h] has closed. *)
Definition closed_grows {F : Type} (h h' : Store F) : Prop :=
  ∀ r, r ∈ closed h → r ∈ closed h'.

(** [v'] has the ghost group of [v] and has closed what [v] has closed. *)
Definition tidy {F : Type} {MeshT : Type} (v v' : ViewerBase F MeshT) : Prop :=
  ghostMeshes v' = ghostMeshes v ∧ closed_grows (store v) (store v').

(** The viewer of the square after an update that kept the old mesh as a
    ghost. *)
Definition square_viewer_ghosted : ViewerBase float RawMesh :=
  (run_call (square_call true None None) square_viewer).2.

(** [h'] has closed what [h] has closed and nothing else, and has every
    identity of [h]. *)
Definition quiet {F : Type} (h h' : Store F) : Prop :=
  closed h' = closed h ∧ next_id h ≤ next_id h'.

(** [v'] has the ghosts of [v] and maybe more, and a store that is [quiet]
    for the store of [v]. *)
Definition kept {F : Type} {MeshT : Type} (v v' : ViewerBase F MeshT) : Prop :=
  (∀ g, g ∈ ghostMeshes v → g ∈ ghostMeshes v') ∧ quiet (store v) (store v').

(* ===================================================================== *)
(** * Part II: theorems                                                   *)
(* ===================================================================== *)


(** ** numpy helpers *)

Section NumpyFacts.
Context {F : Type}.
Implicit Types (a : ndarray F) (idxs : list N).

Lemma take_rows_spec {A} (l : list A) idxs :
  Forall (λ i, N.to_nat i < length l) idxs →
  ∃ l', take_rows l idxs = Some l' ∧ length l' = length idxs ∧
        ∀ j i, idxs !! j = Some i → l' !! j = l !! N.to_nat i.
Proof.
  induction 1 as [|i idxs Hi _ IH].
  - exists []. split; [done|]. split; [done|]. intros j i Hj. by destruct j.
  - destruct IH as (l' & Hl' & Hlen & Hget).
    destruct (lookup_lt_is_Some_2 l (N.to_nat i) Hi) as [x Hx].
    exists (x :: l'). unfold take_rows in *. cbn. rewrite Hx. cbn.
    rewrite Hl'. cbn. split; [done|]. split; [by rewrite Hlen|].
    intros [|j] i' Hj; cbn in *; [by simplify_eq | by apply Hget].
Qed.

Lemma take_rows_None {A} (l : list A) idxs i :
  i ∈ idxs → length l ≤ N.to_nat i → take_rows l idxs = None.
Proof.
  intros Hin Hge. destruct (take_rows l idxs) as [l'|] eqn:E; [|done].
  apply mapM_Some in E.
  apply list_elem_of_lookup in Hin as [j Hj].
  destruct (Forall2_lookup_l _ _ _ _ _ E Hj) as (y & _ & Hy).
  apply lookup_lt_Some in Hy. lia.
Qed.

Lemma length_repeat_rows {A} k (l : list A) :
  length (repeat_rows k l) = k * length l.
Proof.
  unfold repeat_rows. induction l as [|x l IH]; cbn; [lia|].
  rewrite length_app, length_replicate, IH. lia.
Qed.

Lemma lookup_repeat_rows {A} k (l : list A) f j :
  j < k → repeat_rows k l !! (k * f + j) = l !! f.
Proof.
  unfold repeat_rows. revert f. induction l as [|x l IH]; intros f Hj; cbn.
  - by rewrite !lookup_nil.
  - destruct f as [|f].
    + rewrite Nat.mul_0_r. cbn. rewrite lookup_app_l by (rewrite length_replicate; lia).
      by apply lookup_replicate_2.
    + rewrite lookup_app_r by (rewrite length_replicate; lia).
      rewrite length_replicate.
      replace (k * S f + j - k) with (k * f + j) by lia. by apply IH.
Qed.

Lemma np_take_spec a idxs :
  Forall (λ i, N.to_nat i < np_len a) idxs →
  ∃ a', np_take a idxs = Some a' ∧ np_len a' = length idxs ∧
        ∀ j i, idxs !! j = Some i → np_item a' j = np_item a (N.to_nat i).
Proof.
  intros Hin. destruct a as [d|r]; cbn in *.
  - destruct (take_rows_spec d idxs Hin) as (l' & -> & Hlen & Hget).
    exists (UIntArray l'). cbn. split; [done|]. split; [done|].
    intros j i Hj. by rewrite (Hget j i Hj).
  - destruct (take_rows_spec r idxs Hin) as (l' & -> & Hlen & Hget).
    exists (FloatArray l'). cbn. split; [done|]. split; [done|].
    intros j i Hj. by rewrite (Hget j i Hj).
Qed.

Lemma np_take_None a idxs i :
  i ∈ idxs → np_len a ≤ N.to_nat i → np_take a idxs = None.
Proof.
  intros Hi Hlen. destruct a as [d|r]; cbn in *;
    by rewrite (take_rows_None _ idxs i).
Qed.

Lemma np_len_repeat a k : np_len (np_repeat a k) = k * np_len a.
Proof. destruct a; cbn; apply length_repeat_rows. Qed.

Lemma np_item_repeat a k f j :
  j < k → np_item (np_repeat a k) (k * f + j) = np_item a f.
Proof. intros Hj. destruct a; cbn; by rewrite lookup_repeat_rows. Qed.

Lemma np_arange_small n :
  (N.of_nat n ≤ 2 ^ 32)%N →
  np_arange_uint32 (F:=F) n = UIntArray (map N.of_nat (seq 0 n)).
Proof.
  intros Hn. unfold np_arange_uint32. f_equal.
  apply map_ext_in. intros i Hi%in_seq.
  apply N.mod_small. lia.
Qed.

(** What the loop of [replicateAttributesPerTriCorner] leaves under each
    key other than ['index']. *)
Lemma replicate_lookup (attr attr' : gmap string (ndarray F)) perTriColor idxs :
  attr !! "index" = Some (UIntArray idxs) →
  replicateAttributesPerTriCorner attr perTriColor = Ok attr' →
  attr' !! "index" = Some (np_arange_uint32 (length idxs)) ∧
  ∀ key, key ≠ "index" →
    attr' !! key = attr !! key ≫= replicate_entry perTriColor idxs key.
Proof.
  intros Hidx. unfold replicateAttributesPerTriCorner. rewrite Hidx.
  case_decide as Hall; [|done]. intros [= <-]. split.
  - by rewrite lookup_insert_eq.
  - intros key Hkey. rewrite lookup_insert_ne by done.
    rewrite lookup_omap, map_lookup_imap. by destruct (attr !! key).
Qed.

Lemma replicate_succeeds (attr : gmap string (ndarray F)) perTriColor idxs :
  attr !! "index" = Some (UIntArray idxs) →
  (∀ key a, attr !! key = Some a →
     is_Some (replicate_entry perTriColor idxs key a)) →
  ∃ attr', replicateAttributesPerTriCorner attr perTriColor = Ok attr'.
Proof.
  intros Hidx Hall. unfold replicateAttributesPerTriCorner. rewrite Hidx.
  case_decide as Hdec; [eauto|]. exfalso. apply Hdec.
  intros key o. rewrite map_lookup_imap.
  destruct (attr !! key) as [a|] eqn:Ha; cbn; [|done].
  intros [= <-]. by eapply Hall.
Qed.

Lemma replicate_dom (attr attr' : gmap string (ndarray F)) perTriColor :
  replicateAttributesPerTriCorner attr perTriColor = Ok attr' →
  dom attr' = dom attr.
Proof.
  unfold replicateAttributesPerTriCorner.
  destruct (attr !! "index") as [[idxs|]|] eqn:Hidx; try done.
  case_decide as Hall; [|done]. intros [= <-].
  apply set_eq. intros key. rewrite !elem_of_dom.
  destruct (decide (key = "index")) as [->|Hne].
  - rewrite lookup_insert_eq, Hidx. split; eauto.
  - rewrite lookup_insert_ne by done.
    rewrite lookup_omap, map_lookup_imap.
    destruct (attr !! key) as [a|] eqn:Ha; cbn.
    + split; [eauto|]. intros _.
      specialize (Hall key (replicate_entry perTriColor idxs key a)).
      rewrite map_lookup_imap, Ha in Hall. by apply Hall.
    + split; by intros [? ?].
Qed.
End NumpyFacts.

(** ** Per-corner replication *)

(** What the call does when every gather is in bounds, the gather of
    ['index'] by itself included.  Let the ['index'] array have length
    [3 * nF], let every index be a valid row of every attribute other than
    ['color'] (of ['index'] too), and let ['color'] have one row per face.
    Then [replicateAttributesPerTriCorner] with [perTriColor = True] returns,
    and in the result every attribute other than ['color'] and ['index'] has
    [3 * nF] entries, entry [j] being the old row named by the [j]-th index;
    ['color'] has [3 * nF] entries, each face colour three times in a row;
    and ['index'] is [0, 1, ..., 3 * nF - 1]. *)
Lemma replicateAttributesPerTriCorner_per_corner
    {F : Type} (attr : gmap string (ndarray F)) (idxs : list N) (nF : nat) :
  attr !! "index" = Some (UIntArray idxs) →
  length idxs = 3 * nF →
  (N.of_nat (3 * nF) ≤ 2 ^ 32)%N →
  map_Forall (λ key a, key ≠ "color" →
                Forall (λ i, N.to_nat i < np_len a) idxs) attr →
  (∀ c, attr !! "color" = Some c → np_len c = nF) →
  ∃ attr',
    replicateAttributesPerTriCorner attr true = Ok attr' ∧
    dom attr' = dom attr ∧
    attr' !! "index" = Some (UIntArray (map N.of_nat (seq 0 (3 * nF)))) ∧
    (∀ key a, key ≠ "color" → key ≠ "index" → attr !! key = Some a →
       ∃ a', attr' !! key = Some a' ∧ np_len a' = 3 * nF ∧
             ∀ j i, idxs !! j = Some i → np_item a' j = np_item a (N.to_nat i)) ∧
    (∀ c, attr !! "color" = Some c →
       ∃ c', attr' !! "color" = Some c' ∧ np_len c' = 3 * nF ∧
             ∀ f j, f < nF → j < 3 → np_item c' (3 * f + j) = np_item c f).
Proof.
  intros Hidx Hlen Hsmall Hrange Hcolor.
  destruct (replicate_succeeds attr true idxs Hidx) as [attr' Hrun].
  { intros key a Ha. unfold replicate_entry. cbn.
    case_bool_decide as Hk; [eauto|].
    destruct (np_take_spec a idxs (Hrange key a Ha Hk)) as (a' & -> & _). eauto. }
  exists attr'. split; [done|].
  destruct (replicate_lookup attr attr' true idxs Hidx Hrun) as [Hi Hother].
  split; [by eapply replicate_dom|]. split.
  { rewrite Hi, Hlen. f_equal. by apply np_arange_small. }
  split.
  - intros key a Hk Hk' Ha. rewrite (Hother key Hk'), Ha. cbn.
    unfold replicate_entry. cbn. rewrite bool_decide_eq_false_2 by done.
    destruct (np_take_spec a idxs (Hrange key a Ha Hk)) as (a' & -> & Hl & Hget).
    exists a'. split; [done|]. split; [by rewrite Hl, Hlen|done].
  - intros c Hc. rewrite (Hother "color") by done. rewrite Hc. cbn.
    exists (np_repeat c 3). split; [done|]. split.
    + rewrite np_len_repeat. by rewrite (Hcolor c Hc).
    + intros f j _ Hj. exact (np_item_repeat c 3 f j Hj).
Qed.

Lemma replicateAttributesPerTriCorner_per_corner_witness :
  ∃ attr',
    replicateAttributesPerTriCorner strip_attr true = Ok attr' ∧
    dom attr' = dom strip_attr ∧
    attr' !! "index" = Some (UIntArray (map N.of_nat (seq 0 (3 * 2)))) ∧
    (∀ key a, key ≠ "color" → key ≠ "index" → strip_attr !! key = Some a →
       ∃ a', attr' !! key = Some a' ∧ np_len a' = 3 * 2 ∧
             ∀ j i, [0; 1; 2; 2; 1; 3]%N !! j = Some i →
                    np_item a' j = np_item a (N.to_nat i)) ∧
    (∀ c, strip_attr !! "color" = Some c →
       ∃ c', attr' !! "color" = Some c' ∧ np_len c' = 3 * 2 ∧
             ∀ f j, f < 2 → j < 3 → np_item c' (3 * f + j) = np_item c f).
Proof.
  apply (replicateAttributesPerTriCorner_per_corner strip_attr
           [0; 1; 2; 2; 1; 3]%N 2).
  - reflexivity.
  - reflexivity.
  - vm_compute. discriminate.
  - apply (bool_decide_unpack _). vm_compute. exact I.
  - intros c Hc. vm_compute in Hc. injection Hc as <-. reflexivity.
Defined.

(** C4.  The loop of lines 43-47 gathers ['index'] by itself like every
    other attribute, although line 51 replaces what it gathered.  So the
    call raises IndexError as soon as the index array, of length [3 * nF],
    names a vertex numbered [3 * nF] or higher, whatever the vertex
    attributes are: on a triangle mesh with more vertices than corners it
    produces no corner entries. *)
Theorem replicateAttributesPerTriCorner_index_gathered_by_itself
    {F : Type} (attr : gmap string (ndarray F)) (idxs : list N) (nF : nat) (i : N) :
  attr !! "index" = Some (UIntArray idxs) →
  length idxs = 3 * nF →
  i ∈ idxs →
  3 * nF ≤ N.to_nat i →
  replicateAttributesPerTriCorner attr true = Raise IndexError.
Proof.
  intros Hidx Hlen Hi Hge. unfold replicateAttributesPerTriCorner. rewrite Hidx.
  rewrite decide_False; [done|].
  intros Hall.
  specialize (Hall "index" (replicate_entry true idxs "index" (UIntArray idxs))).
  rewrite map_lookup_imap, Hidx in Hall. specialize (Hall eq_refl).
  unfold replicate_entry in Hall. cbn in Hall.
  rewrite (take_rows_None idxs idxs i Hi) in Hall by lia.
  by destruct Hall.
Qed.

(** One triangle on six vertices: every index is a row of the positions and
    of the normals, the gather of the positions alone returns the three
    corners, and the call raises. *)
Lemma replicateAttributesPerTriCorner_index_gathered_by_itself_witness :
  sparse_attr !! "index" = Some (UIntArray [0; 1; 5]%N) ∧
  np_len <$> sparse_attr !! "position" = Some 6 ∧
  np_len <$> sparse_attr !! "normal" = Some 6 ∧
  np_len <$> sparse_attr !! "color" = Some 1 ∧
  sparse_attr !! "position" ≫= (λ a, np_take a [0; 1; 5]%N)
  = Some (FloatArray [vec3 0 0 0; vec3 1 0 0; vec3 2 1 0]) ∧
  replicateAttributesPerTriCorner sparse_attr true = Raise IndexError.
Proof.
  split; [reflexivity|]. split; [reflexivity|]. split; [reflexivity|].
  split; [reflexivity|]. split; [vm_compute; reflexivity|].
  apply (replicateAttributesPerTriCorner_index_gathered_by_itself
           sparse_attr [0; 1; 5]%N 1 5%N).
  - reflexivity.
  - reflexivity.
  - do 2 apply list_elem_of_further. apply list_elem_of_here.
  - vm_compute. lia.
Defined.

(** ** Texture padding *)

Lemma ceil_pow2_ge s : s ≤ ceil_pow2 s.
Proof.
  unfold ceil_pow2. case_decide as Hs; [lia|].
  destruct (decide (s = 1)) as [->|H1]; [cbn; lia|].
  pose proof (Nat.log2_up_spec s ltac:(lia)). lia.
Qed.

Lemma side_ge h w powerOfTwo :
  h ≤ TextureMap.side h w powerOfTwo ∧ w ≤ TextureMap.side h w powerOfTwo.
Proof.
  unfold TextureMap.side. destruct powerOfTwo.
  - pose proof (ceil_pow2_ge (Nat.max w h)). lia.
  - lia.
Qed.

Lemma pixel_pad_original tex top right v r c :
  image_wf tex → r < img_h tex → c < img_w tex →
  pixel (np_pad_top_right tex top right v) (top + r) c = pixel tex r c.
Proof.
  intros [Hh Hw] Hr Hc. unfold pixel, np_pad_top_right. cbn.
  rewrite lookup_app_r by (rewrite length_replicate; lia).
  rewrite length_replicate. replace (top + r - top) with r by lia.
  rewrite list_lookup_fmap.
  destruct (img_rows tex !! r) as [row|] eqn:Hrow; cbn; [|done].
  apply lookup_app_l.
  rewrite Forall_forall in Hw. rewrite (Hw row); [done|].
  apply list_elem_of_In. eapply list_elem_of_lookup_2, Hrow.
Qed.

Lemma pixel_pad_border tex top right v r c :
  image_wf tex → r < top + img_h tex → c < img_w tex + right →
  r < top ∨ img_w tex ≤ c →
  pixel (np_pad_top_right tex top right v) r c = Some (replicate (img_c tex) v).
Proof.
  intros [Hh Hw] Hr Hc Hborder. unfold pixel, np_pad_top_right. cbn.
  destruct (decide (r < top)) as [Htop|Hbelow].
  - rewrite lookup_app_l by (rewrite length_replicate; lia).
    rewrite lookup_replicate_2 by done. cbn.
    by apply lookup_replicate_2.
  - destruct Hborder as [?|Hright]; [lia|].
    rewrite lookup_app_r by (rewrite length_replicate; lia).
    rewrite length_replicate, list_lookup_fmap.
    destruct (lookup_lt_is_Some_2 (img_rows tex) (r - top)) as [row Hrow]; [lia|].
    rewrite Hrow. cbn.
    assert (length row = img_w tex) as Hlen.
    { rewrite Forall_forall in Hw. apply Hw, list_elem_of_In.
      eapply list_elem_of_lookup_2, Hrow. }
    rewrite lookup_app_r by lia.
    apply lookup_replicate_2. lia.
Qed.

(** C8 (as amended).  For an image of height [h] and width [w], not both
    zero, the constructor returns a texture map whose padded image is a
    square of side [s], with [s = max w h] without [powerOfTwo] and
    [s = 2 ^ ceil (log2 (max w h))] with it; the original pixels sit in the
    last [h] rows and the first [w] columns, everything above and to the
    right of them is padding; and the stored UVs are the input UVs, after
    the normalisation when [normalizeUV] is set, scaled componentwise by
    [(w / s, h / s)]. *)
Theorem TextureMap_init_padding_and_uv
    {F : Type} `{FloatOps F} (uv : list (F * F)) (tex : Image)
    (normalizeUV powerOfTwo : bool) (new_id : string) :
  image_wf tex →
  0 < Nat.max (img_w tex) (img_h tex) →
  (normalizeUV = true → uv ≠ []) →
  let h := img_h tex in
  let w := img_w tex in
  let s := if powerOfTwo then 2 ^ Nat.log2_up (Nat.max w h) else Nat.max w h in
  ∃ tm uv1,
    TextureMap.__init__ uv tex normalizeUV powerOfTwo new_id = Ok tm ∧
    (if normalizeUV then TextureMap.normalize uv = Ok uv1 else uv1 = uv) ∧
    img_h (tex_data (TextureMap.dataTex tm)) = s ∧
    img_w (tex_data (TextureMap.dataTex tm)) = s ∧
    (∀ r c, r < h → c < w →
       pixel (tex_data (TextureMap.dataTex tm)) (s - h + r) c = pixel tex r c) ∧
    (∀ r c, r < s → c < s → r < s - h ∨ w ≤ c →
       pixel (tex_data (TextureMap.dataTex tm)) r c
       = Some (replicate (img_c tex) 128%N)) ∧
    TextureMap.uv tm
    = map (λ q, (fmul q.1 (fdiv (float_of_nat w) (float_of_nat s)),
                 fmul q.2 (fdiv (float_of_nat h) (float_of_nat s)))) uv1.
Proof.
  intros Hwf Hpos Hne h w s.
  assert (TextureMap.side h w powerOfTwo = s) as Hside.
  { unfold TextureMap.side, ceil_pow2, s. destruct powerOfTwo; [|done].
    case_decide; [lia|done]. }
  destruct (side_ge h w powerOfTwo) as [Hh Hw]. rewrite Hside in Hh, Hw.
  assert (0 < s) as Hs.
  { unfold s. destruct powerOfTwo; [|done].
    pose proof (Nat.pow_nonzero 2 (Nat.log2_up (Nat.max w h))). lia. }
  assert (∃ uv1, (if normalizeUV then TextureMap.normalize uv else Ok uv) = Ok uv1
                 ∧ if normalizeUV then TextureMap.normalize uv = Ok uv1 else uv1 = uv)
    as (uv1 & Hrun & Huv1).
  { destruct normalizeUV; [|eauto].
    destruct uv as [|p ps]; [by destruct Hne|]. cbn. eauto. }
  exists {| TextureMap.uv := TextureMap.rescale w h s uv1;
            TextureMap.dataTex :=
              {| model_id := new_id;
                 tex_data := np_pad_top_right tex (s - h) (s - w) 128;
                 tex_format := "RGBAFormat"; tex_type := "UnsignedByteType";
                 wrapS := "ClampToEdgeWrapping"; magFilter := "LinearFilter";
                 minFilter := "LinearMipMapLinearFilter";
                 generateMipmaps := true; flipY := true |} |}, uv1.
  split.
  { unfold TextureMap.__init__. rewrite Hrun. cbn. fold h w. rewrite Hside.
    rewrite decide_False by lia. by rewrite decide_False by lia. }
  split; [done|]. cbn. fold h w.
  split; [lia|]. split; [lia|]. split.
  - intros r c Hr Hc. by apply pixel_pad_original.
  - split; [|done]. intros r c Hr Hc Hb. apply pixel_pad_border; [done|fold h w; lia..].
Qed.

(** The instance of the claim: a 3-by-5 image without [powerOfTwo] is padded
    to side 5 and UV (1, 1) is stored as (1.0, 0.6), in binary64. *)
Lemma TextureMap_init_padding_and_uv_witness :
  ∃ tm,
    TextureMap.__init__ [(1, 1)%float] image_3x5 false false "tex0" = Ok tm ∧
    img_h (tex_data (TextureMap.dataTex tm)) = 5 ∧
    img_w (tex_data (TextureMap.dataTex tm)) = 5 ∧
    TextureMap.uv tm = [(1, 0x1.3333333333333p-1)%float].
Proof.
  destruct (TextureMap_init_padding_and_uv [(1, 1)%float] image_3x5 false false "tex0")
    as (tm & uv1 & Hrun & Huv1 & Hh & Hw & _ & _ & Huv).
  - split; [reflexivity|]. repeat constructor.
  - cbn. lia.
  - discriminate.
  - exists tm. cbn in Huv1. subst uv1. repeat split; assumption.
Defined.

(** The same for every image of that shape and both settings of
    [powerOfTwo]: side 5, or 8 when a power of two is asked for. *)
Lemma TextureMap_3x5_example (tex : Image) (new_id : string) :
  img_h tex = 3 → img_w tex = 5 →
  (∃ tm, TextureMap.__init__ [(1, 1)%float] tex false false new_id = Ok tm ∧
         img_h (tex_data (TextureMap.dataTex tm)) = 5 ∧
         img_w (tex_data (TextureMap.dataTex tm)) = 5 ∧
         TextureMap.uv tm = [(1, 0x1.3333333333333p-1)%float]) ∧
  (∃ tm, TextureMap.__init__ [(1, 1)%float] tex false true new_id = Ok tm ∧
         img_h (tex_data (TextureMap.dataTex tm)) = 8 ∧
         img_w (tex_data (TextureMap.dataTex tm)) = 8).
Proof.
  destruct tex as [h w c rows]. cbn. intros -> ->.
  split; eexists; (split; [reflexivity|]); cbn; repeat split; reflexivity.
Qed.

(** C8 as stated fails when the constructor is asked to normalise: the
    stored UVs are then the normalised ones scaled, not the input ones. *)
Lemma TextureMap_init_normalized_uv_differs :
  ∃ tm,
    TextureMap.__init__ [(0, 0); (2, 2)]%float image_3x5 true false "tex0" = Ok tm ∧
    TextureMap.uv tm
    ≠ map (λ q, (fmul q.1 (fdiv (float_of_nat 5) (float_of_nat 5)),
                 fmul q.2 (fdiv (float_of_nat 3) (float_of_nat 5))))
          [(0, 0); (2, 2)]%float.
Proof.
  eexists. split; [reflexivity|]. cbn. intros Heq.
  apply (f_equal (λ l, match l with
                       | [_; (u, _)] => PrimFloat.ltb u 1.5
                       | _ => false
                       end)) in Heq.
  vm_compute in Heq. discriminate.
Qed.

(** ** The material cache *)

Section MaterialLibraryFacts.
Context {F : Type} `{FloatOps F}.
Implicit Types (lib : MaterialLibrary F) (h : Store F) (tex : option DataTexture).

(** Keys of solid materials determine the descriptor. *)
Lemma solid_name_inj u1 u2 tex1 tex2 :
  _mangledMaterialName false u1 tex1 = _mangledMaterialName false u2 tex2 →
  u1 = u2 ∧ model_id <$> tex1 = model_id <$> tex2.
Proof.
  destruct tex1 as [t1|], tex2 as [t2|], u1, u2; cbn; intros Heq;
    try discriminate; simplify_eq; split; congruence.
Qed.

(** Without a texture the key also tells ghost from solid. *)
Lemma untextured_name_inj g1 g2 u1 u2 :
  _mangledMaterialName g1 u1 None = _mangledMaterialName g2 u2 None →
  g1 = g2 ∧ u1 = u2.
Proof. destruct g1, g2, u1, u2; cbn; intros Heq; try discriminate; done. Qed.

Lemma lib_wf_init isLineMesh h :
  lib_wf (MaterialLibrary_init (F:=F) isLineMesh, h).
Proof. split; cbn; intros *; by rewrite lookup_empty. Qed.

Lemma lib_wf_insert_new lib h name cls kwargs :
  lib_wf (lib, h) →
  lib_wf (set_materials <[name := next_id h]> lib,
          (new_Material cls kwargs h).2).
Proof.
  intros [Hlt Hinj]. split; cbn in *.
  - intros n m. rewrite lookup_insert. case_decide; [intros [= <-]; lia|].
    intros Hm. specialize (Hlt _ _ Hm). lia.
  - intros n1 n2 m. rewrite !lookup_insert.
    repeat case_decide; subst; try done.
    + intros [= <-] Hm. specialize (Hlt _ _ Hm). lia.
    + intros Hm [= <-]. specialize (Hlt _ _ Hm). lia.
    + apply Hinj.
Qed.

Lemma lib_wf_material (s s' : LibState F) u tex m :
  lib_wf s → material u tex s = (Ok m, s') → lib_wf s'.
Proof.
  destruct s as [lib h]. intros Hwf. unfold material.
  destruct (materials lib !! _); [by intros [= _ <-]|].
  destruct (lib_isLineMesh lib); intros [= _ <-]; by apply lib_wf_insert_new.
Qed.

Lemma lib_wf_ghostMaterial (s s' : LibState F) orig m :
  lib_wf s → ghostMaterial orig s = (Ok m, s') → lib_wf s'.
Proof.
  destruct s as [lib h]. intros Hwf. unfold ghostMaterial.
  destruct (materialObjs h !! orig) as [o|]; [|done].
  destruct (materials lib !! _); [by intros [= _ <-]|].
  destruct (_extractMaterialDescriptors o) as [u tex].
  intros [= _ <-]. by apply lib_wf_insert_new.
Qed.

Lemma lib_wf_freeMaterial (s s' : LibState F) mat r :
  lib_wf s → freeMaterial mat s = (r, s') → lib_wf s'.
Proof.
  destruct s as [lib h]. intros [Hlt Hinj]. unfold freeMaterial.
  destruct (materialObjs h !! mat) as [o|]; [|by intros [= _ <-]].
  destruct (materials lib !! _) as [cached|]; [|by intros [= _ <-]].
  intros [= _ <-]. split; cbn.
  - intros name m [_ Hm]%lookup_delete_Some. by eapply Hlt.
  - intros n1 n2 m [_ H1]%lookup_delete_Some [_ H2]%lookup_delete_Some.
    by eapply Hinj.
Qed.
End MaterialLibraryFacts.

(** C1.  The key of a textured descriptor does not depend on the ghost flag:
    the ghost and the solid descriptor of one texture get the same key. *)
Theorem mangledMaterialName_textured_ghost_collides
    (useVertexColors : bool) (t : DataTexture) :
  _mangledMaterialName true useVertexColors (Some t)
  = _mangledMaterialName false useVertexColors (Some t).
Proof. reflexivity. Qed.

(** What follows from it: asked for the ghost of a cached textured material,
    the library hands back that same solid material, which is not
    transparent. *)
Lemma ghostMaterial_textured_returns_solid
    {F : Type} `{FloatOps F} (lib : MaterialLibrary F) (h : Store F)
    (u : bool) (t : DataTexture) (m : oid) (mat : Material F) :
  materialObjs h !! m = Some mat →
  _extractMaterialDescriptors mat = (u, Some t) →
  materials lib !! _mangledMaterialName false u (Some t) = Some m →
  ghostMaterial m (lib, h) = (Ok m, (lib, h)).
Proof.
  intros Hobj Hdesc Hcached. unfold ghostMaterial, _mangledNameForMaterial.
  rewrite Hobj, Hdesc. cbn in *. by rewrite Hcached.
Qed.

Lemma material_cached {F : Type} `{FloatOps F} (s s1 : LibState F) u tex m :
  material u tex s = (Ok m, s1) →
  materials s1.1 !! _mangledMaterialName false u tex = Some m.
Proof.
  destruct s as [lib h]. unfold material.
  destruct (materials lib !! _) as [m0|] eqn:Hm.
  - by intros [= <- <-].
  - destruct (lib_isLineMesh lib); intros [= <- <-]; cbn; by rewrite lookup_insert_eq.
Qed.

(** C5.  [material] returns; a second call with the same descriptors returns
    the same object and leaves library and store as they were (nothing is
    allocated); a call whose texture has another identity returns another
    object. *)
Theorem material_cached_instance
    {F : Type} `{FloatOps F} (lib : MaterialLibrary F) (h : Store F)
    (useVertexColors : bool) (tex : option DataTexture) :
  lib_wf (lib, h) →
  ∃ m s1,
    material useVertexColors tex (lib, h) = (Ok m, s1) ∧
    material useVertexColors tex s1 = (Ok m, s1) ∧
    ∀ useVertexColors' tex',
      model_id <$> tex' ≠ model_id <$> tex →
      ∃ m' s2, material useVertexColors' tex' s1 = (Ok m', s2) ∧ m' ≠ m.
Proof.
  intros Hwf.
  destruct (material useVertexColors tex (lib, h)) as [[m|e] s1] eqn:Hrun.
  2:{ exfalso. revert Hrun. unfold material.
      destruct (materials lib !! _); [done|]. by destruct (lib_isLineMesh lib). }
  exists m, s1. split; [done|].
  pose proof (material_cached _ _ _ _ _ Hrun) as Hm.
  pose proof (lib_wf_material _ _ _ _ _ Hwf Hrun) as [Hlt Hinj].
  destruct s1 as [lib1 h1]. cbn in *. split.
  { unfold material. by rewrite Hm. }
  intros u' tex' Hne. unfold material.
  destruct (materials lib1 !! _mangledMaterialName false u' tex') as [m'|] eqn:Hm'.
  - exists m', (lib1, h1). split; [done|]. intros ->.
    destruct (solid_name_inj _ _ _ _ (Hinj _ _ _ Hm' Hm)) as [_ Hid]. done.
  - destruct (lib_isLineMesh lib1); eexists _, _; (split; [reflexivity|]);
      specialize (Hlt _ _ Hm); lia.
Qed.

Lemma material_cached_instance_witness :
  ∃ m s1,
    material false (Some tex_a) fresh_lib = (Ok m, s1) ∧
    material false (Some tex_a) s1 = (Ok m, s1) ∧
    ∀ useVertexColors' tex',
      model_id <$> tex' ≠ model_id <$> Some tex_a →
      ∃ m' s2, material useVertexColors' tex' s1 = (Ok m', s2) ∧ m' ≠ m.
Proof.
  apply (material_cached_instance (MaterialLibrary_init false) empty_store
           false (Some tex_a)).
  split; cbn; intros *; rewrite lookup_empty; discriminate.
Defined.

(** C6.  When the key that [freeMaterial] computes for the material is not in
    the cache, the call raises the not-found exception and library and store
    are what they were: no entry is added or removed and nothing is closed. *)
Theorem freeMaterial_absent_raises
    {F : Type} `{FloatOps F} (lib : MaterialLibrary F) (h : Store F)
    (mat : oid) (m : Material F) :
  materialObjs h !! mat = Some m →
  materials lib !! _mangledNameForMaterial false m = None →
  freeMaterial mat (lib, h) = (Raise (Exception not_found_msg), (lib, h)).
Proof. intros Hobj Hkey. unfold freeMaterial. by rewrite Hobj, Hkey. Qed.

Lemma freeMaterial_absent_raises_witness :
  freeMaterial 1 lib_ghost_only
  = (Raise (Exception not_found_msg), lib_ghost_only).
Proof.
  apply (freeMaterial_absent_raises lib_ghost_only.1 lib_ghost_only.2 1 ghost_object).
  - vm_compute. reflexivity.
  - vm_compute. reflexivity.
Defined.

(** The descriptors of a material on which no texture was set. *)
Lemma extractMaterialDescriptors_untextured
    {F : Type} (mat : Material F) (u : bool) :
  mat_attrs mat !! "map" = None →
  (mat_attrs mat !! "vertexColors" = Some (PyStr "VertexColors") ↔ u = true) →
  _extractMaterialDescriptors mat = (u, None).
Proof.
  intros Hmap Hvc. unfold _extractMaterialDescriptors. rewrite Hmap.
  assert (match mat_attrs mat !! "vertexColors" with
          | Some (PyStr s) => bool_decide (s = "VertexColors")
          | _ => false
          end = u) as ->.
  { destruct u.
    - by rewrite (proj2 Hvc eq_refl).
    - destruct (mat_attrs mat !! "vertexColors") as [[s|?|?|?|?]|] eqn:Hs; try done.
      apply bool_decide_eq_false_2. intros ->.
      by specialize (proj1 Hvc eq_refl). }
  by destruct (has_map_attr (mat_class mat)).
Qed.

(** C10.  A material on which no texture was set, ghost or not, whose
    [vertexColors] attribute is ['VertexColors'] exactly when [u] holds:
    [freeMaterial] looks up the solid key of [u].  If that key is cached,
    the material cached under it (the one [material] returns for these
    descriptors) is removed and closed, and the entry under the ghost key
    stays as it is; if it is not, the call raises the not-found exception
    and changes nothing. *)
Theorem freeMaterial_untextured_ghost_frees_solid
    {F : Type} `{FloatOps F} (lib : MaterialLibrary F) (h : Store F)
    (g : oid) (mat : Material F) (u : bool) :
  materialObjs h !! g = Some mat →
  mat_attrs mat !! "map" = None →
  (mat_attrs mat !! "vertexColors" = Some (PyStr "VertexColors") ↔ u = true) →
  (∀ solid, materials lib !! _mangledMaterialName false u None = Some solid →
     material u None (lib, h) = (Ok solid, (lib, h)) ∧
     ∃ lib' h',
       freeMaterial g (lib, h) = (Ok tt, (lib', h')) ∧
       materials lib' = delete (_mangledMaterialName false u None) (materials lib) ∧
       closed h' = MaterialRef solid :: closed h ∧
       materials lib' !! _mangledMaterialName true u None
       = materials lib !! _mangledMaterialName true u None) ∧
  (materials lib !! _mangledMaterialName false u None = None →
     freeMaterial g (lib, h) = (Raise (Exception not_found_msg), (lib, h))).
Proof.
  intros Hobj Hmap Hvc.
  assert (_mangledNameForMaterial false mat = _mangledMaterialName false u None)
    as Hname.
  { unfold _mangledNameForMaterial.
    by rewrite (extractMaterialDescriptors_untextured mat u Hmap Hvc). }
  split.
  - intros solid Hsolid. split.
    { unfold material. by rewrite Hsolid. }
    unfold freeMaterial. rewrite Hobj, Hname, Hsolid.
    eexists _, _. split; [reflexivity|]. cbn. split; [done|]. split; [done|].
    apply lookup_delete_ne. by destruct u.
  - intros Hnone. unfold freeMaterial. by rewrite Hobj, Hname, Hnone.
Qed.

(** The ghost that the library made of the solid material without vertex
    colours, and the ghost it made of the solid material with vertex
    colours: freeing the ghost removes and closes the solid material. *)
Lemma freeMaterial_untextured_ghost_frees_solid_witness :
  (∃ lib' h',
     freeMaterial 1 lib_solid_and_ghost = (Ok tt, (lib', h')) ∧
     materials lib' = delete "solid_vcFalse" (materials lib_solid_and_ghost.1) ∧
     closed h' = MaterialRef 0 :: closed lib_solid_and_ghost.2 ∧
     materials lib' !! "ghost_vcFalse" = Some 1) ∧
  (∃ lib' h',
     freeMaterial 1 lib_vc_solid_and_ghost = (Ok tt, (lib', h')) ∧
     materials lib' = delete "solid_vcTrue" (materials lib_vc_solid_and_ghost.1) ∧
     closed h' = MaterialRef 0 :: closed lib_vc_solid_and_ghost.2 ∧
     materials lib' !! "ghost_vcTrue" = Some 1).
Proof.
  split.
  - destruct (freeMaterial_untextured_ghost_frees_solid
                lib_solid_and_ghost.1 lib_solid_and_ghost.2 1 ghost_object false)
      as (Hfree & _).
    + vm_compute. reflexivity.
    + vm_compute. reflexivity.
    + split; [vm_compute; discriminate|discriminate].
    + destruct (Hfree 0) as (_ & lib' & h' & Hrun & Hm & Hc & Hg).
      * vm_compute. reflexivity.
      * exists lib', h'. repeat split; assumption.
  - destruct (freeMaterial_untextured_ghost_frees_solid
                lib_vc_solid_and_ghost.1 lib_vc_solid_and_ghost.2 1
                vc_ghost_object true)
      as (Hfree & _).
    + vm_compute. reflexivity.
    + vm_compute. reflexivity.
    + split; [reflexivity|]. intros _. vm_compute. reflexivity.
    + destruct (Hfree 0) as (_ & lib' & h' & Hrun & Hm & Hc & Hg).
      * vm_compute. reflexivity.
      * exists lib', h'. repeat split; assumption.
Defined.

(** ** Reasoning about methods *)

Section Hoare.
Context {S : Type}.
Implicit Types (P E : S → Prop).

Lemma hoare_ret {A} P (Q : A → S → Prop) E a :
  (∀ s, P s → Q a s) → hoare P (ret a) Q E.
Proof. intros HQ s Hs. by apply HQ. Qed.

Lemma hoare_raise {A} P (Q : A → S → Prop) E e :
  (∀ s, P s → E s) → hoare P (raise e) Q E.
Proof. intros HE s Hs. by apply HE. Qed.

Lemma hoare_bind {A B} P (R : A → S → Prop) (Q : B → S → Prop) E
    (m : M S A) (k : A → M S B) :
  hoare P m R E → (∀ a, hoare (R a) (k a) Q E) → hoare P (bind m k) Q E.
Proof.
  intros Hm Hk s Hs. unfold bind. specialize (Hm s Hs).
  destruct (m s) as [[a|e] s']; [by apply Hk|done].
Qed.

Lemma preserves_bind {A B} (I : S → Prop) (m : M S A) (k : A → M S B) :
  preserves I m → (∀ a, preserves I (k a)) → preserves I (bind m k).
Proof. intros Hm Hk. eapply hoare_bind; [apply Hm|apply Hk]. Qed.

Lemma hoare_weaken {A} P P' (Q Q' : A → S → Prop) E E' (m : M S A) :
  hoare P m Q E →
  (∀ s, P' s → P s) → (∀ a s, Q a s → Q' a s) → (∀ s, E s → E' s) →
  hoare P' m Q' E'.
Proof.
  intros Hm HP HQ HE s Hs. specialize (Hm s (HP s Hs)).
  destruct (m s) as [[a|e] s']; auto.
Qed.

Lemma hoare_gets {A} P (Q : A → S → Prop) E (f : S → A) :
  (∀ s, P s → Q (f s) s) → hoare P (gets f) Q E.
Proof. intros HQ s Hs. by apply HQ. Qed.

Lemma hoare_get P (Q : S → S → Prop) E :
  (∀ s, P s → Q s s) → hoare P get Q E.
Proof. intros HQ s Hs. by apply HQ. Qed.

Lemma hoare_modify P (Q : unit → S → Prop) E (f : S → S) :
  (∀ s, P s → Q tt (f s)) → hoare P (modify f) Q E.
Proof. intros HQ s Hs. by apply HQ. Qed.

Lemma hoare_lift_result {A} P (Q : A → S → Prop) E (r : result A) :
  (∀ s, P s → match r with Ok a => Q a s | Raise _ => E s end) →
  hoare P (lift_result r) Q E.
Proof. intros HQ s Hs. specialize (HQ s Hs). by destruct r. Qed.

Lemma hoare_when P (Q : unit → S → Prop) E (b : bool) (m : M S unit) :
  (b = true → hoare P m Q E) → (b = false → ∀ s, P s → Q tt s) →
  hoare P (when b m) Q E.
Proof. destruct b; intros Ht Hf; [by apply Ht|]. intros s Hs. by apply Hf. Qed.

Lemma hoare_for_each {A} (I : S → Prop) E (xs : list A) (body : A → M S unit) :
  (∀ x, x ∈ xs → hoare I (body x) (λ _, I) E) →
  hoare I (for_each xs body) (λ _, I) E.
Proof.
  induction xs as [|x xs IH]; intros Hbody; cbn.
  - by apply hoare_ret.
  - eapply hoare_bind; [apply Hbody; left|]. intros ?.
    apply IH. intros y Hy. apply Hbody. by right.
Qed.

Lemma hoare_foldM {A B} (I : B → S → Prop) E (xs : list A)
    (body : B → A → M S B) (acc : B) :
  (∀ acc x, x ∈ xs → hoare (I acc) (body acc x) I E) →
  hoare (I acc) (foldM body acc xs) I E.
Proof.
  revert acc. induction xs as [|x xs IH]; intros acc Hbody; cbn.
  - by apply hoare_ret.
  - eapply hoare_bind; [apply Hbody; left|]. intros acc'.
    apply IH. intros acc'' y Hy. apply Hbody. by right.
Qed.

Lemma hoare_getitem {V} P (Q : V → S → Prop) E (d : gmap string V) key :
  (∀ x s, d !! key = Some x → P s → Q x s) →
  (d !! key = None → ∀ s, P s → E s) →
  hoare P (getitem d key) Q E.
Proof.
  intros HQ HE. unfold getitem. destruct (d !! key) as [x|] eqn:Hd.
  - apply hoare_ret. intros s. by apply HQ.
  - apply hoare_raise. by apply HE.
Qed.
End Hoare.

(** ** Framing *)

Section Respects.
Context {S : Type} (I : S → Prop) (R : S → S → Prop) `{!FrameRel I R}.

Lemma respects_ret {A} (a : A) : respects I R (ret a).
Proof. intros s _. apply frame_refl. Qed.

Lemma respects_raise {A} e : respects I R (raise (A:=A) e).
Proof. intros s _. apply frame_refl. Qed.

Lemma respects_gets {A} (f : S → A) : respects I R (gets f).
Proof. intros s _. apply frame_refl. Qed.

Lemma respects_get : respects I R get.
Proof. intros s _. apply frame_refl. Qed.

Lemma respects_lift_result {A} (r : result A) : respects I R (lift_result r).
Proof. intros s _. apply frame_refl. Qed.

Lemma respects_getitem {V} (d : gmap string V) key : respects I R (getitem d key).
Proof. unfold getitem. destruct (d !! key); [apply respects_ret|apply respects_raise]. Qed.

Lemma respects_modify (f : S → S) : (∀ s, I s → R s (f s)) → respects I R (modify f).
Proof. intros Hf s Hs. by apply Hf. Qed.

Lemma respects_bind {A B} (m : M S A) (k : A → M S B) :
  respects I R m → (∀ a, respects I R (k a)) → respects I R (bind m k).
Proof.
  intros Hm Hk s Hs. unfold bind. specialize (Hm s Hs).
  destruct (m s) as [[a|e] s1]; [|done]. cbn in Hm.
  eapply frame_trans; [done|]. apply Hk. by eapply frame_stable.
Qed.

Lemma respects_when (b : bool) (m : M S unit) :
  respects I R m → respects I R (when b m).
Proof. destruct b; [done|]. intros _. apply respects_ret. Qed.

Lemma respects_for_each {A} (xs : list A) (body : A → M S unit) :
  (∀ x, respects I R (body x)) → respects I R (for_each xs body).
Proof.
  intros Hbody. induction xs as [|x xs IH]; cbn.
  - apply respects_ret.
  - apply respects_bind; [apply Hbody|]. by intros ?.
Qed.

Lemma respects_foldM {A B} (xs : list A) (body : B → A → M S B) acc :
  (∀ acc x, respects I R (body acc x)) → respects I R (foldM body acc xs).
Proof.
  intros Hbody. revert acc. induction xs as [|x xs IH]; intros acc; cbn.
  - apply respects_ret.
  - apply respects_bind; [apply Hbody|]. intros acc'. apply IH.
Qed.

Lemma respects_preserves {A} (m : M S A) : respects I R m → preserves I m.
Proof.
  intros Hm s Hs. specialize (Hm s Hs).
  destruct (m s) as [[a|e] s']; by eapply frame_stable.
Qed.
End Respects.

Section Frames.
Context {F : Type} `{FloatOps F} {MeshT : Type} `{MeshAdapter F MeshT}.
Implicit Types (v : ViewerBase F MeshT) (h : Store F).

Lemma live_invariant_no_current v : currMesh v = None → live_invariant v.
Proof.
  intros Hc. split; [|split].
  - intros key _ [[b Hb] _]. revert Hb.
    unfold liveAttributes, currGeometry. rewrite Hc. cbn. by rewrite lookup_empty.
  - intros m. by rewrite Hc.
  - intros g. unfold currGeometry. by rewrite Hc.
Qed.

#[global] Instance same_live_frame :
  FrameRel (live_invariant (F:=F) (MeshT:=MeshT)) same_live.
Proof.
  split.
  - intros v. by repeat split.
  - intros v1 v2 v3 (Hc & Hg & Ha & Hs & Hv & Hf & Hn)
      (Hc' & Hg' & Ha' & Hs' & Hv' & Hf' & Hn').
    split; [congruence|]. split; [congruence|]. split; [congruence|].
    split; [congruence|]. split; [|split; [|lia]].
    + intros m Hm. by apply Hv', Hv.
    + by rewrite Hf', Hf.
  - intros v v' [Hex [Hm Hg]] (Hc & Hg' & Ha & Hs & _ & _ & Hn). split; [|split].
    + intros key Hkey. rewrite Ha, Hs. by apply Hex.
    + intros m. rewrite Hc. intros Hcm. specialize (Hm m Hcm). lia.
    + intros g. rewrite Hg'. intros Hcg. specialize (Hg g Hcg). lia.
Qed.

#[global] Instance store_extends_frame :
  FrameRel (λ _ : Store F, True) store_extends.
Proof.
  split; [by repeat split| |done].
  intros h1 h2 h3 (Hn & Hl) (Hn' & Hl'). split; [lia|].
  intros i Hi. destruct (Hl i Hi) as [<- <-]. apply Hl'. lia.
Qed.

#[global] Instance same_buffers_frame :
  FrameRel (λ _ : Store F, True) same_buffers.
Proof. split; [done| |done]. unfold same_buffers. congruence. Qed.

#[global] Instance same_buffers_viewer_frame :
  FrameRel (λ _ : ViewerBase F MeshT, True)
           (λ v v', same_buffers (store v) (store v')).
Proof. split; [done| |done]. unfold same_buffers. congruence. Qed.

(** Store primitives *)
Lemma extends_get_object m : extends (get_object (F:=F) m).
Proof. intros h _. unfold get_object. destruct (_ !! _); apply frame_refl. Qed.

Lemma extends_get_geometry g : extends (get_geometry (F:=F) g).
Proof. intros h _. unfold get_geometry. destruct (_ !! _); apply frame_refl. Qed.

Lemma extends_get_array b : extends (get_array (F:=F) b).
Proof. intros h _. unfold get_array. destruct (_ !! _); apply frame_refl. Qed.

Lemma store_extends_close r h : store_extends h (close r h).
Proof. by repeat split. Qed.

Lemma store_extends_exec r method h :
  store_extends h (exec_three_obj_method r method h).
Proof. by repeat split. Qed.

Lemma store_extends_set_array b a h : store_extends h (set_array b a h).
Proof. by repeat split. Qed.

Lemma store_extends_set_material_attr mat name value h :
  store_extends h (set_material_attr mat name value h).
Proof. by repeat split. Qed.

Lemma store_extends_set_obj_material m mat h :
  store_extends h (set_obj_material m mat h).
Proof.
  split; [done|]. intros i _. split; [done|]. cbn.
  rewrite lookup_alter. case_decide; [subst|done].
  by destruct (objects3d h !! i).
Qed.

Lemma store_extends_new_Material cls kwargs h :
  store_extends h (new_Material cls kwargs h).2.
Proof. split; [cbn; lia|]. by repeat split. Qed.

Lemma store_extends_new_BufferAttribute a h :
  store_extends h (new_BufferAttribute a h).2.
Proof. split; [cbn; lia|]. by repeat split. Qed.

Lemma store_extends_new_Object3D cls g mat h :
  store_extends h (new_Object3D cls g mat h).2.
Proof.
  split; [cbn; lia|]. intros i Hi. split; [done|]. cbn.
  by rewrite lookup_insert_ne by lia.
Qed.

Lemma store_extends_new_BufferGeometry attrs h :
  store_extends h (new_BufferGeometry attrs h).2.
Proof.
  split; [cbn; lia|]. intros i Hi. split; [|done]. cbn.
  by rewrite lookup_insert_ne by lia.
Qed.

Lemma extends_alloc (new : Store F → oid * Store F) :
  (∀ h, store_extends h (new h).2) → extends (alloc new).
Proof. intros Hnew h _. unfold alloc. specialize (Hnew h). by destruct (new h). Qed.

Lemma same_live_set_store v h' :
  live_invariant v → store_extends (store v) h' →
  same_live v (set_store (λ _, h') v).
Proof.
  intros [_ [Hm Hg]] (Hn & Hl).
  assert (currGeometry (set_store (λ _, h') v) = currGeometry v) as Hcg.
  { unfold currGeometry. cbn. destruct (currMesh v) as [m|] eqn:Hc; [|done]. cbn.
    destruct (Hl m (Hm m eq_refl)) as [_ Ho].
    destruct (objects3d h' !! m), (objects3d (store v) !! m); cbn in *; congruence. }
  split; [done|]. split; [done|]. split; [|by repeat split].
  unfold liveAttributes. rewrite Hcg.
  destruct (currGeometry v) as [g|] eqn:Hgv; [|done]. cbn.
  destruct (Hl g (Hg g eq_refl)) as [-> _]. done.
Qed.

Lemma frames_on_store {A} (m : M (Store F) A) :
  extends m → frames (on_store (MeshT:=MeshT) m).
Proof.
  intros Hm v Hv. unfold on_store. specialize (Hm (store v) I).
  destruct (m (store v)) as [r h']. by apply same_live_set_store.
Qed.

Lemma frames_on_scene (f : Scene F → Scene F) :
  frames (on_scene (MeshT:=MeshT) f).
Proof. apply respects_modify. intros v _. by repeat split. Qed.

Lemma material_extends u tex (lib : MaterialLibrary F) h :
  store_extends h (material u tex (lib, h)).2.2.
Proof.
  unfold material. destruct (materials lib !! _); [apply frame_refl|].
  destruct (lib_isLineMesh lib); apply store_extends_new_Material.
Qed.

Lemma frames_on_lib_material u tex :
  frames (F:=F) (MeshT:=MeshT) (on_lib (material u tex)).
Proof.
  intros v Hv. unfold on_lib.
  pose proof (material_extends u tex (materialLibrary v) (store v)) as Hext.
  destruct (material u tex _) as [r [l h']].
  eapply frame_trans; [|by apply same_live_set_store].
  by repeat split.
Qed.

End Frames.

(** Steps through monadic code whose every primitive respects the relation. *)
Ltac respects_struct :=
  first
    [ apply respects_ret; exact _
    | apply respects_raise; exact _
    | apply respects_gets; exact _
    | apply respects_get; exact _
    | apply respects_lift_result; exact _
    | apply respects_getitem; exact _
    | apply respects_when; [exact _|]
    | apply respects_for_each; [exact _|intros ?]
    | apply respects_bind; [exact _| |intros ?] ].

Ltac extends_step :=
  first
    [ respects_struct
    | apply extends_get_object | apply extends_get_geometry | apply extends_get_array
    | apply respects_modify; intros ? _;
      first [ apply store_extends_close | apply store_extends_exec
            | apply store_extends_set_array | apply store_extends_set_material_attr
            | apply store_extends_set_obj_material ]
    | apply extends_alloc; intros ?;
      first [ apply store_extends_new_Material | apply store_extends_new_BufferAttribute
            | apply store_extends_new_Object3D | apply store_extends_new_BufferGeometry ] ].

Ltac frames_step :=
  first
    [ respects_struct
    | apply frames_on_scene | apply frames_on_lib_material
    | apply frames_on_store; unfold extends; repeat extends_step
    | apply respects_modify; intros ? _; by repeat split
    | match goal with
      | |- respects _ _ (match ?x with _ => _ end) => destruct x
      end ].

Section FramedPhases.
Context {F : Type} `{FloatOps F} {MeshT : Type} `{MeshAdapter F MeshT}.
Implicit Types (v : ViewerBase F MeshT) (h : Store F).

Lemma frames_setModelMatrix vertices :
  frames (F:=F) (MeshT:=MeshT) (setModelMatrix vertices).
Proof. unfold frames, setModelMatrix. repeat frames_step. Qed.

Lemma frames_rawAttributes vertices idxs normals textureMap :
  frames (F:=F) (MeshT:=MeshT) (rawAttributes vertices idxs normals textureMap).
Proof. unfold frames, rawAttributes. repeat frames_step. Qed.

Lemma frames_cleanMeshes_ghost :
  frames (F:=F) (MeshT:=MeshT) (__cleanMeshes ghostMeshes set_ghostMeshes).
Proof. unfold frames, __cleanMeshes. repeat frames_step. Qed.

Lemma same_live_intro v v' :
  live_invariant v →
  currMesh v' = currMesh v →
  bufferAttributeStash v' = bufferAttributeStash v →
  (∀ m, vectorFieldMesh v = Some m → vectorFieldMesh v' = Some m) →
  (is_Some (vectorField v') ↔ is_Some (vectorField v)) →
  store_extends (store v) (store v') →
  same_live v v'.
Proof.
  intros Hv Hc Hs Hvf Hfield Hext.
  destruct (same_live_set_store v (store v') Hv Hext) as (_ & Hg & Ha & _ & _ & _ & Hn).
  split; [done|]. split; [|split; [|done]].
  - rewrite <- Hg. unfold currGeometry. cbn. by rewrite Hc.
  - rewrite <- Ha. unfold liveAttributes, currGeometry. cbn. by rewrite Hc.
Qed.

(** The overlays are pointed at the geometry the current mesh already has. *)
Lemma frames_repointOverlay overlay :
  frames (F:=F) (MeshT:=MeshT) (repointOverlay overlay).
Proof.
  intros v Hv. unfold repointOverlay. destruct overlay as [w|]; [|apply frame_refl].
  unfold bind, gets. destruct (currMesh v) as [m|] eqn:Hc; [|apply frame_refl].
  unfold on_store, get_object, modify.
  destruct (objects3d (store v) !! m) as [obj|] eqn:Hobj; cbn; [|by repeat split].
  set (v' := set_store _ _).
  assert (currGeometry v' = currGeometry v) as Hg.
  { unfold currGeometry, v'. cbn. rewrite Hc. cbn. rewrite lookup_alter.
    case_decide; [subst; by rewrite Hobj|done]. }
  split; [done|]. split; [done|]. split; [|by repeat split].
  unfold liveAttributes. by rewrite Hg.
Qed.

Lemma updateUniforms_extends mat uniforms h :
  store_extends h (updateUniforms mat uniforms h) ∧
  same_buffers h (updateUniforms mat uniforms h).
Proof.
  unfold updateUniforms. revert h.
  induction uniforms as [|kv us IH]; intros h; cbn; [by repeat split|].
  destruct (IH (set_material_attr mat kv.1 kv.2 h)) as [He Hb]. split.
  - eapply frame_trans; [apply store_extends_set_material_attr|done].
  - done.
Qed.

(** What [getArrows] does to the store: it extends it; given an existing
    mesh it returns that mesh and creates no buffer. *)
Lemma getArrows_spec vf visVertices visTris material existing h :
  store_extends h (getArrows vf visVertices visTris material existing h).2 ∧
  (∀ m r, existing = Some m →
     (getArrows vf visVertices visTris material existing h).1 = Ok r → r = m) ∧
  (is_Some existing →
     same_buffers h (getArrows vf visVertices visTris material existing h).2).
Proof.
  unfold getArrows. destruct (arrowAttributes vf visVertices visTris) as [[pos vec] col].
  destruct existing as [m|].
  - assert (∀ (r : result oid) h',
              next_id h' = next_id h → geometries h' = geometries h →
              objects3d h' = objects3d h → dom (buffers h') = dom (buffers h) →
              (∀ r', r = Ok r' → r' = m) →
              store_extends h (r, h').2 ∧
              (∀ m0 r', Some m = Some m0 → (r, h').1 = Ok r' → r' = m0) ∧
              (is_Some (Some m) → same_buffers h (r, h').2)) as Hshape.
    { intros r h' Hn Hg Ho Hb Hr. cbn. split; [|split; [|done]].
      - split; [lia|]. intros i _. by rewrite Hg, Ho.
      - intros m0 r' [= <-]. apply Hr. }
    unfold bind, get_object, get_geometry, getitem, modify, ret, raise.
    destruct (objects3d h !! m) as [obj|]; [|by apply Hshape].
    destruct (geometries h !! geometry obj) as [g|]; [|by apply Hshape].
    destruct (attributes g !! "arrowPos") as [bp|]; [|by apply Hshape].
    destruct (attributes g !! "arrowVec") as [bv|];
      [|apply Hshape; cbn; rewrite ?dom_alter_L; done].
    destruct (attributes g !! "arrowColor") as [bc|];
      apply Hshape; cbn; rewrite ?dom_alter_L; try done.
    by intros ? [= <-].
  - split; [|split; [done|by intros [??]]].
    match goal with
    | |- store_extends h (?m h).2 => assert (extends m) as He
    end.
    { unfold extends. destruct material; repeat extends_step. }
    exact (He h I).
Qed.

#[local] Arguments updateUniforms : simpl never.

(** What the vector-field step does: it frames the live state; when it
    returns and a field was given there is a glyph mesh afterwards; and it
    creates buffers only for a field that has no glyph mesh yet. *)
Lemma showVectorField_spec vertices idxs v :
  live_invariant v →
  same_live v (showVectorField vertices idxs v).2 ∧
  ((showVectorField vertices idxs v).1 = Ok tt → is_Some (vectorField v) →
     is_Some (vectorFieldMesh (showVectorField vertices idxs v).2)) ∧
  (vectorField v = None ∨ is_Some (vectorFieldMesh v) →
     same_buffers (store v) (store (showVectorField vertices idxs v).2)).
Proof.
  intros Hv.
  unfold showVectorField, bind, gets, modify, lift_result, when, on_store, on_scene,
    get, ret.
  destruct (vectorField v) as [a|] eqn:Hfield.
  - set (vf := match a with
               | VectorFieldObject vf => vf
               | VectorFieldData data => new_VectorField (mesh v) data
               end).
    assert (is_Some (Some (VectorFieldObject vf)) ↔ is_Some (Some a)) as Hfield'
      by (split; eauto).
    destruct (VectorField_validateSize vf (length vertices) (length idxs));
      cbn; [|by repeat split].
    pose proof (getArrows_spec vf vertices idxs (arrowMaterial v)
                  (vectorFieldMesh v) (store v)) as (Hext & Hsame & Hbuf).
    destruct (getArrows vf vertices idxs (arrowMaterial v) (vectorFieldMesh v) (store v))
      as [[vm|e] h1]; cbn in *.
    2:{ split; [|split; [done|]].
        - apply same_live_intro; cbn; first [done | by rewrite Hfield].
        - intros [[=]|Hsome]. by apply Hbuf. }
    unfold get_object. destruct (objects3d h1 !! vm) as [vobj|] eqn:Hvobj; cbn.
    2:{ split; [|split; [done|]].
        - apply same_live_intro; cbn;
            first [done | by rewrite Hfield
                  | intros m Hm; f_equal; by eapply Hsame ].
        - intros [[=]|Hsome]. by apply Hbuf. }
    match goal with
    | |- context [updateUniforms ?mat ?l h1] =>
        set (us := l);
        destruct (updateUniforms_extends mat us h1) as [Hue Hub]
    end.
    assert (∀ v', currMesh v' = currMesh v →
                  bufferAttributeStash v' = bufferAttributeStash v →
                  vectorFieldMesh v' = Some vm →
                  vectorField v' = Some (VectorFieldObject vf) →
                  store v' = updateUniforms (obj_material vobj) us h1 →
                  same_live v v') as Hlive.
    { intros v' Hc Hs Hvm Hfv Hst. apply same_live_intro; [done..| | |].
      - intros m Hm. rewrite Hvm. f_equal. by eapply Hsame.
      - by rewrite Hfv, Hfield.
      - rewrite Hst. by eapply frame_trans. }
    assert (Some a = None ∨ is_Some (vectorFieldMesh v) →
            same_buffers (store v) (updateUniforms (obj_material vobj) us h1))
      as Hnoalloc.
    { intros [[=]|Hsome]. unfold same_buffers in *. rewrite Hub. by apply Hbuf. }
    destruct (bool_decide (vm ∈ meshes v)); cbn;
      (split; [by apply Hlive|split; [by eauto|done]]).
  - destruct (vectorFieldMesh v) as [vm|] eqn:Hvm; cbn.
    + destruct (bool_decide (vm ∈ meshes v)); cbn; (split; [|split]);
        try done; try (by repeat split); intros _ [? [=]].
    + split; [by repeat split|]. split; [|done]. intros _ [? [=]].
Qed.
End FramedPhases.

(** ** Buffers: allocate, update or stash *)

Section Buffers.
Context {F : Type} `{FloatOps F} {MeshT : Type} `{MeshAdapter F MeshT}.
Implicit Types (v : ViewerBase F MeshT) (h : Store F)
  (attr stash : gmap string oid) (attrRaw : gmap string (ndarray F)).

Lemma with_stash_store_id v : with_stash_store v (bufferAttributeStash v) (store v) = v.
Proof. by destruct v. Qed.

Lemma allocate_cases attrRaw attr key v :
  ¬ (is_Some (attr !! key) ∧ is_Some (bufferAttributeStash v !! key)) →
  ∃ attr' stash' h',
    allocateUpdateOrStashBufferAttribute attrRaw attr key v
    = (Ok attr', with_stash_store v stash' h') ∧
    allocate_case attrRaw attr key v attr' stash' h'.
Proof.
  intros Hassert. unfold allocateUpdateOrStashBufferAttribute, bind, gets.
  rewrite bool_decide_eq_false_2 by done.
  destruct (attrRaw !! key) as [a|] eqn:Hraw.
  - destruct (bufferAttributeStash v !! key) as [b|] eqn:Hst.
    + unfold modify, ret. cbn. rewrite lookup_insert_eq. cbn.
      eexists _, _, _. split; [reflexivity|]. by eapply reuse_stashed.
    + unfold ret. destruct (attr !! key) as [b|] eqn:Hat; cbn.
      * exists attr, (bufferAttributeStash v), (set_array b a (store v)).
        split; [by destruct v|]. by eapply update_live.
      * eexists _, _, _. split; [|by eapply allocate_new]. by destruct v.
  - destruct (attr !! key) as [b|] eqn:Hat; cbn.
    + eexists _, _, _. split; [|by eapply stash_live]. by destruct v.
    + exists attr, (bufferAttributeStash v), (store v).
      split; [by destruct v|]. by eapply nothing_to_do.
Qed.

Lemma allocate_case_other attrRaw attr key v attr' stash' h' k :
  allocate_case attrRaw attr key v attr' stash' h' → k ≠ key →
  attr' !! k = attr !! k ∧ stash' !! k = bufferAttributeStash v !! k.
Proof.
  intros Hcase Hne.
  destruct Hcase; rewrite ?lookup_insert_ne, ?lookup_delete_ne by done; done.
Qed.

Lemma allocate_case_needed attrRaw attr key v attr' stash' h' :
  allocate_case attrRaw attr key v attr' stash' h' →
  ¬ (is_Some (attr !! key) ∧ is_Some (bufferAttributeStash v !! key)) →
  is_Some (attrRaw !! key) →
  stash' !! key = None ∧ is_Some (attr' !! key) ∧
  (∀ b, bufferAttributeStash v !! key = Some b ∨ attr !! key = Some b →
        attr' !! key = Some b).
Proof.
  intros Hcase Hex [a Ha].
  destruct Hcase; simplify_eq; rewrite ?lookup_insert_eq, ?lookup_delete_eq.
  - split; [done|]. split; [eauto|]. intros b' [?|Hb']; [congruence|].
    destruct Hex; eauto.
  - split; [done|]. split; [eauto|]. intros b' [?|?]; congruence.
  - split; [done|]. split; [eauto|]. intros b' [?|?]; congruence.
Qed.

Lemma allocate_case_unneeded attrRaw attr key v attr' stash' h' :
  allocate_case attrRaw attr key v attr' stash' h' →
  ¬ (is_Some (attr !! key) ∧ is_Some (bufferAttributeStash v !! key)) →
  attrRaw !! key = None →
  attr' !! key = None ∧
  (∀ b, bufferAttributeStash v !! key = Some b ∨ attr !! key = Some b →
        stash' !! key = Some b) ∧
  (is_Some (stash' !! key) →
   is_Some (attr !! key) ∨ is_Some (bufferAttributeStash v !! key)).
Proof.
  intros Hcase Hex Ha.
  destruct Hcase; simplify_eq; rewrite ?lookup_insert_eq, ?lookup_delete_eq.
  - split; [done|]. split; [|eauto]. intros b' [Hb'|?]; [|congruence].
    destruct Hex; eauto.
  - split; [done|]. split; [|eauto]. intros b' [?|?]; congruence.
Qed.

Lemma allocate_case_store attrRaw attr key v attr' stash' h' :
  allocate_case attrRaw attr key v attr' stash' h' →
  objects3d h' = objects3d (store v) ∧
  geometries h' = geometries (store v) ∧
  materialObjs h' = materialObjs (store v) ∧
  closed h' = closed (store v) ∧
  next_id (store v) ≤ next_id h' ∧
  ((is_Some (attrRaw !! key) →
    is_Some (attr !! key) ∨ is_Some (bufferAttributeStash v !! key)) →
   same_buffers (store v) h' ∧ next_id h' = next_id (store v)).
Proof.
  intros Hcase. unfold same_buffers.
  destruct Hcase; cbn; (do 4 (split; [done|])); (split; [lia|]); intros Hhas.
  - split; [apply dom_alter_L|done].
  - split; [apply dom_alter_L|done].
  - destruct Hhas as [[? ?]|[? ?]]; [eauto|congruence..].
  - done.
  - done.
Qed.

(** The loop of line 302-303 over a list of distinct keys. *)
Lemma allocate_loop attrRaw keys :
  NoDup keys → ∀ attr v,
  (∀ k, k ∈ keys →
     ¬ (is_Some (attr !! k) ∧ is_Some (bufferAttributeStash v !! k))) →
  ∃ attr' stash' h',
    foldM (allocateUpdateOrStashBufferAttribute attrRaw) attr keys v
    = (Ok attr', with_stash_store v stash' h') ∧
    (∀ k, k ∉ keys →
       attr' !! k = attr !! k ∧ stash' !! k = bufferAttributeStash v !! k) ∧
    (∀ k, k ∈ keys → is_Some (attrRaw !! k) →
       stash' !! k = None ∧ is_Some (attr' !! k) ∧
       (∀ b, bufferAttributeStash v !! k = Some b ∨ attr !! k = Some b →
             attr' !! k = Some b)) ∧
    (∀ k, k ∈ keys → attrRaw !! k = None →
       attr' !! k = None ∧
       (∀ b, bufferAttributeStash v !! k = Some b ∨ attr !! k = Some b →
             stash' !! k = Some b) ∧
       (is_Some (stash' !! k) →
        is_Some (attr !! k) ∨ is_Some (bufferAttributeStash v !! k))) ∧
    objects3d h' = objects3d (store v) ∧
    geometries h' = geometries (store v) ∧
    materialObjs h' = materialObjs (store v) ∧
    closed h' = closed (store v) ∧
    next_id (store v) ≤ next_id h' ∧
    ((∀ k, k ∈ keys → is_Some (attrRaw !! k) →
        is_Some (attr !! k) ∨ is_Some (bufferAttributeStash v !! k)) →
     same_buffers (store v) h' ∧ next_id h' = next_id (store v)).
Proof.
  induction 1 as [|x keys Hx Hnd IH]; intros attr v Hex.
  - exists attr, (bufferAttributeStash v), (store v). cbn.
    rewrite with_stash_store_id. split; [done|].
    split; [done|]. split; [by intros k ?%elem_of_nil|].
    split; [by intros k ?%elem_of_nil|]. by repeat split.
  - destruct (allocate_cases attrRaw attr x v) as (attr1 & st1 & h1 & Hrun & Hcase).
    { apply Hex. by left. }
    set (v1 := with_stash_store v st1 h1).
    destruct (IH attr1 v1) as
      (attr' & stash' & h' & Hloop & Hout & Hneed & Hunneed
       & Ho & Hg & Hm & Hc & Hn & Hnoalloc).
    { intros k Hk. assert (k ≠ x) as Hne by (intros ->; done).
      destruct (allocate_case_other _ _ _ _ _ _ _ k Hcase Hne) as [-> Hs].
      cbn. rewrite Hs. apply Hex. by right. }
    destruct (allocate_case_store _ _ _ _ _ _ _ Hcase)
      as (Ho1 & Hg1 & Hm1 & Hc1 & Hn1 & Hnoalloc1).
    exists attr', stash', h'. split.
    { cbn. unfold bind. rewrite Hrun. fold v1. by rewrite Hloop. }
    cbn in *.
    assert (∀ k, k ∈ keys →
              attr1 !! k = attr !! k ∧ st1 !! k = bufferAttributeStash v !! k)
      as Hrest.
    { intros k Hk. eapply allocate_case_other; [done|]. by intros ->. }
    split; [|split; [|split]].
    + intros k Hk. apply not_elem_of_cons in Hk as [Hne Hk].
      destruct (Hout k Hk) as [-> ->]. by eapply allocate_case_other.
    + intros k Hk Hraw. apply elem_of_cons in Hk as [->|Hk].
      * destruct (Hout x Hx) as [-> ->].
        eapply allocate_case_needed; [done| |done]. apply Hex. by left.
      * destruct (Hrest k Hk) as [Ha Hs]. rewrite <- Ha, <- Hs. by apply Hneed.
    + intros k Hk Hraw. apply elem_of_cons in Hk as [->|Hk].
      * destruct (Hout x Hx) as [-> ->].
        eapply allocate_case_unneeded; [done| |done]. apply Hex. by left.
      * destruct (Hrest k Hk) as [Ha Hs]. rewrite <- Ha, <- Hs. by apply Hunneed.
    + rewrite Ho, Hg, Hm, Hc. (do 4 (split; [done|])). split; [lia|].
      intros Hhas. destruct Hnoalloc1 as [Hb1 Hnx1].
      { intros ?. apply Hhas; [by left|done]. }
      destruct Hnoalloc as [Hb2 Hnx2].
      { intros k Hk Hraw. destruct (Hrest k Hk) as [-> ->]. apply Hhas; [by right|done]. }
      unfold same_buffers in *. split; congruence.
Qed.

#[local] Arguments liveAttributes : simpl never.
#[local] Arguments currGeometry : simpl never.
#[local] Arguments has_buffer : simpl never.

Lemma NoDup_stashableKeys : NoDup stashableKeys.
Proof. apply (bool_decide_unpack _). by vm_compute. Qed.

Lemma liveAttributes_lookup v m obj g :
  currMesh v = Some m → objects3d (store v) !! m = Some obj →
  geometries (store v) !! geometry obj = Some g →
  currGeometry v = Some (geometry obj) ∧ liveAttributes v = attributes g.
Proof.
  intros Hc Ho Hg. unfold liveAttributes, currGeometry.
  rewrite Hc. cbn. rewrite Ho. cbn. by rewrite Hg.
Qed.

(** The update of the current mesh in place (lines 297-306): what holds of
    the state it ends in, returned or raised. *)
Lemma updateMesh_spec curr attrRaw mat v :
  live_invariant v → currMesh v = Some curr →
  let rv := updateMesh curr attrRaw mat v in
  live_invariant rv.2 ∧
  currMesh rv.2 = Some curr ∧
  vectorFieldMesh rv.2 = vectorFieldMesh v ∧
  vectorField rv.2 = vectorField v ∧
  (∀ k, has_buffer v k → has_buffer rv.2 k) ∧
  (rv.1 = Ok tt → ∀ k, k ∈ stashableKeys → is_Some (attrRaw !! k) →
     bufferAttributeStash rv.2 !! k = None ∧
     is_Some (liveAttributes rv.2 !! k) ∧
     ∀ b, bufferAttributeStash v !! k = Some b → liveAttributes rv.2 !! k = Some b) ∧
  ((∀ k, k ∈ stashableKeys → is_Some (attrRaw !! k) → has_buffer v k) →
     same_buffers (store v) (store rv.2)).
Proof.
  intros Hv Hc.
  (* the states the method can raise in before the loop *)
  assert (∀ (e : exn) h',
            objects3d h' = objects3d (store v) →
            geometries h' = geometries (store v) →
            next_id h' = next_id (store v) →
            dom (buffers h') = dom (buffers (store v)) →
            let rv : result unit * _ := (Raise e, set_store (λ _, h') v) in
            live_invariant rv.2 ∧ currMesh rv.2 = Some curr ∧
            vectorFieldMesh rv.2 = vectorFieldMesh v ∧
            vectorField rv.2 = vectorField v ∧
            (∀ k, has_buffer v k → has_buffer rv.2 k) ∧
            (rv.1 = Ok tt → ∀ k, k ∈ stashableKeys → is_Some (attrRaw !! k) →
               bufferAttributeStash rv.2 !! k = None ∧
               is_Some (liveAttributes rv.2 !! k) ∧
               ∀ b, bufferAttributeStash v !! k = Some b →
                    liveAttributes rv.2 !! k = Some b) ∧
            ((∀ k, k ∈ stashableKeys → is_Some (attrRaw !! k) → has_buffer v k) →
               same_buffers (store v) (store rv.2))) as Hraise.
  { intros e h' Ho Hg Hn Hb. cbn.
    assert (same_live v (set_store (λ _, h') v)) as Hsame.
    { apply same_live_intro; [done..|]. cbn. split; [lia|].
      intros i _. by rewrite Ho, Hg. }
    pose proof Hsame as (_ & _ & Ha & _).
    split; [by eapply frame_stable|].
    split; [done|]. split; [done|]. split; [done|]. split.
    - intros k. unfold has_buffer. by rewrite Ha.
    - split; [done|]. by intros _. }
  unfold updateMesh, bind, on_store, get_object, get_geometry, getitem, modify,
    ret, raise.
  destruct (objects3d (store v) !! curr) as [obj|] eqn:Hobj; cbn -[stashableKeys].
  2:{ rewrite <- (with_stash_store_id v) at 1 2 3 4 5 6 7 8. by apply Hraise. }
  destruct (geometries (store v) !! geometry obj) as [g|] eqn:Hg; cbn -[stashableKeys].
  2:{ apply (Hraise NoSuchObject (store v)); done. }
  destruct (liveAttributes_lookup v curr obj g Hc Hobj Hg) as [Hcg Hlive].
  destruct (attributes g !! "position") as [bp|]; cbn -[stashableKeys];
    [|by apply Hraise].
  destruct (attrRaw !! "position") as [ap|]; cbn -[stashableKeys];
    [|by apply Hraise].
  destruct (attributes g !! "normal") as [bn|]; cbn -[stashableKeys];
    [|apply Hraise; cbn; rewrite ?dom_alter_L; done].
  destruct (attrRaw !! "normal") as [an|]; cbn -[stashableKeys];
    [|apply Hraise; cbn; rewrite ?dom_alter_L; done].
  set (v1 := set_store _ _).
  destruct (allocate_loop attrRaw stashableKeys NoDup_stashableKeys (attributes g) v1)
    as (attr' & stash' & h' & Hloop & Hout & Hneed & Hunneed
        & Ho & Hgs & Hm & Hcl & Hn & Hnoalloc).
  { intros k Hk. rewrite <- Hlive. cbn. by apply Hv. }
  rewrite Hloop. cbn -[stashableKeys] in *.
  set (v2 := set_store _ _).
  assert (currGeometry v2 = Some (geometry obj) ∧ liveAttributes v2 = attr')
    as [Hcg2 Hlive2].
  { apply (liveAttributes_lookup v2 curr
             (mkObject3D (obj_class obj) (geometry obj) mat) (mkBufferGeometry attr')).
    - done.
    - cbn. rewrite lookup_alter_eq, Ho, Hobj. done.
    - cbn. rewrite lookup_alter_eq, Hgs, Hg. done. }
  assert (∀ k, k ∈ stashableKeys →
            ¬ (is_Some (attr' !! k) ∧ is_Some (stash' !! k))) as Hex2.
  { intros k Hk [Ha Hs].
    destruct (attrRaw !! k) as [a|] eqn:Hraw.
    - destruct (Hneed k Hk) as (Hnone & _); [by eauto|].
      rewrite Hnone in Hs. by destruct Hs.
    - destruct (Hunneed k Hk Hraw) as (Hnone & _).
      rewrite Hnone in Ha. by destruct Ha. }
  cbv zeta. cbn [fst snd].
  split; [|split; [done|split; [done|split; [done|split; [|split]]]]].
  - split; [|split].
    + intros k Hk. rewrite Hlive2. cbn. by apply Hex2.
    + intros m Hcm. assert (m = curr) as ->.
      { unfold v2, v1 in Hcm. cbn in Hcm. congruence. }
      cbn. destruct Hv as [_ [Hlt _]]. specialize (Hlt curr Hc). cbn in Hlt. lia.
    + intros g'. rewrite Hcg2. intros [= <-]. cbn.
      destruct Hv as [_ [_ Hlt]]. specialize (Hlt _ Hcg). cbn in Hlt. lia.
  - intros k. unfold has_buffer. rewrite Hlive, Hlive2. cbn.
    destruct (decide (k ∈ stashableKeys)) as [Hk|Hk].
    + destruct (attrRaw !! k) as [a|] eqn:Hraw.
      * destruct (Hneed k Hk) as (_ & Hsome & _); [by eauto|]. by left.
      * destruct (Hunneed k Hk Hraw) as (_ & Hkeep & _).
        intros [[b Hb]|[b Hb]]; right; exists b; apply Hkeep; eauto.
    + destruct (Hout k Hk) as [-> ->]. done.
  - intros _ k Hk Hraw. rewrite Hlive2. cbn.
    destruct (Hneed k Hk Hraw) as (Hnone & Hsome & Hsame).
    split; [done|]. split; [done|]. intros b Hb. apply Hsame. by left.
  - intros Hhas. cbn. destruct Hnoalloc as [Hb _].
    + intros k Hk Hraw. specialize (Hhas k Hk Hraw).
      unfold has_buffer in Hhas. by rewrite Hlive in Hhas.
    + unfold same_buffers in *. unfold v2. cbn. rewrite Hb. cbn.
      by rewrite ?dom_alter_L.
Qed.

(** The first loop of [buildMesh] (lines 286-289), over distinct keys that
    the dictionary under construction does not hold yet. *)
Lemma buildMesh_stashable_loop keys :
  NoDup keys → ∀ attr attrRaw v,
  (∀ k, k ∈ keys → attr !! k = None) →
  ∃ attr' attrRaw' stash' h',
    foldM (λ '(attr, attrRaw) key,
             if bool_decide (key ∈ stashableKeys)
             then let! attr := allocateUpdateOrStashBufferAttribute attrRaw attr key in
                  ret (attr, delete key attrRaw)
             else ret (attr, attrRaw))
          (attr, attrRaw) keys v
    = (Ok (attr', attrRaw'), with_stash_store v stash' h') ∧
    (∀ k, k ∉ keys ∨ k ∉ stashableKeys →
       attr' !! k = attr !! k ∧ stash' !! k = bufferAttributeStash v !! k ∧
       attrRaw' !! k = attrRaw !! k) ∧
    (∀ k, k ∈ keys → k ∈ stashableKeys →
       attrRaw' !! k = None ∧
       (is_Some (attrRaw !! k) →
          stash' !! k = None ∧ is_Some (attr' !! k) ∧
          ∀ b, bufferAttributeStash v !! k = Some b → attr' !! k = Some b) ∧
       (attrRaw !! k = None → attr' !! k = None)) ∧
    objects3d h' = objects3d (store v) ∧
    geometries h' = geometries (store v) ∧
    next_id (store v) ≤ next_id h'.
Proof.
  induction 1 as [|x keys Hx Hnd IH]; intros attr attrRaw v Hfree.
  - exists attr, attrRaw, (bufferAttributeStash v), (store v). cbn.
    rewrite with_stash_store_id. split; [done|]. split; [done|].
    split; [by intros k ?%elem_of_nil|]. done.
  - cbn [foldM]. unfold bind at 1.
    destruct (decide (x ∈ stashableKeys)) as [Hst|Hst].
    + rewrite bool_decide_eq_true_2 by done.
      destruct (allocate_cases attrRaw attr x v) as (attr1 & st1 & h1 & Hrun & Hcase).
      { rewrite Hfree by (by left). by intros [[? [=]] _]. }
      unfold bind at 1. rewrite Hrun. unfold ret at 1.
      set (v1 := with_stash_store v st1 h1).
      assert (∀ k, k ≠ x →
                attr1 !! k = attr !! k ∧ st1 !! k = bufferAttributeStash v !! k)
        as Hother by (intros k Hk; by eapply allocate_case_other).
      destruct (IH attr1 (delete x attrRaw) v1)
        as (attr' & raw' & stash' & h' & Hloop & Hout & Hin & Ho & Hg & Hn).
      { intros k Hk. destruct (Hother k) as [-> _]; [by intros ->|].
        apply Hfree. by right. }
      destruct (allocate_case_store _ _ _ _ _ _ _ Hcase)
        as (Ho1 & Hg1 & _ & _ & Hn1 & _).
      exists attr', raw', stash', h'. split; [by rewrite Hloop|].
      cbn in *. split; [|split].
      * intros k Hk.
        assert (k ≠ x) as Hne by (intros ->; destruct Hk as [Hk|Hk]; apply Hk; [by left|done]).
        destruct (Hout k) as (-> & -> & ->).
        { destruct Hk as [Hk|Hk]; [left|by right]. intros ?. apply Hk. by right. }
        destruct (Hother k Hne) as [-> ->]. by rewrite lookup_delete_ne.
      * intros k Hk Hks. apply elem_of_cons in Hk as [->|Hk].
        -- destruct (Hout x) as (-> & -> & ->); [by left|].
           rewrite lookup_delete_eq. split; [done|]. split.
           ++ intros Hraw.
              destruct (allocate_case_needed _ _ _ _ _ _ _ Hcase) as (? & ? & Hb);
                [|done|].
              { rewrite Hfree by (by left). by intros [[? [=]] _]. }
              split; [done|]. split; [done|]. intros b ?. apply Hb. by left.
           ++ intros Hraw.
              destruct (allocate_case_unneeded _ _ _ _ _ _ _ Hcase) as (? & _);
                [|done..].
              rewrite Hfree by (by left). by intros [[? [=]] _].
        -- assert (k ≠ x) as Hne by (by intros ->).
           destruct (Hin k Hk Hks) as (Hnone & Hneed & Hunneed).
           rewrite lookup_delete_ne in Hneed, Hunneed by done.
           destruct (Hother k Hne) as [_ Hs]. rewrite Hs in Hneed. done.
      * rewrite Ho, Hg, Ho1, Hg1. repeat split; try done. lia.
    + rewrite bool_decide_eq_false_2 by done. unfold ret at 1.
      destruct (IH attr attrRaw v)
        as (attr' & raw' & stash' & h' & Hloop & Hout & Hin & Hrest).
      { intros k Hk. apply Hfree. by right. }
      exists attr', raw', stash', h'. split; [done|]. split; [|split; [|done]].
      * intros k Hk. apply Hout.
        destruct Hk as [Hk|Hk]; [|by right].
        destruct (decide (k ∈ stashableKeys)); [|by right].
        left. intros ?. apply Hk. by right.
      * intros k Hk Hks. apply elem_of_cons in Hk as [->|Hk]; [done|].
        by apply Hin.
Qed.

(** The second loop of [buildMesh] (line 290): a new buffer per remaining
    raw attribute. *)
Lemma buildMesh_alloc_loop (items : list (string * ndarray F)) :
  ∀ attr v,
  ∃ attr' h',
    foldM (λ attr kv,
             let! b := on_store (alloc (new_BufferAttribute kv.2)) in
             ret (<[kv.1 := b]> attr))
          attr items v
    = (Ok attr', set_store (λ _, h') v) ∧
    (∀ k, k ∉ items.*1 → attr' !! k = attr !! k) ∧
    objects3d h' = objects3d (store v) ∧
    geometries h' = geometries (store v) ∧
    next_id (store v) ≤ next_id h'.
Proof.
  induction items as [|[k0 a] items IH]; intros attr v.
  - exists attr, (store v). cbn. split; [by destruct v|]. done.
  - cbn [foldM]. unfold bind at 1.
    match goal with
    | |- context [match ?step v with _ => _ end] =>
        replace (step v) with
          (Ok (<[k0 := next_id (store v)]> attr) : result _,
           set_store (λ _, (new_BufferAttribute a (store v)).2) v) by reflexivity
    end.
    destruct (IH (<[k0 := next_id (store v)]> attr)
                 (set_store (λ _, (new_BufferAttribute a (store v)).2) v))
      as (attr' & h' & Hloop & Hout & Ho & Hg & Hn).
    exists attr', h'. split; [by rewrite Hloop|]. cbn in *.
    split; [|split; [done|split; [done|lia]]].
    intros k Hk. apply not_elem_of_cons in Hk as [Hne Hk].
    rewrite Hout by done. by rewrite lookup_insert_ne.
Qed.

(** Building the mesh when there is no current one (lines 283-295): the call
    returns, and every stashable attribute of the frame is live and no longer
    stashed, the stashed buffer being the live one where there was one. *)
Lemma buildMesh_spec attrRaw mat v :
  currMesh v = None →
  ∃ v',
    buildMesh attrRaw mat v = (Ok tt, v') ∧
    live_invariant v' ∧
    is_Some (currMesh v') ∧
    vectorFieldMesh v' = vectorFieldMesh v ∧
    vectorField v' = vectorField v ∧
    ghostMeshes v' = ghostMeshes v ∧
    wireframeMesh v' = wireframeMesh v ∧
    pointsMesh v' = pointsMesh v ∧
    store_extends (store v) (store v') ∧
    (∀ k, k ∈ stashableKeys → is_Some (attrRaw !! k) →
       bufferAttributeStash v' !! k = None ∧
       is_Some (liveAttributes v' !! k) ∧
       ∀ b, bufferAttributeStash v !! k = Some b → liveAttributes v' !! k = Some b).
Proof.
  intros Hc. unfold buildMesh.
  destruct (buildMesh_stashable_loop ((map_to_list attrRaw).*1)
              (NoDup_fst_map_to_list _) ∅ attrRaw v)
    as (attr1 & raw1 & st1 & h1 & Hloop1 & Hout1 & Hin1 & Ho1 & Hg1 & Hn1).
  { intros k _. apply lookup_empty. }
  unfold bind at 1. rewrite Hloop1.
  set (v1 := with_stash_store v st1 h1).
  destruct (buildMesh_alloc_loop (map_to_list raw1) attr1 v1)
    as (attr2 & h2 & Hloop2 & Hout2 & Ho2 & Hg2 & Hn2).
  unfold bind at 1. rewrite Hloop2.
  unfold bind, on_store, alloc, gets, modify. cbn in *.
  eexists. split; [reflexivity|].
  set (v' := set_meshes _ _).
  (* no stashable key is left among the raw attributes of the second loop *)
  assert (∀ k, k ∈ stashableKeys → attr2 !! k = attr1 !! k) as Hkeep.
  { intros k Hk. apply Hout2. intros Hin.
    apply list_elem_of_fmap in Hin as ([k' a] & -> & Hin).
    apply elem_of_map_to_list in Hin. cbn in *.
    destruct (decide (k' ∈ (map_to_list attrRaw).*1)) as [Hpresent|Habsent].
    - destruct (Hin1 k' Hpresent Hk) as (Hnone & _). congruence.
    - destruct (Hout1 k') as (_ & _ & Hraw); [by left|].
      rewrite Hraw in Hin. apply Habsent.
      apply list_elem_of_fmap. exists (k', a). split; [done|].
      by apply elem_of_map_to_list. }
  assert (currGeometry v' = Some (next_id h2) ∧ liveAttributes v' = attr2)
    as [Hcg Hlive].
  { apply (liveAttributes_lookup v' (S (next_id h2))
             (mkObject3D (MeshConstructor v) (next_id h2) mat)
             (mkBufferGeometry attr2)); cbn.
    - done.
    - by rewrite lookup_insert_eq.
    - by rewrite lookup_insert_eq. }
  assert (∀ k, k ∈ stashableKeys → is_Some (attrRaw !! k) →
            st1 !! k = None ∧ is_Some (attr2 !! k) ∧
            ∀ b, bufferAttributeStash v !! k = Some b → attr2 !! k = Some b)
    as Hneeded.
  { intros k Hk [a Ha]. rewrite (Hkeep k Hk).
    assert (k ∈ (map_to_list attrRaw).*1) as Hpresent.
    { apply list_elem_of_fmap. exists (k, a). split; [done|].
      by apply elem_of_map_to_list. }
    destruct (Hin1 k Hpresent Hk) as (_ & Hneed & _). apply Hneed. eauto. }
  split; [|split; [by eexists|]].
  { split; [|split].
    - intros k Hk [Hlive' Hst]. rewrite Hlive in Hlive'. cbn in Hst.
      rewrite (Hkeep k Hk) in Hlive'.
      destruct (decide (k ∈ (map_to_list attrRaw).*1)) as [Hpresent|Habsent].
      + destruct (Hin1 k Hpresent Hk) as (_ & Hneed & Hunneed).
        destruct (attrRaw !! k) as [a|] eqn:Hraw.
        * destruct Hneed as (Hnone & _); [by eauto|].
          rewrite Hnone in Hst. by destruct Hst.
        * rewrite Hunneed in Hlive' by done. by destruct Hlive'.
      + destruct (Hout1 k) as (Hattr & _); [by left|].
        rewrite Hattr, lookup_empty in Hlive'. by destruct Hlive'.
    - intros m [= <-]. unfold v'. cbn. lia.
    - intros g. rewrite Hcg. intros [= <-]. unfold v'. cbn. lia. }
  do 5 (split; [done|]). split.
  { assert (next_id h1 ≤ next_id h2) as Hn2' by exact Hn2.
    unfold v'. cbn. split; [cbn; lia|]. intros i Hi. cbn.
    rewrite !lookup_insert_ne by lia. by rewrite Hg2, Ho2, Hg1, Ho1. }
  intros k Hk Hraw. rewrite Hlive. cbn. by apply Hneeded.
Qed.
End Buffers.

(** ** setGeometry keeps the live invariant *)

Section LiveInvariant.
Context {F : Type} `{FloatOps F} {MeshT : Type} `{MeshAdapter F MeshT}.
Implicit Types (v : ViewerBase F MeshT) (h : Store F).

#[local] Arguments liveAttributes : simpl never.
#[local] Arguments currGeometry : simpl never.

#[global] Instance same_slots_frame :
  FrameRel (λ _ : ViewerBase F MeshT, True) same_slots.
Proof.
  split; [done| |done].
  intros v1 v2 v3 (? & ? & ? & ? & ? & ?) (? & ? & ? & ? & ? & ?).
  repeat split; congruence.
Qed.

Lemma slots_on_store {A} (m : M (Store F) A) :
  respects (λ _, True) same_slots (on_store (MeshT:=MeshT) m).
Proof. intros v _. unfold on_store. by destruct (m (store v)). Qed.

Lemma slots_on_lib {A} (m : M (LibState F) A) :
  respects (λ _, True) same_slots (on_lib (MeshT:=MeshT) m).
Proof. intros v _. unfold on_lib. by destruct (m _) as [? [? ?]]. Qed.

End LiveInvariant.

Ltac slots_step :=
  first
    [ respects_struct
    | apply slots_on_store | apply slots_on_lib
    | apply respects_modify; intros ? _; by repeat split
    | match goal with
      | |- respects _ _ (match ?x with _ => _ end) => destruct x
      end ].

Ltac preserves_frames :=
  apply (respects_preserves live_invariant same_live); repeat frames_step.

Section SetGeometryInvariant.
Context {F : Type} `{FloatOps F} {MeshT : Type} `{MeshAdapter F MeshT}.
Implicit Types (v : ViewerBase F MeshT) (h : Store F).

#[local] Arguments liveAttributes : simpl never.
#[local] Arguments currGeometry : simpl never.

(** Turning the current mesh into a ghost empties the current-mesh slot and
    leaves the stash and the overlay slots alone. *)
Lemma ghostCurrentMesh_slots oldMesh v :
  currMesh (ghostCurrentMesh oldMesh v).2 = None ∧
  bufferAttributeStash (ghostCurrentMesh oldMesh v).2 = bufferAttributeStash v ∧
  wireframeMesh (ghostCurrentMesh oldMesh v).2 = wireframeMesh v ∧
  pointsMesh (ghostCurrentMesh oldMesh v).2 = pointsMesh v ∧
  scalarField (ghostCurrentMesh oldMesh v).2 = scalarField v ∧
  vectorField (ghostCurrentMesh oldMesh v).2 = vectorField v.
Proof.
  assert (∀ rest : M (ViewerBase F MeshT) unit,
            respects (λ _, True) same_slots rest →
            let rv := (modify (set_currMesh (λ _, None)) ;; rest) v in
            currMesh rv.2 = None ∧
            bufferAttributeStash rv.2 = bufferAttributeStash v ∧
            wireframeMesh rv.2 = wireframeMesh v ∧
            pointsMesh rv.2 = pointsMesh v ∧
            scalarField rv.2 = scalarField v ∧
            vectorField rv.2 = vectorField v) as Hshape.
  { intros rest Hrest. unfold bind, modify. cbn.
    specialize (Hrest (set_currMesh (λ _, None) v) I).
    destruct (rest _) as [[[]|e] v'];
      destruct Hrest as (? & ? & ? & ? & ? & ?); done. }
  apply Hshape. unfold on_scene. repeat slots_step.
Qed.

Lemma ghostOrClean_preserves preserveExisting :
  preserves (live_invariant (F:=F) (MeshT:=MeshT)) (ghostOrClean preserveExisting).
Proof.
  intros v Hv. unfold ghostOrClean, bind, gets.
  pose proof (respects_preserves _ _ _ frames_cleanMeshes_ghost v Hv) as Hclean.
  destruct preserveExisting, (currMesh v) as [oldMesh|]; try done.
  destruct (ghostCurrentMesh_slots oldMesh v) as (Hnone & _).
  destruct (ghostCurrentMesh oldMesh v) as [[[]|e] v'];
    by apply live_invariant_no_current.
Qed.

Lemma buildOrUpdateMesh_preserves attrRaw mat :
  preserves (live_invariant (F:=F) (MeshT:=MeshT)) (buildOrUpdateMesh attrRaw mat).
Proof.
  intros v Hv. unfold buildOrUpdateMesh, bind, gets.
  destruct (currMesh v) as [curr|] eqn:Hc.
  - destruct (updateMesh_spec curr attrRaw mat v Hv Hc) as (Hv' & _).
    by destruct (updateMesh curr attrRaw mat v) as [[[]|e] v'].
  - destruct (buildMesh_spec attrRaw mat v Hc) as (v' & -> & Hv' & _). done.
Qed.

Lemma showVectorField_preserves vertices idxs :
  preserves (live_invariant (F:=F) (MeshT:=MeshT)) (showVectorField vertices idxs).
Proof.
  intros v Hv. destruct (showVectorField_spec vertices idxs v Hv) as (Hsame & _).
  destruct (showVectorField vertices idxs v) as [[[]|e] v'];
    by eapply frame_stable.
Qed.

Lemma setGeometry_preserves vertices idxs normals preserveExisting updateModelMatrix
    textureMap scalarField0 vectorField0 :
  preserves (live_invariant (F:=F) (MeshT:=MeshT))
    (setGeometry vertices idxs normals preserveExisting updateModelMatrix
                 textureMap scalarField0 vectorField0).
Proof.
  unfold setGeometry, preserves.
  apply preserves_bind; [intros s Hs; exact Hs|intros ?].
  apply preserves_bind; [intros s Hs; exact Hs|intros ?].
  apply preserves_bind.
  { apply (respects_preserves live_invariant same_live).
    apply respects_when; [exact _|]. apply frames_setModelMatrix. }
  intros ?.
  apply preserves_bind.
  { apply (respects_preserves live_invariant same_live), frames_rawAttributes. }
  intros [attrRaw useVertexColors].
  apply preserves_bind; [apply ghostOrClean_preserves|intros ?].
  apply preserves_bind; [preserves_frames|intros mat].
  apply preserves_bind; [preserves_frames|intros flicker].
  apply preserves_bind; [preserves_frames|intros ?].
  apply preserves_bind; [apply buildOrUpdateMesh_preserves|intros ?].
  apply preserves_bind.
  { apply (respects_preserves live_invariant same_live).
    apply respects_bind; [exact _|apply respects_gets; exact _|intros ?].
    apply frames_repointOverlay. }
  intros ?.
  apply preserves_bind.
  { apply (respects_preserves live_invariant same_live).
    apply respects_bind; [exact _|apply respects_gets; exact _|intros ?].
    apply frames_repointOverlay. }
  intros ?.
  apply preserves_bind; [apply showVectorField_preserves|intros ?].
  preserves_frames.
Qed.
End SetGeometryInvariant.

(** ** Further properties: texture maps, replication, the material library *)

(** *** TextureMap *)

Section TextureMapFacts.
Context {F : Type} `{FloatOps F}.

Lemma normalize_length (uv uv1 : list (F * F)) :
  TextureMap.normalize uv = Ok uv1 → length uv1 = length uv.
Proof.
  unfold TextureMap.normalize. destruct uv as [|p ps]; [done|].
  cbn. intros [= <-]. cbn. by rewrite !length_map.
Qed.

Lemma image_wf_pad tex top right v :
  image_wf tex → image_wf (np_pad_top_right tex top right v).
Proof.
  intros [Hh Hw]. split; cbn.
  - rewrite length_app, length_replicate, length_map. lia.
  - apply Forall_app. split.
    + apply Forall_replicate. by rewrite length_replicate.
    + apply Forall_map. eapply List.Forall_impl; [|exact Hw].
      intros row Hrow. cbn in *. rewrite length_app, length_replicate. lia.
Qed.
End TextureMapFacts.

(** X1.  The constructor of [TextureMap] returns exactly when it is not
    asked to normalise an empty UV array and the image has a pixel row or
    column; normalising an empty UV array raises ValueError.  When it
    returns, there is one stored UV per input UV, and the padded image is a
    well-formed square array with the channels of the input. *)
Theorem TextureMap_init_returns_iff
    {F : Type} `{FloatOps F} (uv : list (F * F)) (tex : Image)
    (normalizeUV powerOfTwo : bool) (new_id : string) :
  ((∃ tm, TextureMap.__init__ uv tex normalizeUV powerOfTwo new_id = Ok tm)
   ↔ (normalizeUV = true → uv ≠ []) ∧ 0 < Nat.max (img_w tex) (img_h tex)) ∧
  (normalizeUV = true → uv = [] →
   TextureMap.__init__ uv tex normalizeUV powerOfTwo new_id = Raise ValueError) ∧
  (∀ tm, TextureMap.__init__ uv tex normalizeUV powerOfTwo new_id = Ok tm →
     length (TextureMap.uv tm) = length uv ∧
     img_h (tex_data (TextureMap.dataTex tm)) = img_w (tex_data (TextureMap.dataTex tm)) ∧
     img_c (tex_data (TextureMap.dataTex tm)) = img_c tex ∧
     (image_wf tex → image_wf (tex_data (TextureMap.dataTex tm)))).
Proof.
  pose proof (side_ge (img_h tex) (img_w tex) powerOfTwo) as [Hh Hw].
  assert (TextureMap.side (img_h tex) (img_w tex) powerOfTwo = 0
          ↔ Nat.max (img_w tex) (img_h tex) = 0) as Hzero.
  { unfold TextureMap.side, ceil_pow2. destruct powerOfTwo; [|done].
    case_decide as Hs; [done|]. split; [|done].
    intros Hpow. pose proof (Nat.pow_nonzero 2 (Nat.log2_up (Nat.max (img_w tex) (img_h tex)))).
    lia. }
  unfold TextureMap.__init__.
  split; [|split].
  - split.
    + intros [tm Hrun]. split.
      * intros -> ->. done.
      * destruct (if normalizeUV then _ else _) as [uv1|e]; [|done]. cbn in Hrun.
        case_decide; [done|]. case_decide as Hs; [done|]. lia.
    + intros [Huv Hpos].
      assert (∃ uv1, (if normalizeUV then TextureMap.normalize uv else Ok uv) = Ok uv1)
        as [uv1 ->].
      { destruct normalizeUV; [|by eexists].
        specialize (Huv eq_refl). destruct uv as [|p ps]; [done|]. cbn. by eexists. }
      cbn. rewrite decide_False by lia. rewrite decide_False by lia. by eexists.
  - intros -> ->. done.
  - intros tm Hrun.
    destruct (if normalizeUV then _ else _) as [uv1|e] eqn:Hnorm; [|done].
    cbn in Hrun. case_decide; [done|]. case_decide; [done|].
    injection Hrun as <-. cbn. split; [|split; [lia|split; [done|]]].
    + unfold TextureMap.rescale. rewrite length_map.
      destruct normalizeUV; [by apply normalize_length|by injection Hnorm as ->].
    + apply image_wf_pad.
Qed.

(** *** replicateAttributesPerTriCorner *)

Section ReplicateFacts.
Context {F : Type}.
Implicit Types (a : ndarray F) (idxs : list N) (attr : gmap string (ndarray F)).

Lemma np_take_len a a' idxs : np_take a idxs = Some a' → np_len a' = length idxs.
Proof.
  destruct a as [d|r]; cbn; unfold take_rows;
    destruct (mapM _ idxs) as [l|] eqn:Hl; cbn; intros [= <-]; cbn;
    symmetry; by eapply length_mapM.
Qed.

Lemma take_rows_seq {A} (l : list A) k n :
  k + n ≤ length l →
  take_rows l (map N.of_nat (seq k n)) = Some (take n (drop k l)).
Proof.
  revert k. induction n as [|n IH]; intros k Hk; cbn; [done|].
  unfold take_rows in *. cbn. rewrite Nat2N.id.
  destruct (lookup_lt_is_Some_2 l k) as [x Hx]; [lia|].
  rewrite Hx. cbn. rewrite IH by lia. cbn.
  rewrite (drop_S _ _ _ Hx). done.
Qed.

Lemma np_take_arange a n :
  np_len a = n → (N.of_nat n ≤ 2 ^ 32)%N →
  np_take a (map N.of_nat (seq 0 n)) = Some a.
Proof.
  intros Hlen _. destruct a as [d|r]; cbn in *;
    rewrite take_rows_seq by lia; cbn; rewrite drop_0, <- Hlen, firstn_all; done.
Qed.
End ReplicateFacts.

(** X2.  Without an ['index'] entry the call raises [KeyError('index')];
    with one, an index that is not a row of an attribute that is gathered
    (every attribute, except ['color'] when [perTriColor] is set) makes the
    call raise IndexError. *)
Theorem replicateAttributesPerTriCorner_raises
    {F : Type} (attr : gmap string (ndarray F)) (perTriColor : bool) :
  (attr !! "index" = None →
   replicateAttributesPerTriCorner attr perTriColor = Raise (KeyError "index")) ∧
  (∀ idxs key a i,
     attr !! "index" = Some (UIntArray idxs) →
     attr !! key = Some a →
     perTriColor = false ∨ key ≠ "color" →
     i ∈ idxs → np_len a ≤ N.to_nat i →
     replicateAttributesPerTriCorner attr perTriColor = Raise IndexError).
Proof.
  unfold replicateAttributesPerTriCorner. split.
  - by intros ->.
  - intros idxs key a i -> Ha Hkey Hi Hlen.
    rewrite decide_False; [done|].
    intros Hall. specialize (Hall key (replicate_entry perTriColor idxs key a)).
    rewrite map_lookup_imap, Ha in Hall. specialize (Hall eq_refl).
    unfold replicate_entry in Hall.
    assert (perTriColor && bool_decide (key = "color") = false) as Hb.
    { destruct Hkey as [->|Hne]; [done|].
      rewrite (bool_decide_eq_false_2 _ Hne). by destruct perTriColor. }
    rewrite Hb, (np_take_None a idxs i Hi Hlen) in Hall. by destruct Hall.
Qed.

(** X3.  With [perTriColor=False] every attribute, ['color'] too, is
    gathered by the old index: the result has the keys of the input, each
    entry has one row per index, row [j] being the row that index [j] names,
    and ['index'] is the identity. *)
Theorem replicateAttributesPerTriCorner_per_vertex_color
    {F : Type} (attr : gmap string (ndarray F)) (idxs : list N) :
  attr !! "index" = Some (UIntArray idxs) →
  (N.of_nat (length idxs) ≤ 2 ^ 32)%N →
  map_Forall (λ _ a, Forall (λ i, N.to_nat i < np_len a) idxs) attr →
  ∃ attr',
    replicateAttributesPerTriCorner attr false = Ok attr' ∧
    dom attr' = dom attr ∧
    attr' !! "index" = Some (UIntArray (map N.of_nat (seq 0 (length idxs)))) ∧
    ∀ key a, key ≠ "index" → attr !! key = Some a →
      ∃ a', attr' !! key = Some a' ∧ np_len a' = length idxs ∧
            ∀ j i, idxs !! j = Some i → np_item a' j = np_item a (N.to_nat i).
Proof.
  intros Hidx Hlen Hrange.
  destruct (replicate_succeeds attr false idxs Hidx) as [attr' Hrun].
  { intros key a Ha. unfold replicate_entry. cbn.
    destruct (np_take_spec a idxs (Hrange key a Ha)) as (a' & -> & _). by eexists. }
  destruct (replicate_lookup attr attr' false idxs Hidx Hrun) as [Hi Hother].
  exists attr'. split; [done|]. split; [by eapply replicate_dom|]. split.
  { rewrite Hi. f_equal. by apply np_arange_small. }
  intros key a Hk Ha. rewrite (Hother key Hk), Ha. cbn.
  unfold replicate_entry. cbn.
  destruct (np_take_spec a idxs (Hrange key a Ha)) as (a' & -> & Hl & Hget).
  by exists a'.
Qed.

Lemma replicateAttributesPerTriCorner_per_vertex_color_witness :
  ∃ attr',
    replicateAttributesPerTriCorner vertex_colored_attr false = Ok attr' ∧
    dom attr' = dom vertex_colored_attr ∧
    attr' !! "index" = Some (UIntArray (map N.of_nat (seq 0 6))) ∧
    ∀ key a, key ≠ "index" → vertex_colored_attr !! key = Some a →
      ∃ a', attr' !! key = Some a' ∧ np_len a' = 6 ∧
            ∀ j i, [0; 1; 2; 2; 1; 3]%N !! j = Some i →
                   np_item a' j = np_item a (N.to_nat i).
Proof.
  apply (replicateAttributesPerTriCorner_per_vertex_color vertex_colored_attr
           [0; 1; 2; 2; 1; 3]%N).
  - reflexivity.
  - vm_compute. discriminate.
  - apply (bool_decide_unpack _). vm_compute. exact I.
Defined.

(** X4.  Replication with [perTriColor=False] is idempotent: run on its
    own result it returns that result again. *)
Theorem replicateAttributesPerTriCorner_idempotent
    {F : Type} (attr attr' : gmap string (ndarray F)) (idxs : list N) :
  attr !! "index" = Some (UIntArray idxs) →
  (N.of_nat (length idxs) ≤ 2 ^ 32)%N →
  replicateAttributesPerTriCorner attr false = Ok attr' →
  replicateAttributesPerTriCorner attr' false = Ok attr'.
Proof.
  intros Hidx Hlen Hrun.
  destruct (replicate_lookup attr attr' false idxs Hidx Hrun) as [Hi Hother].
  rewrite np_arange_small in Hi by done.
  set (n := length idxs) in *. set (ident := map N.of_nat (seq 0 n)) in *.
  assert (∀ key a', attr' !! key = Some a' → np_take a' ident = Some a') as Hfix.
  { intros key a' Ha'. apply np_take_arange; [|done].
    destruct (decide (key = "index")) as [->|Hne].
    - rewrite Hi in Ha'. injection Ha' as <-. cbn.
      unfold ident. by rewrite length_map, length_seq.
    - rewrite (Hother key Hne) in Ha'.
      destruct (attr !! key) as [a|]; [|done]. cbn in Ha'.
      unfold replicate_entry in Ha'. cbn in Ha'. by eapply np_take_len. }
  unfold replicateAttributesPerTriCorner. rewrite Hi.
  rewrite decide_True.
  - f_equal. apply map_eq. intros key.
    destruct (decide (key = "index")) as [->|Hne].
    + rewrite lookup_insert_eq, Hi. unfold ident.
      rewrite length_map, length_seq. f_equal. by apply np_arange_small.
    + rewrite lookup_insert_ne by done.
      rewrite lookup_omap, map_lookup_imap.
      destruct (attr' !! key) as [a'|] eqn:Ha'; [|done]. cbn.
      unfold replicate_entry. cbn. by apply (Hfix key).
  - intros key o. rewrite map_lookup_imap.
    destruct (attr' !! key) as [a'|] eqn:Ha'; [|done]. cbn. intros [= <-].
    unfold replicate_entry. cbn. rewrite (Hfix key a' Ha'). by eexists.
Qed.

Lemma replicateAttributesPerTriCorner_idempotent_witness :
  ∃ attr',
    replicateAttributesPerTriCorner vertex_colored_attr false = Ok attr' ∧
    replicateAttributesPerTriCorner attr' false = Ok attr'.
Proof.
  destruct (replicateAttributesPerTriCorner vertex_colored_attr false)
    as [attr'|e] eqn:Hrun; [|vm_compute in Hrun; discriminate].
  exists attr'. split; [reflexivity|].
  apply (replicateAttributesPerTriCorner_idempotent vertex_colored_attr attr'
           [0; 1; 2; 2; 1; 3]%N).
  - reflexivity.
  - vm_compute. discriminate.
  - exact Hrun.
Defined.

(** *** MaterialLibrary *)

Section MaterialLibraryMore.
Context {F : Type} `{FloatOps F}.
Implicit Types (lib : MaterialLibrary F) (h : Store F) (tex : option DataTexture).

(** The descriptors of a material that [material] creates are the ones it
    was asked for (a line material keeps no texture). *)
Lemma extract_new_material lib u tex solidColor :
  commonArgs lib = commonArgs (MaterialLibrary_init (F:=F) (lib_isLineMesh lib)) →
  (lib_isLineMesh lib = true → tex = None) →
  _extractMaterialDescriptors
    (mkMaterial (if lib_isLineMesh lib then LineBasicMaterial else MeshLambertMaterial)
                (_colorTexArgs u tex solidColor ∪ commonArgs lib))
  = (u, tex).
Proof.
  intros -> Hline. unfold _extractMaterialDescriptors, _colorTexArgs.
  destruct (lib_isLineMesh lib).
  - rewrite (Hline eq_refl). destruct u; by vm_compute.
  - destruct u, tex as [t|]; by vm_compute.
Qed.

Lemma lib_wf_run_lib_call (c : LibCall) (s : LibState F) :
  lib_wf s → lib_wf (run_lib_call c s).2.
Proof.
  intros Hs. destruct c as [u tex|orig|mat]; cbn; unfold bind.
  - destruct (material u tex s) as [[m|e] s'] eqn:Hrun; cbn.
    + by eapply lib_wf_material.
    + unfold material in Hrun. destruct s as [lib h].
      destruct (materials lib !! _); [done|].
      by destruct (lib_isLineMesh lib).
  - destruct (ghostMaterial orig s) as [[m|e] s'] eqn:Hrun; cbn.
    + by eapply lib_wf_ghostMaterial.
    + unfold ghostMaterial in Hrun. destruct s as [lib h].
      destruct (materialObjs h !! orig) as [o|]; [|by injection Hrun as _ <-].
      destruct (materials lib !! _); [done|].
      by destruct (_extractMaterialDescriptors o).
  - destruct (freeMaterial mat s) as [r s'] eqn:Hrun. by eapply lib_wf_freeMaterial.
Qed.

Lemma ghostMaterial_cached lib h orig mat ghost :
  materialObjs h !! orig = Some mat →
  materials lib !! _mangledNameForMaterial true mat = Some ghost →
  ghostMaterial orig (lib, h) = (Ok ghost, (lib, h)).
Proof. intros Hobj Hc. unfold ghostMaterial. by rewrite Hobj, Hc. Qed.

Lemma closed_foldl_close (l : list (string * oid)) h :
  closed (foldl (λ h' km, close (MaterialRef km.2) h') h l)
  = reverse ((λ km, MaterialRef km.2) <$> l) ++ closed h.
Proof.
  revert h. induction l as [|km l IH]; intros h; [done|].
  rewrite fmap_cons, reverse_cons, <- app_assoc. cbn [foldl]. by rewrite IH.
Qed.

Lemma tables_foldl_close (l : list (string * oid)) h :
  let h' := foldl (λ h' km, close (MaterialRef km.2) h') h l in
  buffers h' = buffers h ∧ geometries h' = geometries h ∧
  objects3d h' = objects3d h ∧ materialObjs h' = materialObjs h ∧
  next_id h' = next_id h.
Proof.
  revert h. induction l as [|km l IH]; intros h; cbn; [done|].
  apply (IH (close (MaterialRef km.2) h)).
Qed.
End MaterialLibraryMore.

(** X5.  The key of a descriptor determines its vertex-colour flag and
    the identity of its texture, and for a descriptor without texture also
    whether it is a ghost. *)
Theorem mangledMaterialName_determines
    (g1 g2 u1 u2 : bool) (t1 t2 : option DataTexture) :
  _mangledMaterialName g1 u1 t1 = _mangledMaterialName g2 u2 t2 →
  u1 = u2 ∧ model_id <$> t1 = model_id <$> t2 ∧ (t1 = None → g1 = g2).
Proof.
  destruct t1 as [t1|], t2 as [t2|], g1, g2, u1, u2; cbn; intros Heq;
    try discriminate; simplify_eq; repeat split; congruence.
Qed.

Lemma mangledMaterialName_determines_witness :
  false = false ∧
  model_id <$> Some tex_a = model_id <$> Some tex_a ∧
  (Some tex_a = None → true = false).
Proof.
  apply (mangledMaterialName_determines true false false false
           (Some tex_a) (Some tex_a)).
  reflexivity.
Defined.



(** X7.  The ghost of a material on which no texture was set, whose
    [vertexColors] attribute is ['VertexColors'] exactly when [u] holds:
    when none is cached, [ghostMaterial] creates a new material that is
    transparent with opacity 0.25, has no texture and the vertex colours of
    the original, caches it under the ghost key of [u] and leaves every
    other entry alone; a second call returns the same material and changes
    nothing. *)
Theorem ghostMaterial_untextured
    {F : Type} `{FloatOps F} (lib : MaterialLibrary F) (h : Store F)
    (orig : oid) (mat : Material F) (u : bool) :
  materialObjs h !! orig = Some mat →
  orig < next_id h →
  mat_attrs mat !! "map" = None →
  (mat_attrs mat !! "vertexColors" = Some (PyStr "VertexColors") ↔ u = true) →
  commonArgs lib = commonArgs (MaterialLibrary_init (F:=F) (lib_isLineMesh lib)) →
  materials lib !! _mangledMaterialName true u None = None →
  ∃ ghost lib1 h1 gm,
    ghostMaterial orig (lib, h) = (Ok ghost, (lib1, h1)) ∧
    ghost = next_id h ∧
    materials lib1 = <[_mangledMaterialName true u None := ghost]> (materials lib) ∧
    materialObjs h1 !! ghost = Some gm ∧
    mat_attrs gm !! "transparent" = Some (PyBool true) ∧
    mat_attrs gm !! "opacity" = Some (PyFloat quarter) ∧
    mat_attrs gm !! "map" = None ∧
    (mat_attrs gm !! "vertexColors" = Some (PyStr "VertexColors") ↔ u = true) ∧
    ghostMaterial orig (lib1, h1) = (Ok ghost, (lib1, h1)).
Proof.
  intros Hobj Hlt Hmap Hvc Hargs Hnew.
  pose proof (extractMaterialDescriptors_untextured mat u Hmap Hvc) as Hd.
  set (key := _mangledMaterialName true u None) in *.
  set (gm := mkMaterial
               (if lib_isLineMesh lib then LineBasicMaterial else MeshLambertMaterial)
               (_colorTexArgs u None "red"
                ∪ <["transparent" := PyBool true]> (<["opacity" := PyFloat quarter]> ∅)
                ∪ commonArgs lib)).
  exists (next_id h), (set_materials <[key := next_id h]> lib),
         (bump_next_id (set_materialObjs <[next_id h := gm]> h)), gm.
  split.
  { unfold ghostMaterial. rewrite Hobj. unfold _mangledNameForMaterial.
    rewrite Hd. fold key. by rewrite Hnew. }
  split; [done|]. split; [done|].
  split; [apply lookup_insert_eq|].
  split; [unfold gm, _colorTexArgs; destruct u; by simplify_map_eq|].
  split; [unfold gm, _colorTexArgs; destruct u; by simplify_map_eq|].
  split.
  { unfold gm, _colorTexArgs. rewrite Hargs.
    destruct u, (lib_isLineMesh lib); by vm_compute. }
  split.
  { unfold gm, _colorTexArgs. rewrite Hargs.
    destruct u, (lib_isLineMesh lib); vm_compute; split; congruence. }
  apply ghostMaterial_cached with mat.
  - cbn. by rewrite lookup_insert_ne by lia.
  - unfold _mangledNameForMaterial. rewrite Hd. fold key. apply lookup_insert_eq.
Qed.

Lemma ghostMaterial_untextured_witness :
  ∃ ghost lib1 h1 gm,
    ghostMaterial 0 (lib_solid.1, lib_solid.2) = (Ok ghost, (lib1, h1)) ∧
    ghost = next_id lib_solid.2 ∧
    materials lib1 = <["ghost_vcFalse" := ghost]> (materials lib_solid.1) ∧
    materialObjs h1 !! ghost = Some gm ∧
    mat_attrs gm !! "transparent" = Some (PyBool true) ∧
    mat_attrs gm !! "opacity" = Some (PyFloat quarter) ∧
    mat_attrs gm !! "map" = None ∧
    (mat_attrs gm !! "vertexColors" = Some (PyStr "VertexColors") ↔ false = true) ∧
    ghostMaterial 0 (lib1, h1) = (Ok ghost, (lib1, h1)).
Proof.
  apply (ghostMaterial_untextured lib_solid.1 lib_solid.2 0 solid_object false).
  - vm_compute. reflexivity.
  - vm_compute. lia.
  - vm_compute. reflexivity.
  - split; [vm_compute; discriminate|discriminate].
  - reflexivity.
  - vm_compute. reflexivity.
Defined.

(** X8.  The ghost of a material with a texture: for a material that
    [material] created for a textured descriptor, [ghostMaterial] returns
    that same material and creates nothing, so the ghost is not
    translucent. *)
Theorem ghostMaterial_of_textured_material
    {F : Type} `{FloatOps F} (lib : MaterialLibrary F) (h : Store F)
    (useVertexColors : bool) (t : DataTexture) :
  lib_isLineMesh lib = false →
  commonArgs lib = commonArgs (MaterialLibrary_init (F:=F) false) →
  materials lib !! _mangledMaterialName false useVertexColors (Some t) = None →
  ∃ m s1,
    material useVertexColors (Some t) (lib, h) = (Ok m, s1) ∧
    ghostMaterial m s1 = (Ok m, s1).
Proof.
  intros Hline Hargs Hnew.
  pose proof (extract_new_material lib useVertexColors (Some t) "lightgray") as Hd.
  rewrite Hline in Hd. specialize (Hd Hargs (λ Hf, False_ind _ (diff_false_true Hf))).
  unfold material. rewrite Hnew, Hline.
  eexists _, _. split; [reflexivity|].
  eapply ghostMaterial_textured_returns_solid.
  - apply lookup_insert_eq.
  - exact Hd.
  - apply lookup_insert_eq.
Qed.

Lemma ghostMaterial_of_textured_material_witness :
  ∃ m s1,
    material false (Some tex_a) (MaterialLibrary_init false, empty_store)
    = (Ok m, s1) ∧
    ghostMaterial m s1 = (Ok m, s1).
Proof.
  apply (ghostMaterial_of_textured_material (MaterialLibrary_init false)
           empty_store false tex_a).
  - reflexivity.
  - reflexivity.
  - reflexivity.
Defined.

(** X9.  Destroying the library closes every cached material exactly
    once, closes nothing else, and leaves the cache and the objects of the
    store as they are. *)
Theorem MaterialLibrary_del_closes_each_material_once
    {F : Type} `{FloatOps F} (lib : MaterialLibrary F) (h : Store F) :
  lib_wf (lib, h) →
  ∃ l h',
    MaterialLibrary_del (lib, h) = (Ok tt, (lib, h')) ∧
    closed h' = l ++ closed h ∧
    NoDup l ∧
    (∀ r, r ∈ l ↔ ∃ name m, materials lib !! name = Some m ∧ r = MaterialRef m) ∧
    materialObjs h' = materialObjs h ∧
    next_id h' = next_id h.
Proof.
  intros [_ Hinj]. unfold MaterialLibrary_del.
  eexists _, _. split; [reflexivity|].
  split; [apply closed_foldl_close|].
  split; [|split].
  - rewrite reverse_Permutation. apply NoDup_fmap_2_strong; [|apply NoDup_map_to_list].
    intros [n1 m1] [n2 m2] H1%elem_of_map_to_list H2%elem_of_map_to_list [= Hm].
    cbn in Hm. subst m2. f_equal. by eapply Hinj.
  - intros r. rewrite elem_of_reverse, list_elem_of_fmap. split.
    + intros [[name m] [-> Hin%elem_of_map_to_list]]. by exists name, m.
    + intros (name & m & Hm & ->). exists (name, m).
      split; [done|]. by apply elem_of_map_to_list.
  - pose proof (tables_foldl_close (map_to_list (materials lib)) h) as Ht.
    cbn in Ht. by destruct Ht as (_ & _ & _ & ? & ?).
Qed.

Lemma MaterialLibrary_del_closes_each_material_once_witness :
  ∃ l h',
    MaterialLibrary_del (lib_solid_and_ghost.1, lib_solid_and_ghost.2)
    = (Ok tt, (lib_solid_and_ghost.1, h')) ∧
    closed h' = l ++ closed lib_solid_and_ghost.2 ∧
    NoDup l ∧
    (∀ r, r ∈ l ↔ ∃ name m, materials lib_solid_and_ghost.1 !! name = Some m
                            ∧ r = MaterialRef m) ∧
    materialObjs h' = materialObjs lib_solid_and_ghost.2 ∧
    next_id h' = next_id lib_solid_and_ghost.2.
Proof.
  apply (MaterialLibrary_del_closes_each_material_once
           lib_solid_and_ghost.1 lib_solid_and_ghost.2).
  apply (lib_wf_ghostMaterial (material false None fresh_lib).2
           lib_solid_and_ghost 0 1); [|reflexivity].
  apply (lib_wf_material fresh_lib _ false None 0); [|reflexivity].
  apply lib_wf_init.
Defined.

(** X10.  After every call of a sequence of [material], [ghostMaterial]
    and [freeMaterial] calls on a new library, returned or raised, every
    cached material has been allocated and no material is cached under two
    keys. *)
Theorem lib_wf_after_each_call
    {F : Type} `{FloatOps F} (isLineMesh : bool) (h : Store F)
    (calls : list LibCall) :
  Forall lib_wf (lib_states_after calls (MaterialLibrary_init (F:=F) isLineMesh, h)).
Proof.
  assert (∀ s : LibState F, lib_wf s → Forall lib_wf (lib_states_after calls s))
    as Hgen.
  { induction calls as [|c calls IH]; intros s Hs; cbn; [done|].
    pose proof (lib_wf_run_lib_call c s Hs) as Hs'.
    constructor; [done|by apply IH]. }
  apply Hgen, lib_wf_init.
Qed.

(** ** Further properties: the public methods of the viewer *)

Section PublicMethods.
Context {F : Type} `{FloatOps F} {MeshT : Type} `{MeshAdapter F MeshT}.
Implicit Types (v : ViewerBase F MeshT) (h : Store F).

#[local] Arguments liveAttributes : simpl never.
#[local] Arguments currGeometry : simpl never.
#[local] Arguments updateUniforms : simpl never.

Lemma frames_currentGeometry : frames (F:=F) (MeshT:=MeshT) currentGeometry.
Proof. unfold frames, currentGeometry. repeat frames_step. Qed.

Lemma frames_showWireframe shouldShow :
  frames (F:=F) (MeshT:=MeshT) (showWireframe shouldShow).
Proof.
  unfold frames, showWireframe, wireframeMaterial, allocateWireframeMaterial.
  repeat first [apply frames_currentGeometry | frames_step].
Qed.

Lemma frames_showPoints shouldShow size :
  frames (F:=F) (MeshT:=MeshT) (showPoints shouldShow size).
Proof.
  unfold frames, showPoints, pointsMaterial, allocatePointsMaterial.
  repeat first [apply frames_currentGeometry | frames_step].
Qed.

Lemma frames_setCameraParams params :
  frames (F:=F) (MeshT:=MeshT) (setCameraParams params).
Proof.
  unfold frames, setCameraParams. destruct params as [[position up] target].
  repeat frames_step.
Qed.

Lemma frames_resize width height :
  frames (F:=F) (MeshT:=MeshT) (resize width height).
Proof. unfold frames, resize. repeat frames_step. Qed.

Lemma frames_set_arrowSize value :
  frames (F:=F) (MeshT:=MeshT) (set_arrowSize value).
Proof.
  unfold frames, set_arrowSize, arrowSize.
  apply respects_bind; [exact _| |intros ?].
  { apply respects_modify. intros v _. by repeat split. }
  apply respects_bind; [exact _|apply respects_gets; exact _|intros [m|]].
  - apply respects_bind; [exact _|apply respects_gets; exact _|intros size].
    apply frames_on_store. apply respects_modify. intros h _.
    apply updateUniforms_extends.
  - apply respects_ret; exact _.
Qed.

Lemma update_preserves preserveExisting mesh0 updateModelMatrix textureMap
    scalarField0 vectorField0 :
  preserves (live_invariant (F:=F) (MeshT:=MeshT))
    (update preserveExisting mesh0 updateModelMatrix textureMap
            scalarField0 vectorField0).
Proof.
  unfold update. apply preserves_bind.
  { destruct mesh0 as [m|]; intros s Hs; exact Hs. }
  intros ?. apply preserves_bind; [intros s Hs; exact Hs|intros m].
  destruct (visualizationGeometry m) as [[vertices idxs] normals].
  apply setGeometry_preserves.
Qed.

Lemma run_viewer_call_preserves (c : ViewerCall F MeshT) :
  preserves (live_invariant (F:=F) (MeshT:=MeshT)) (run_viewer_call c).
Proof.
  destruct c; cbn [run_viewer_call].
  - apply update_preserves.
  - apply setGeometry_preserves.
  - apply (respects_preserves live_invariant same_live), frames_set_arrowSize.
  - apply (respects_preserves live_invariant same_live), frames_showWireframe.
  - apply (respects_preserves live_invariant same_live), frames_showPoints.
  - intros s Hs; exact Hs.
  - apply (respects_preserves live_invariant same_live), frames_setCameraParams.
  - apply (respects_preserves live_invariant same_live), frames_resize.
Qed.

(** The invariant holds after a call, returned or raised, and when the
    constructor is done. *)
Lemma run_call_preserves (c : SetGeometryCall F) v :
  live_invariant v → live_invariant (run_call c v).2.
Proof.
  intros Hv. pose proof (setGeometry_preserves (call_vertices c) (call_idxs c)
    (call_normals c) (call_preserveExisting c) (call_updateModelMatrix c)
    (call_textureMap c) (call_scalarField c) (call_vectorField c) v Hv) as Hrun.
  unfold run_call. by destruct (setGeometry _ _ _ _ _ _ _ _ v) as [[[]|e] v'].
Qed.

Lemma ViewerBase_init_preserves isLineMesh cls (obj : MeshT) width height
    textureMap scalarField0 vectorField0 h :
  live_invariant (ViewerBase_init isLineMesh cls obj width height textureMap
                                  scalarField0 vectorField0 h).2.
Proof.
  unfold ViewerBase_init.
  pose proof (update_preserves true (Some obj) true textureMap scalarField0
                vectorField0 (initial_fields isLineMesh cls obj width height h))
    as Hrun.
  destruct (update _ _ _ _ _ _ _) as [[[]|e] v']; apply Hrun;
    by apply live_invariant_no_current.
Qed.
End PublicMethods.

Lemma live_invariant_square_viewer : live_invariant square_viewer.
Proof.
  exact (ViewerBase_init_preserves (Some false) (Some Mesh) square 512 512
           None None None empty_store).
Qed.

(** X11.  From a viewer state that satisfies the live invariant, as the
    constructor's does, the state after every call of a sequence of calls of
    the public methods ([update], [setGeometry], the [arrowSize] setter,
    [showWireframe], [showPoints], [getCameraParams], [setCameraParams],
    [resize]), returned or raised, has no stashable key both in the
    attributes of the current mesh's geometry and in the stash. *)
Theorem stash_live_exclusive_after_each_method
    {F : Type} `{FloatOps F} {MeshT : Type} `{MeshAdapter F MeshT}
    (v : ViewerBase F MeshT) (calls : list (ViewerCall F MeshT)) :
  live_invariant v →
  Forall stash_live_exclusive (viewer_states_after calls v).
Proof.
  revert v. induction calls as [|c calls IH]; intros v Hv; cbn; [done|].
  assert (live_invariant (run_viewer_call c v).2) as Hv'.
  { pose proof (run_viewer_call_preserves c v Hv) as Hrun.
    by destruct (run_viewer_call c v) as [[[]|e] v']. }
  constructor; [apply Hv'|by apply IH].
Qed.

Lemma stash_live_exclusive_after_each_method_witness :
  Forall stash_live_exclusive
    (viewer_states_after
       [CallUpdate true None true None None None;
        CallShowWireframe true;
        CallSetGeometry scalar_on;
        CallShowPoints true 3;
        CallSetArrowSize 10%float;
        CallUpdate false None false None None None;
        CallResize 640 480;
        CallShowWireframe false]
       (initial_fields (Some false) (Some Mesh) square 512 512 empty_store)).
Proof.
  apply stash_live_exclusive_after_each_method.
  apply live_invariant_no_current. reflexivity.
Defined.

(** *** Overlays *)

(** X12.  [showWireframe(True)] on a viewer without wireframe mesh:
    without a current mesh it raises AttributeError and changes nothing;
    with one it creates a [Mesh] that shares the geometry of the current
    mesh and has the cached wireframe material (allocated on first use),
    shows it in the mesh group, and copies no geometry and no buffer.  A
    second call changes nothing. *)
Theorem showWireframe_first_time
    {F : Type} `{FloatOps F} {MeshT : Type} `{MeshAdapter F MeshT}
    (v : ViewerBase F MeshT) :
  wireframeMesh v = None →
  (currMesh v = None → showWireframe true v = (Raise AttributeError, v)) ∧
  (∀ m obj,
     currMesh v = Some m → objects3d (store v) !! m = Some obj →
     ∃ v' w wobj mat,
       showWireframe true v = (Ok tt, v') ∧
       wireframeMesh v' = Some w ∧
       w ∈ meshes v' ∧
       shouldShowWireframe v' = true ∧
       objects3d (store v') !! w = Some wobj ∧
       obj_class wobj = Mesh ∧
       geometry wobj = geometry obj ∧
       obj_material wobj = mat ∧
       cachedWireframeMaterial v' = Some mat ∧
       (∀ mat0, cachedWireframeMaterial v = Some mat0 → mat = mat0) ∧
       currMesh v' = Some m ∧
       geometries (store v') = geometries (store v) ∧
       buffers (store v') = buffers (store v) ∧
       showWireframe true v' = (Ok tt, v')).
Proof.
  intros Hw. split.
  - intros Hc.
    unfold showWireframe, currentGeometry, bind, gets, raise. rewrite Hw, Hc.
    by destruct v.
  - intros m obj Hc Hobj.
    unfold showWireframe, currentGeometry, wireframeMaterial,
      allocateWireframeMaterial, bind, gets, modify, ret, when, on_store,
      get_object, alloc.
    rewrite Hw, Hc. cbn. rewrite Hobj. cbn.
    destruct (cachedWireframeMaterial v) as [mat0|] eqn:Hm; cbn.
    + destruct (bool_decide (next_id (store v) ∈ meshes v)) eqn:Hin; cbn.
      * eexists _, _, _, _. split; [reflexivity|]. cbn.
        split; [done|]. split; [exact (bool_decide_eq_true_1 _ Hin)|].
        split; [done|]. split; [apply lookup_insert_eq|].
        split; [done|]. split; [done|]. split; [done|]. split; [done|].
        split; [by intros ? [= <-]|]. split; [done|]. split; [done|].
        split; [done|]. by rewrite Hin.
      * eexists _, _, _, _. split; [reflexivity|]. cbn.
        split; [done|]. split; [apply elem_of_app; right; by left|].
        split; [done|]. split; [apply lookup_insert_eq|].
        split; [done|]. split; [done|]. split; [done|]. split; [done|].
        split; [by intros ? [= <-]|]. split; [done|]. split; [done|].
        split; [done|]. rewrite bool_decide_eq_true_2; [done|].
        apply elem_of_app; right; by left.
    + destruct (bool_decide (S (next_id (store v)) ∈ meshes v)) eqn:Hin; cbn.
      * eexists _, _, _, _. split; [reflexivity|]. cbn.
        split; [done|]. split; [exact (bool_decide_eq_true_1 _ Hin)|].
        split; [done|]. split; [apply lookup_insert_eq|].
        split; [done|]. split; [done|]. split; [done|]. split; [done|].
        split; [done|]. split; [done|]. split; [done|].
        split; [done|]. by rewrite Hin.
      * eexists _, _, _, _. split; [reflexivity|]. cbn.
        split; [done|]. split; [apply elem_of_app; right; by left|].
        split; [done|]. split; [apply lookup_insert_eq|].
        split; [done|]. split; [done|]. split; [done|]. split; [done|].
        split; [done|]. split; [done|]. split; [done|].
        split; [done|]. rewrite bool_decide_eq_true_2; [done|].
        apply elem_of_app; right; by left.
Qed.

Lemma showWireframe_first_time_witness :
  (currMesh square_viewer = None →
   showWireframe true square_viewer = (Raise AttributeError, square_viewer)) ∧
  (∀ m obj,
     currMesh square_viewer = Some m →
     objects3d (store square_viewer) !! m = Some obj →
     ∃ v' w wobj mat,
       showWireframe true square_viewer = (Ok tt, v') ∧
       wireframeMesh v' = Some w ∧
       w ∈ meshes v' ∧
       shouldShowWireframe v' = true ∧
       objects3d (store v') !! w = Some wobj ∧
       obj_class wobj = Mesh ∧
       geometry wobj = geometry obj ∧
       obj_material wobj = mat ∧
       cachedWireframeMaterial v' = Some mat ∧
       (∀ mat0, cachedWireframeMaterial square_viewer = Some mat0 → mat = mat0) ∧
       currMesh v' = Some m ∧
       geometries (store v') = geometries (store square_viewer) ∧
       buffers (store v') = buffers (store square_viewer) ∧
       showWireframe true v' = (Ok tt, v')).
Proof.
  apply (showWireframe_first_time square_viewer).
  vm_compute. reflexivity.
Defined.

(** X13.  Hiding the wireframe removes its mesh from the mesh group and
    nothing else, keeps the mesh object and leaves the store alone; showing
    it again puts the same mesh back without creating anything. *)
Theorem showWireframe_hide_then_show
    {F : Type} `{FloatOps F} {MeshT : Type} `{MeshAdapter F MeshT}
    (v : ViewerBase F MeshT) (w : oid) :
  wireframeMesh v = Some w →
  ∃ v1 v2,
    showWireframe false v = (Ok tt, v1) ∧
    (w ∉ meshes v1) ∧
    (∀ x, x ≠ w → (x ∈ meshes v1 ↔ x ∈ meshes v)) ∧
    wireframeMesh v1 = Some w ∧
    shouldShowWireframe v1 = false ∧
    store v1 = store v ∧
    showWireframe true v1 = (Ok tt, v2) ∧
    w ∈ meshes v2 ∧
    wireframeMesh v2 = Some w ∧
    store v2 = store v.
Proof.
  intros Hw.
  unfold showWireframe, bind, gets, modify, ret, when. rewrite Hw. cbn.
  assert (w ∉ group_remove w (meshes v)) as Hout.
  { unfold group_remove. rewrite list_elem_of_filter. intros [Hne _]. by apply Hne. }
  assert (∀ x, x ≠ w → (x ∈ group_remove w (meshes v) ↔ x ∈ meshes v)) as Hrest.
  { intros x Hx. unfold group_remove. rewrite list_elem_of_filter.
    split; [by intros [_ ?]|by intros ?]. }
  destruct (bool_decide (w ∈ meshes v)) eqn:Hin; cbn.
  - eexists _, _. split; [reflexivity|]. cbn.
    rewrite Hw. cbn. rewrite (bool_decide_eq_false_2 _ Hout). cbn.
    split; [done|]. split; [done|]. split; [done|]. split; [done|].
    split; [done|]. split; [reflexivity|]. cbn.
    split; [apply elem_of_app; right; by left|]. done.
  - eexists _, _. split; [reflexivity|]. cbn.
    rewrite Hw. cbn. rewrite Hin. cbn.
    split; [exact (bool_decide_eq_false_1 _ Hin)|]. split; [done|].
    split; [done|]. split; [done|].
    split; [done|]. split; [reflexivity|]. cbn.
    split; [apply elem_of_app; right; by left|]. done.
Qed.


Lemma showWireframe_hide_then_show_witness :
  ∃ v1 v2,
    showWireframe false square_viewer_wireframe = (Ok tt, v1) ∧
    (7 ∉ meshes v1) ∧
    (∀ x, x ≠ 7 → (x ∈ meshes v1 ↔ x ∈ meshes square_viewer_wireframe)) ∧
    wireframeMesh v1 = Some 7 ∧
    shouldShowWireframe v1 = false ∧
    store v1 = store square_viewer_wireframe ∧
    showWireframe true v1 = (Ok tt, v2) ∧
    7 ∈ meshes v2 ∧
    wireframeMesh v2 = Some 7 ∧
    store v2 = store square_viewer_wireframe.
Proof.
  apply (showWireframe_hide_then_show square_viewer_wireframe 7).
  vm_compute. reflexivity.
Defined.

(** X14.  [showPoints(True, size)] on a viewer without points mesh:
    without a current mesh it raises AttributeError and changes nothing;
    with one it creates a [Points] object that shares the geometry of the
    current mesh and has the cached points material, shows it in the mesh
    group, and sets the size of that material to [size]. *)
Theorem showPoints_first_time
    {F : Type} `{FloatOps F} {MeshT : Type} `{MeshAdapter F MeshT}
    (v : ViewerBase F MeshT) (size : Z) :
  pointsMesh v = None →
  (∀ mat0, cachedPointsMaterial v = Some mat0 →
     is_Some (materialObjs (store v) !! mat0)) →
  (currMesh v = None → showPoints true size v = (Raise AttributeError, v)) ∧
  (∀ m obj,
     currMesh v = Some m → objects3d (store v) !! m = Some obj →
     ∃ v' p pobj mat pm,
       showPoints true size v = (Ok tt, v') ∧
       pointsMesh v' = Some p ∧
       p ∈ meshes v' ∧
       objects3d (store v') !! p = Some pobj ∧
       obj_class pobj = Points ∧
       geometry pobj = geometry obj ∧
       obj_material pobj = mat ∧
       cachedPointsMaterial v' = Some mat ∧
       (∀ mat0, cachedPointsMaterial v = Some mat0 → mat = mat0) ∧
       materialObjs (store v') !! mat = Some pm ∧
       mat_attrs pm !! "size" = Some (PyInt size) ∧
       currMesh v' = Some m ∧
       geometries (store v') = geometries (store v) ∧
       buffers (store v') = buffers (store v)).
Proof.
  intros Hp Hcached. split.
  - intros Hc.
    unfold showPoints, currentGeometry, bind, gets, raise. rewrite Hp, Hc.
    by destruct v.
  - intros m obj Hc Hobj.
    unfold showPoints, currentGeometry, pointsMaterial,
      allocatePointsMaterial, bind, gets, modify, ret, when, on_store,
      get_object, alloc.
    rewrite Hp, Hc. cbn. rewrite Hobj. cbn.
    destruct (cachedPointsMaterial v) as [mat0|] eqn:Hm; cbn.
    + destruct (Hcached mat0 eq_refl) as [pm0 Hpm0].
      destruct (bool_decide (next_id (store v) ∈ meshes v)) eqn:Hin; cbn;
        rewrite Hm; cbn.
      * eexists _, _, _, _, _. split; [reflexivity|]. cbn.
        split; [done|]. split; [exact (bool_decide_eq_true_1 _ Hin)|].
        split; [apply lookup_insert_eq|].
        split; [done|]. split; [done|]. split; [done|]. split; [done|].
        split; [by intros ? [= <-]|].
        split; [by rewrite lookup_alter_eq, Hpm0|]. cbn.
        split; [apply lookup_insert_eq|]. done.
      * eexists _, _, _, _, _. split; [reflexivity|]. cbn.
        split; [done|]. split; [apply elem_of_app; right; by left|].
        split; [apply lookup_insert_eq|].
        split; [done|]. split; [done|]. split; [done|]. split; [done|].
        split; [by intros ? [= <-]|].
        split; [by rewrite lookup_alter_eq, Hpm0|]. cbn.
        split; [apply lookup_insert_eq|]. done.
    + destruct (bool_decide (S (next_id (store v)) ∈ meshes v)) eqn:Hin; cbn.
      * eexists _, _, _, _, _. split; [reflexivity|]. cbn.
        split; [done|]. split; [exact (bool_decide_eq_true_1 _ Hin)|].
        split; [apply lookup_insert_eq|].
        split; [done|]. split; [done|]. split; [done|]. split; [done|].
        split; [done|].
        split; [by rewrite lookup_alter_eq, lookup_insert_eq|]. cbn.
        split; [apply lookup_insert_eq|]. done.
      * eexists _, _, _, _, _. split; [reflexivity|]. cbn.
        split; [done|]. split; [apply elem_of_app; right; by left|].
        split; [apply lookup_insert_eq|].
        split; [done|]. split; [done|]. split; [done|]. split; [done|].
        split; [done|].
        split; [by rewrite lookup_alter_eq, lookup_insert_eq|]. cbn.
        split; [apply lookup_insert_eq|]. done.
Qed.

Lemma showPoints_first_time_witness :
  (currMesh square_viewer = None →
   showPoints true 7 square_viewer = (Raise AttributeError, square_viewer)) ∧
  (∀ m obj,
     currMesh square_viewer = Some m →
     objects3d (store square_viewer) !! m = Some obj →
     ∃ v' p pobj mat pm,
       showPoints true 7 square_viewer = (Ok tt, v') ∧
       pointsMesh v' = Some p ∧
       p ∈ meshes v' ∧
       objects3d (store v') !! p = Some pobj ∧
       obj_class pobj = Points ∧
       geometry pobj = geometry obj ∧
       obj_material pobj = mat ∧
       cachedPointsMaterial v' = Some mat ∧
       (∀ mat0, cachedPointsMaterial square_viewer = Some mat0 → mat = mat0) ∧
       materialObjs (store v') !! mat = Some pm ∧
       mat_attrs pm !! "size" = Some (PyInt 7) ∧
       currMesh v' = Some m ∧
       geometries (store v') = geometries (store square_viewer) ∧
       buffers (store v') = buffers (store square_viewer)).
Proof.
  apply (showPoints_first_time square_viewer 7).
  - vm_compute. reflexivity.
  - intros mat0 Hm. vm_compute in Hm. discriminate.
Defined.

(** ** Further properties: [setGeometry] *)

Section NeverRaises.
Context {S : Type} (e : exn).

Lemma never_ret {A} (a : A) : never_raises (S:=S) e (ret a).
Proof. by intros s. Qed.

Lemma never_raise {A} e' : e' ≠ e → never_raises (S:=S) (A:=A) e (raise e').
Proof. intros Hne s [= ?]. done. Qed.

Lemma never_gets {A} (f : S → A) : never_raises e (gets f).
Proof. by intros s. Qed.

Lemma never_get : never_raises (S:=S) e get.
Proof. by intros s. Qed.

Lemma never_modify (f : S → S) : never_raises e (modify f).
Proof. by intros s. Qed.

Lemma never_lift_result {A} (r : result A) :
  r ≠ Raise e → never_raises (S:=S) e (lift_result r).
Proof. intros Hr s. by destruct r. Qed.

Lemma never_getitem {V} (d : gmap string V) key :
  (∀ k, e ≠ KeyError k) → never_raises (S:=S) e (getitem d key).
Proof.
  intros Hk s. unfold getitem. destruct (d !! key); [done|].
  intros [= He]. by eapply Hk.
Qed.

Lemma never_bind {A B} (m : M S A) (k : A → M S B) :
  never_raises e m → (∀ a, never_raises e (k a)) → never_raises e (bind m k).
Proof.
  intros Hm Hk s. unfold bind. specialize (Hm s).
  destruct (m s) as [[a|e'] s']; cbn in *; [apply Hk|].
  intros [= ->]. by apply Hm.
Qed.

Lemma never_when (b : bool) (m : M S unit) :
  never_raises e m → never_raises e (when b m).
Proof. intros Hm. destruct b; [exact Hm|]. by intros s. Qed.

Lemma never_for_each {A} (xs : list A) (body : A → M S unit) :
  (∀ x, never_raises e (body x)) → never_raises e (for_each xs body).
Proof.
  intros Hbody. induction xs as [|x xs IH]; cbn; [apply never_ret|].
  apply never_bind; [apply Hbody|intros ?; apply IH].
Qed.

Lemma never_foldM {A B} (xs : list A) (body : B → A → M S B) acc :
  (∀ acc x, never_raises e (body acc x)) → never_raises e (foldM body acc xs).
Proof.
  intros Hbody. revert acc. induction xs as [|x xs IH]; intros acc; cbn;
    [apply never_ret|].
  apply never_bind; [apply Hbody|intros ?; apply IH].
Qed.

Lemma safe_bind {A B} (I : S → Prop) (m : M S A) (k : A → M S B) :
  safe I e m → (∀ a, safe I e (k a)) → safe I e (bind m k).
Proof.
  intros Hm Hk s Hs. unfold bind. destruct (Hm s Hs) as [Hs' Hne].
  destruct (m s) as [[a|e'] s']; cbn in *; [by apply Hk|].
  split; [done|]. intros [= ->]. by apply Hne.
Qed.

Lemma safe_intro {A} (I : S → Prop) (m : M S A) :
  preserves I m → never_raises e m → safe I e m.
Proof.
  intros Hp Hn s Hs. split; [|apply Hn].
  specialize (Hp s Hs). by destruct (m s) as [[a|e'] s'].
Qed.
End NeverRaises.

Section NeverRaisesViewer.
Context {F : Type} `{FloatOps F} {MeshT : Type} `{MeshAdapter F MeshT}.
Context (e : exn).

Lemma never_on_store {A} (m : M (Store F) A) :
  never_raises e m → never_raises e (on_store (MeshT:=MeshT) m).
Proof.
  intros Hm v. unfold on_store. specialize (Hm (store v)).
  by destruct (m (store v)).
Qed.

Lemma never_on_lib {A} (m : M (LibState F) A) :
  never_raises e m → never_raises e (on_lib (MeshT:=MeshT) m).
Proof.
  intros Hm v. unfold on_lib. specialize (Hm (materialLibrary v, store v)).
  by destruct (m _) as [r [l h]].
Qed.

Lemma never_on_scene (f : Scene F → Scene F) :
  never_raises e (on_scene (MeshT:=MeshT) f).
Proof. apply never_modify. Qed.

Lemma never_alloc (new : Store F → oid * Store F) : never_raises e (alloc new).
Proof. intros h. unfold alloc. by destruct (new h). Qed.

Lemma never_material u tex : never_raises e (material (F:=F) u tex).
Proof.
  intros [lib h]. unfold material. destruct (materials lib !! _); [done|].
  by destruct (lib_isLineMesh lib).
Qed.
End NeverRaisesViewer.

(** The exceptions of the store and of numpy are not AssertionError. *)
Ltac never_leaf :=
  first
    [ apply never_ret | apply never_gets | apply never_get | apply never_modify
    | apply never_on_scene | apply never_alloc
    | apply never_raise; discriminate
    | apply never_getitem; discriminate
    | apply never_on_lib, never_material ].

Ltac never_step :=
  first
    [ never_leaf
    | apply never_bind; [|intros ?]
    | apply never_when
    | apply never_for_each; intros ?
    | apply never_foldM; intros ? ?
    | apply never_on_store
    | match goal with
      | |- never_raises _ (match ?x with _ => _ end) => destruct x
      | |- never_raises _ (let '(_, _) := ?x in _) => destruct x
      end ].

Section NoAssertionError.
Context {F : Type} `{FloatOps F} {MeshT : Type} `{MeshAdapter F MeshT}.
Implicit Types (v : ViewerBase F MeshT) (h : Store F).

Lemma never_get_object m : never_raises (S:=Store F) AssertionError (get_object m).
Proof. intros h. unfold get_object. by destruct (_ !! _). Qed.

Lemma never_get_geometry g :
  never_raises (S:=Store F) AssertionError (get_geometry g).
Proof. intros h. unfold get_geometry. by destruct (_ !! _). Qed.

Lemma never_get_array b : never_raises (S:=Store F) AssertionError (get_array b).
Proof. intros h. unfold get_array. by destruct (_ !! _). Qed.

Lemma never_ghostMaterial orig :
  never_raises AssertionError (ghostMaterial (F:=F) orig).
Proof.
  intros [lib h]. unfold ghostMaterial.
  destruct (materialObjs h !! _) as [o|]; [|done].
  destruct (materials lib !! _); [done|].
  by destruct (_extractMaterialDescriptors o).
Qed.

Lemma np_max_abs_not_AssertionError (rows : list (list F)) :
  np_max_abs rows ≠ Raise AssertionError.
Proof. unfold np_max_abs. by destruct (concat _). Qed.

Lemma set_column_not_AssertionError (a : ndarray F) j x :
  set_column a j x ≠ Raise AssertionError.
Proof. unfold set_column. destruct a; [done|]. by case_decide. Qed.

Lemma replicate_not_AssertionError (attr : gmap string (ndarray F)) b :
  replicateAttributesPerTriCorner attr b ≠ Raise AssertionError.
Proof.
  unfold replicateAttributesPerTriCorner.
  destruct (attr !! "index") as [[idxs|]|]; try done. by case_decide.
Qed.

Lemma ScalarField_validateSize_not_AssertionError (sf : ScalarField F) n k :
  ScalarField_validateSize sf n k ≠ Raise AssertionError.
Proof. unfold ScalarField_validateSize. by case_decide. Qed.

Lemma VectorField_validateSize_not_AssertionError (vf : VectorField F) n k :
  VectorField_validateSize vf n k ≠ Raise AssertionError.
Proof. unfold VectorField_validateSize. by case_decide. Qed.
End NoAssertionError.

Ltac noassert_step :=
  first
    [ apply never_get_object | apply never_get_geometry | apply never_get_array
    | apply never_on_lib, never_ghostMaterial
    | apply never_lift_result;
      first [ apply np_max_abs_not_AssertionError
            | apply set_column_not_AssertionError
            | apply replicate_not_AssertionError
            | apply ScalarField_validateSize_not_AssertionError
            | apply VectorField_validateSize_not_AssertionError ]
    | never_step ].

Section NoAssertionErrorPhases.
Context {F : Type} `{FloatOps F} {MeshT : Type} `{MeshAdapter F MeshT}.
Implicit Types (v : ViewerBase F MeshT) (h : Store F).

#[local] Arguments liveAttributes : simpl never.
#[local] Arguments currGeometry : simpl never.
#[local] Arguments updateUniforms : simpl never.

Lemma never_setModelMatrix vertices :
  never_raises AssertionError (setModelMatrix (F:=F) (MeshT:=MeshT) vertices).
Proof. unfold setModelMatrix. repeat noassert_step. Qed.

Lemma never_rawAttributes vertices idxs normals textureMap :
  never_raises AssertionError
    (rawAttributes (F:=F) (MeshT:=MeshT) vertices idxs normals textureMap).
Proof. unfold rawAttributes. repeat noassert_step. Qed.

Lemma never_cleanMeshes children set_children :
  never_raises AssertionError
    (__cleanMeshes (F:=F) (MeshT:=MeshT) children set_children).
Proof. unfold __cleanMeshes. repeat noassert_step. Qed.

Lemma never_ghostCurrentMesh oldMesh :
  never_raises AssertionError (ghostCurrentMesh (F:=F) (MeshT:=MeshT) oldMesh).
Proof. unfold ghostCurrentMesh. repeat noassert_step. Qed.

Lemma never_ghostOrClean preserveExisting :
  never_raises AssertionError (ghostOrClean (F:=F) (MeshT:=MeshT) preserveExisting).
Proof.
  unfold ghostOrClean. apply never_bind; [never_leaf|intros curr].
  destruct preserveExisting, curr;
    first [apply never_ghostCurrentMesh | apply never_cleanMeshes].
Qed.

Lemma never_repointOverlay overlay :
  never_raises AssertionError (repointOverlay (F:=F) (MeshT:=MeshT) overlay).
Proof. unfold repointOverlay. repeat noassert_step. Qed.

Lemma never_getArrows vf visVertices visTris material existing :
  never_raises AssertionError
    (getArrows (F:=F) vf visVertices visTris material existing).
Proof. unfold getArrows. repeat noassert_step. Qed.

Lemma never_showVectorField vertices idxs :
  never_raises AssertionError
    (showVectorField (F:=F) (MeshT:=MeshT) vertices idxs).
Proof.
  unfold showVectorField.
  repeat first [apply never_on_store, never_getArrows | noassert_step].
Qed.

(** The update in place raises only when an object or a key is missing: the
    assertion of line 259 holds in every iteration. *)
Lemma updateMesh_not_AssertionError curr attrRaw mat v :
  live_invariant v → currMesh v = Some curr →
  (updateMesh curr attrRaw mat v).1 ≠ Raise AssertionError.
Proof.
  intros Hv Hc.
  unfold updateMesh, bind, on_store, get_object, get_geometry, getitem, modify,
    ret, raise.
  destruct (objects3d (store v) !! curr) as [obj|] eqn:Hobj; cbn -[stashableKeys];
    [|done].
  destruct (geometries (store v) !! geometry obj) as [g|] eqn:Hg;
    cbn -[stashableKeys]; [|done].
  destruct (liveAttributes_lookup v curr obj g Hc Hobj Hg) as [Hcg Hlive].
  destruct (attributes g !! "position") as [bp|]; cbn -[stashableKeys]; [|done].
  destruct (attrRaw !! "position") as [ap|]; cbn -[stashableKeys]; [|done].
  destruct (attributes g !! "normal") as [bn|]; cbn -[stashableKeys]; [|done].
  destruct (attrRaw !! "normal") as [an|]; cbn -[stashableKeys]; [|done].
  set (v1 := set_store _ _).
  destruct (allocate_loop attrRaw stashableKeys NoDup_stashableKeys (attributes g) v1)
    as (attr' & stash' & h' & Hloop & _).
  { intros k Hk. rewrite <- Hlive. cbn. by apply Hv. }
  rewrite Hloop. done.
Qed.

Lemma buildOrUpdateMesh_safe attrRaw mat :
  safe (live_invariant (F:=F) (MeshT:=MeshT)) AssertionError
       (buildOrUpdateMesh attrRaw mat).
Proof.
  intros v Hv. split.
  - pose proof (buildOrUpdateMesh_preserves attrRaw mat v Hv) as Hp.
    by destruct (buildOrUpdateMesh attrRaw mat v) as [[[]|e] v'].
  - unfold buildOrUpdateMesh, bind, gets.
    destruct (currMesh v) as [curr|] eqn:Hc.
    + by apply updateMesh_not_AssertionError.
    + by destruct (buildMesh_spec attrRaw mat v Hc) as (v' & -> & _).
Qed.

Lemma setGeometry_safe vertices idxs normals preserveExisting updateModelMatrix
    textureMap scalarField0 vectorField0 :
  safe (live_invariant (F:=F) (MeshT:=MeshT)) AssertionError
    (setGeometry vertices idxs normals preserveExisting updateModelMatrix
                 textureMap scalarField0 vectorField0).
Proof.
  unfold setGeometry.
  apply safe_bind; [by intros s Hs|intros ?].
  apply safe_bind; [by intros s Hs|intros ?].
  apply safe_bind.
  { apply safe_intro.
    - apply (respects_preserves live_invariant same_live).
      apply respects_when; [exact _|]. apply frames_setModelMatrix.
    - apply never_when, never_setModelMatrix. }
  intros ?. apply safe_bind.
  { apply safe_intro; [|apply never_rawAttributes].
    apply (respects_preserves live_invariant same_live), frames_rawAttributes. }
  intros [attrRaw useVertexColors].
  apply safe_bind.
  { apply safe_intro; [apply ghostOrClean_preserves|apply never_ghostOrClean]. }
  intros ?. apply safe_bind.
  { apply safe_intro; [preserves_frames|never_leaf]. }
  intros mat. apply safe_bind.
  { apply safe_intro; [preserves_frames|never_leaf]. }
  intros flicker. apply safe_bind.
  { apply safe_intro; [preserves_frames|repeat noassert_step]. }
  intros ?. apply safe_bind; [apply buildOrUpdateMesh_safe|intros ?].
  apply safe_bind.
  { apply safe_intro.
    - apply (respects_preserves live_invariant same_live).
      apply respects_bind; [exact _|apply respects_gets; exact _|intros ?].
      apply frames_repointOverlay.
    - apply never_bind; [never_leaf|intros ?; apply never_repointOverlay]. }
  intros ?. apply safe_bind.
  { apply safe_intro.
    - apply (respects_preserves live_invariant same_live).
      apply respects_bind; [exact _|apply respects_gets; exact _|intros ?].
      apply frames_repointOverlay.
    - apply never_bind; [never_leaf|intros ?; apply never_repointOverlay]. }
  intros ?. apply safe_bind.
  { apply safe_intro; [apply showVectorField_preserves|apply never_showVectorField]. }
  intros ?. apply safe_intro; [preserves_frames|repeat noassert_step].
Qed.
End NoAssertionErrorPhases.

(** X15.  From a viewer state that satisfies the live invariant, as the
    constructor's and every state after it does, [setGeometry] does not raise
    AssertionError: the assertion of line 259 never fails. *)
Theorem setGeometry_never_AssertionError
    {F : Type} `{FloatOps F} {MeshT : Type} `{MeshAdapter F MeshT}
    (v : ViewerBase F MeshT) (c : SetGeometryCall F) :
  live_invariant v →
  (run_call c v).1 ≠ Raise AssertionError.
Proof. intros Hv. by apply setGeometry_safe. Qed.

Lemma setGeometry_never_AssertionError_witness :
  live_invariant square_viewer ∧
  (run_call scalar_on square_viewer).1 ≠ Raise AssertionError.
Proof.
  split; [apply live_invariant_square_viewer|].
  apply (setGeometry_never_AssertionError square_viewer scalar_on).
  apply live_invariant_square_viewer.
Defined.




(** *** Updates in place *)

Section NoBufferAllocation.
Context {F : Type} `{FloatOps F} {MeshT : Type} `{MeshAdapter F MeshT}.
Implicit Types (v : ViewerBase F MeshT) (h : Store F).

Lemma nobuf_get_object m : store_allocates_no_buffer (get_object (F:=F) m).
Proof. intros h _. unfold get_object. destruct (_ !! _); apply frame_refl. Qed.

Lemma nobuf_get_geometry g : store_allocates_no_buffer (get_geometry (F:=F) g).
Proof. intros h _. unfold get_geometry. destruct (_ !! _); apply frame_refl. Qed.

Lemma nobuf_get_array b : store_allocates_no_buffer (get_array (F:=F) b).
Proof. intros h _. unfold get_array. destruct (_ !! _); apply frame_refl. Qed.

Lemma nobuf_alloc (new : Store F → oid * Store F) :
  (∀ h, same_buffers h (new h).2) → store_allocates_no_buffer (alloc new).
Proof. intros Hnew h _. unfold alloc. specialize (Hnew h). by destruct (new h). Qed.

Lemma nobuf_on_store {A} (m : M (Store F) A) :
  store_allocates_no_buffer m → allocates_no_buffer (on_store (MeshT:=MeshT) m).
Proof.
  intros Hm v _. unfold on_store. specialize (Hm (store v) I).
  by destruct (m (store v)).
Qed.

Lemma nobuf_on_scene (f : Scene F → Scene F) :
  allocates_no_buffer (on_scene (MeshT:=MeshT) f).
Proof. by intros v _. Qed.

Lemma nobuf_on_lib_material u tex :
  allocates_no_buffer (F:=F) (MeshT:=MeshT) (on_lib (material u tex)).
Proof.
  intros v _. unfold on_lib, material.
  destruct (materials (materialLibrary v) !! _); [done|].
  by destruct (lib_isLineMesh (materialLibrary v)).
Qed.
End NoBufferAllocation.

Ltac store_nobuf_step :=
  first
    [ respects_struct
    | apply nobuf_get_object | apply nobuf_get_geometry | apply nobuf_get_array
    | apply respects_modify; intros ? _; unfold same_buffers; cbn;
      rewrite ?dom_alter_L; done
    | apply nobuf_alloc; intros ?; done ].

Ltac nobuf_step :=
  first
    [ respects_struct
    | apply nobuf_on_scene | apply nobuf_on_lib_material
    | apply nobuf_on_store; unfold store_allocates_no_buffer; repeat store_nobuf_step
    | apply respects_modify; intros ? _; done
    | match goal with
      | |- respects _ _ (match ?x with _ => _ end) => destruct x
      end ].

Section QuietPhases.
Context {F : Type} `{FloatOps F} {MeshT : Type} `{MeshAdapter F MeshT}.
Implicit Types (v : ViewerBase F MeshT) (h : Store F).

#[local] Arguments liveAttributes : simpl never.
#[local] Arguments currGeometry : simpl never.
#[local] Arguments has_buffer : simpl never.

Lemma nobuf_setModelMatrix vertices :
  allocates_no_buffer (F:=F) (MeshT:=MeshT) (setModelMatrix vertices).
Proof. unfold allocates_no_buffer, setModelMatrix. repeat nobuf_step. Qed.

Lemma nobuf_rawAttributes vertices idxs normals textureMap :
  allocates_no_buffer (F:=F) (MeshT:=MeshT)
    (rawAttributes vertices idxs normals textureMap).
Proof. unfold allocates_no_buffer, rawAttributes. repeat nobuf_step. Qed.

Lemma nobuf_cleanMeshes_ghost :
  allocates_no_buffer (F:=F) (MeshT:=MeshT)
    (__cleanMeshes ghostMeshes set_ghostMeshes).
Proof. unfold allocates_no_buffer, __cleanMeshes. repeat nobuf_step. Qed.

Lemma nobuf_repointOverlay overlay :
  allocates_no_buffer (F:=F) (MeshT:=MeshT) (repointOverlay overlay).
Proof. unfold allocates_no_buffer, repointOverlay. repeat nobuf_step. Qed.

(** A method that frames the live state and creates no buffer keeps what an
    update in place keeps. *)
Lemma updated_in_place_refl v : updated_in_place v v.
Proof. by repeat split. Qed.

Lemma updated_in_place_trans v1 v2 v3 :
  updated_in_place v1 v2 → updated_in_place v2 v3 → updated_in_place v1 v3.
Proof.
  intros (Hc & Hg & Ha & Hb & Hm & Hs) (Hc' & Hg' & Ha' & Hb' & Hm' & Hs').
  split; [congruence|]. split; [congruence|].
  split; [intros k Hk; by rewrite Ha', Ha|].
  split; [intros k Hk; by apply Hb', Hb|].
  split; [intros m Hm0; by apply Hm', Hm|].
  unfold same_buffers in *. congruence.
Qed.

Lemma updated_in_place_fields v v' :
  currMesh v' = currMesh v → store v' = store v →
  bufferAttributeStash v' = bufferAttributeStash v →
  vectorFieldMesh v' = vectorFieldMesh v →
  updated_in_place v v'.
Proof.
  intros Hc Hs Hst Hm.
  assert (currGeometry v' = currGeometry v) as Hg.
  { unfold currGeometry. by rewrite Hc, Hs. }
  assert (liveAttributes v' = liveAttributes v) as Ha.
  { unfold liveAttributes. by rewrite Hg, Hs. }
  split; [done|]. split; [done|]. split; [by intros k _; rewrite Ha|].
  split; [|split; [by intros m; rewrite Hm|by unfold same_buffers; rewrite Hs]].
  intros k. unfold has_buffer. by rewrite Ha, Hst.
Qed.

Lemma same_live_updated_in_place v v' :
  same_live v v' → same_buffers (store v) (store v') → updated_in_place v v'.
Proof.
  intros (Hc & Hg & Ha & Hs & Hm & _) Hb.
  split; [done|]. split; [done|]. split; [intros k _; by rewrite Ha|].
  split; [|done]. intros k. unfold has_buffer. by rewrite Ha, Hs.
Qed.
End QuietPhases.

Section InPlaceUpdate.
Context {F : Type} `{FloatOps F} {MeshT : Type} `{MeshAdapter F MeshT}.
Implicit Types (v : ViewerBase F MeshT) (h : Store F)
  (attrRaw : gmap string (ndarray F)).

#[local] Arguments liveAttributes : simpl never.
#[local] Arguments currGeometry : simpl never.
#[local] Arguments has_buffer : simpl never.

(** The model matrix step leaves the two fields alone. *)
Lemma setModelMatrix_fields (b : bool) vertices v :
  scalarField (when b (setModelMatrix vertices) v).2 = scalarField v ∧
  vectorField (when b (setModelMatrix vertices) v).2 = vectorField v.
Proof.
  destruct b; [|done].
  unfold when, setModelMatrix, bind, lift_result, modify, on_scene.
  by destruct (np_max_abs _).
Qed.

(** The stashable keys of the raw attributes of a frame (lines 208-227). *)
Lemma rawAttributes_keys vertices idxs normals textureMap v attrRaw u v' :
  rawAttributes vertices idxs normals textureMap v = (Ok (attrRaw, u), v') →
  (∀ k, k ∈ stashableKeys →
     is_Some (attrRaw !! k)
     ↔ k = "index" ∨ (k = "uv" ∧ is_Some textureMap)
       ∨ (k = "color" ∧ is_Some (scalarField v))) ∧
  vectorField v' = vectorField v.
Proof.
  unfold rawAttributes, bind, gets, modify, lift_result, ret.
  set (raw0 := match textureMap with Some tm => _ | None => _ end).
  assert (is_Some (raw0 !! "index") ∧ raw0 !! "color" = None ∧
          (is_Some (raw0 !! "uv") ↔ is_Some textureMap)) as (Hi & Hc & Hu).
  { unfold raw0. destruct textureMap as [tm|].
    - split; [by simplify_map_eq|]. split; [by simplify_map_eq|].
      split; [by eauto|]. intros _. by simplify_map_eq.
    - split; [by simplify_map_eq|]. split; [by simplify_map_eq|].
      split; [|by intros [? [=]]]. simplify_map_eq. by intros [? [=]]. }
  assert (∀ (fieldSome : Prop) (raw : gmap string (ndarray F)),
            (∀ k, k ∈ stashableKeys →
               is_Some (raw !! k)
               ↔ is_Some (raw0 !! k) ∨ (k = "color" ∧ fieldSome)) →
            ∀ k, k ∈ stashableKeys →
              is_Some (raw !! k)
              ↔ k = "index" ∨ (k = "uv" ∧ is_Some textureMap)
                ∨ (k = "color" ∧ fieldSome)) as Hkeys.
  { intros fieldSome raw Hraw k Hk. rewrite (Hraw k Hk).
    unfold stashableKeys in Hk. rewrite !elem_of_cons, elem_of_nil in Hk.
    destruct Hk as [->|[->|[->|[]]]].
    - split; [by left|by left].
    - rewrite Hc. split.
      + intros [[? [=]]|[_ ?]]. right. right. done.
      + intros [[=]|[[[=] _]|[_ ?]]]. right. done.
    - rewrite Hu. split.
      + intros [?|[[=] _]]. right. left. done.
      + intros [[=]|[[_ ?]|[[=] _]]]. by left. }
  destruct (scalarField v) as [a|] eqn:Hfield; cbn.
  - destruct (ScalarField_validateSize _ _ _); cbn; [|done].
    set (sf := match a with ScalarFieldObject sf => sf | ScalarFieldData d => _ end).
    set (raw1 := <["color" := colors sf]> raw0).
    assert (∀ k, k ∈ stashableKeys →
              is_Some (raw1 !! k)
              ↔ is_Some (raw0 !! k) ∨ (k = "color" ∧ is_Some (Some a))) as Hraw1.
    { intros k _. unfold raw1. destruct (decide (k = "color")) as [->|Hne].
      - rewrite lookup_insert_eq. split; [by right|by eauto].
      - rewrite lookup_insert_ne by done. split; [by left|].
        by intros [?|[? _]]. }
    destruct (domainType sf); cbn.
    + intros [= <- <- <-]. split; [|done]. by apply Hkeys.
    + destruct (replicateAttributesPerTriCorner raw1 true) as [raw2|e] eqn:Hrep;
        cbn; [|done].
      intros [= <- <- <-]. split; [|done]. apply Hkeys. intros k Hk.
      rewrite <- (Hraw1 k Hk).
      rewrite <- !elem_of_dom. by rewrite (replicate_dom _ _ _ Hrep).
  - intros [= <- <- <-]. split; [|done]. apply Hkeys. intros k _.
    split; [by left|]. by intros [?|[_ [? [=]]]].
Qed.

(** A method that frames the live state carries an assertion that only
    depends on what framing keeps. *)
Lemma hoare_frames {A} (X : ViewerBase F MeshT → Prop) E (p : M (ViewerBase F MeshT) A) :
  frames p →
  (∀ v v', live_invariant v → same_live v v' → X v → X v') →
  (∀ v, live_invariant v → X v → E v) →
  hoare (λ v, live_invariant v ∧ X v) p (λ _ v, live_invariant v ∧ X v) E.
Proof.
  intros Hp Hstable HE v [Hv HX]. specialize (Hp v Hv).
  assert (live_invariant (p v).2) as Hv' by (by eapply frame_stable).
  specialize (Hstable v (p v).2 Hv Hp HX).
  destruct (p v) as [[a|e] v']; cbn in *; [done|by apply HE].
Qed.

(** The same for a method that in addition creates no buffer. *)
Lemma hoare_quiet {A} (X : ViewerBase F MeshT → Prop) E (p : M (ViewerBase F MeshT) A) :
  frames p → allocates_no_buffer p →
  (∀ v v', live_invariant v → same_live v v' → updated_in_place v v' → X v → X v') →
  (∀ v, live_invariant v → X v → E v) →
  hoare (λ v, live_invariant v ∧ X v) p (λ _ v, live_invariant v ∧ X v) E.
Proof.
  intros Hp Hb Hstable HE v [Hv HX]. specialize (Hp v Hv). specialize (Hb v I).
  assert (live_invariant (p v).2) as Hv' by (by eapply frame_stable).
  pose proof (same_live_updated_in_place _ _ Hp Hb) as Hin.
  specialize (Hstable v (p v).2 Hv Hp Hin HX).
  destruct (p v) as [[a|e] v']; cbn in *; [done|by apply HE].
Qed.

Lemma frames_ghostOrClean_false :
  frames (F:=F) (MeshT:=MeshT) (ghostOrClean false).
Proof.
  unfold frames, ghostOrClean.
  apply respects_bind; [exact _|apply respects_gets; exact _|intros curr].
  apply frames_cleanMeshes_ghost.
Qed.

Lemma nobuf_ghostOrClean_false :
  allocates_no_buffer (F:=F) (MeshT:=MeshT) (ghostOrClean false).
Proof.
  unfold allocates_no_buffer, ghostOrClean.
  apply respects_bind; [exact _|apply respects_gets; exact _|intros curr].
  apply nobuf_cleanMeshes_ghost.
Qed.

Lemma frames_repoint (slot : ViewerBase F MeshT → option oid) :
  frames (let! overlay := gets slot in repointOverlay overlay).
Proof.
  apply respects_bind; [exact _|apply respects_gets; exact _|intros ?].
  apply frames_repointOverlay.
Qed.

Lemma nobuf_repoint (slot : ViewerBase F MeshT → option oid) :
  allocates_no_buffer (let! overlay := gets slot in repointOverlay overlay).
Proof.
  apply respects_bind; [exact _|apply respects_gets; exact _|intros ?].
  apply nobuf_repointOverlay.
Qed.

Lemma frames_flicker (b : bool) :
  frames (F:=F) (MeshT:=MeshT)
    (let! flicker := gets avoidRedrawFlicker in
     when flicker (on_scene (set_rendering_paused (λ _, b)))).
Proof. unfold frames. repeat frames_step. Qed.

Lemma nobuf_flicker (b : bool) :
  allocates_no_buffer (F:=F) (MeshT:=MeshT)
    (let! flicker := gets avoidRedrawFlicker in
     when flicker (on_scene (set_rendering_paused (λ _, b)))).
Proof. unfold allocates_no_buffer. repeat nobuf_step. Qed.

(** The update of the current mesh in place keeps the mesh, its geometry
    and the buffers of the keys that are never stashed. *)
Lemma updateMesh_keeps curr attrRaw mat v :
  live_invariant v → currMesh v = Some curr →
  currGeometry (updateMesh curr attrRaw mat v).2 = currGeometry v ∧
  ∀ k, k ∉ stashableKeys →
    liveAttributes (updateMesh curr attrRaw mat v).2 !! k = liveAttributes v !! k.
Proof.
  intros Hv Hc.
  assert (∀ (e : exn) h',
            objects3d h' = objects3d (store v) →
            geometries h' = geometries (store v) →
            let rv : result unit * _ := (Raise e, set_store (λ _, h') v) in
            currGeometry rv.2 = currGeometry v ∧
            ∀ k, k ∉ stashableKeys →
              liveAttributes rv.2 !! k = liveAttributes v !! k) as Hraise.
  { intros e h' Ho Hg. cbn.
    assert (currGeometry (set_store (λ _, h') v) = currGeometry v) as Hcg.
    { unfold currGeometry. cbn. by rewrite Ho. }
    split; [done|]. intros k _. unfold liveAttributes. rewrite Hcg. cbn.
    by rewrite Hg. }
  unfold updateMesh, bind, on_store, get_object, get_geometry, getitem, modify,
    ret, raise.
  destruct (objects3d (store v) !! curr) as [obj|] eqn:Hobj; cbn -[stashableKeys].
  2:{ by apply (Hraise NoSuchObject (store v)). }
  destruct (geometries (store v) !! geometry obj) as [g|] eqn:Hg; cbn -[stashableKeys].
  2:{ by apply (Hraise NoSuchObject (store v)). }
  destruct (liveAttributes_lookup v curr obj g Hc Hobj Hg) as [Hcg Hlive].
  destruct (attributes g !! "position") as [bp|]; cbn -[stashableKeys];
    [|by apply (Hraise NoSuchObject)].
  destruct (attrRaw !! "position") as [ap|]; cbn -[stashableKeys];
    [|by apply (Hraise NoSuchObject)].
  destruct (attributes g !! "normal") as [bn|]; cbn -[stashableKeys];
    [|by apply (Hraise NoSuchObject)].
  destruct (attrRaw !! "normal") as [an|]; cbn -[stashableKeys];
    [|by apply (Hraise NoSuchObject)].
  set (v1 := set_store _ _).
  destruct (allocate_loop attrRaw stashableKeys NoDup_stashableKeys (attributes g) v1)
    as (attr' & stash' & h' & Hloop & Hout & _ & _ & Ho & Hgs & _).
  { intros k Hk. rewrite <- Hlive. cbn. by apply Hv. }
  rewrite Hloop. cbn -[stashableKeys] in *.
  set (v2 := set_store _ _).
  assert (currGeometry v2 = Some (geometry obj) ∧ liveAttributes v2 = attr')
    as [Hcg2 Hlive2].
  { apply (liveAttributes_lookup v2 curr
             (mkObject3D (obj_class obj) (geometry obj) mat) (mkBufferGeometry attr')).
    - done.
    - cbn. rewrite lookup_alter_eq, Ho, Hobj. done.
    - cbn. rewrite lookup_alter_eq, Hgs, Hg. done. }
  split; [congruence|]. intros k Hk. rewrite Hlive2, Hlive.
  by destruct (Hout k Hk) as [-> _].
Qed.

(** An update in place of a viewer that has what the frame needs. *)
Lemma run_call_in_place (c : SetGeometryCall F) v0 :
  live_invariant v0 → is_Some (currMesh v0) →
  call_preserveExisting c = false → supplied c v0 →
  live_invariant (run_call c v0).2 ∧ updated_in_place v0 (run_call c v0).2.
Proof.
  intros Hv0 [curr Hcurr] Hpe [Hkeys0 Hvfm0].
  set (St := λ v, live_invariant v ∧ updated_in_place v0 v).
  set (Kvf := λ v : ViewerBase F MeshT,
                is_Some (vectorField v) → is_Some (call_vectorField c)).
  set (Ksf := λ v : ViewerBase F MeshT,
                is_Some (scalarField v) ↔ is_Some (call_scalarField c)).
  assert (∀ v v', same_live v v' → Kvf v → Kvf v') as Hvf_stable.
  { intros v v' (_ & _ & _ & _ & _ & Hiff & _) HK Hsome. apply HK. by apply Hiff. }
  assert (hoare (λ v, v = v0) (run_call c) (λ _, St) St) as Hrun.
  { unfold run_call, setGeometry. rewrite Hpe.
    (* the two assignments *)
    eapply hoare_bind with
      (R := λ _ v, live_invariant v ∧ updated_in_place v0 v ∧ Ksf v).
    { intros v ->. cbn. split; [exact Hv0|].
      split; [by apply updated_in_place_fields|]. done. }
    intros ?. eapply hoare_bind with
      (R := λ _ v, live_invariant v ∧ updated_in_place v0 v ∧ Ksf v ∧ Kvf v).
    { intros v (Hv & Hin & Hsf). cbn. split; [exact Hv|]. split; [exact Hin|].
      split; [exact Hsf|]. by intros ?. }
    (* the model matrix *)
    intros ?. eapply hoare_bind with
      (R := λ _ v, live_invariant v ∧ updated_in_place v0 v ∧ Ksf v ∧ Kvf v).
    { intros v (Hv & Hin & Hsf & Hvf).
      pose proof (respects_when live_invariant same_live
                    (call_updateModelMatrix c) _
                    (frames_setModelMatrix (call_vertices c)) v Hv) as Hsame.
      pose proof (respects_when (λ _, True)
                    (λ v v' : ViewerBase F MeshT, same_buffers (store v) (store v'))
                    (call_updateModelMatrix c) _
                    (nobuf_setModelMatrix (call_vertices c)) v I) as Hbuf.
      destruct (setModelMatrix_fields (call_updateModelMatrix c)
                  (call_vertices c) v) as [Hs _].
      assert (live_invariant (when (call_updateModelMatrix c)
                (setModelMatrix (call_vertices c)) v).2 ∧
              updated_in_place v0 (when (call_updateModelMatrix c)
                (setModelMatrix (call_vertices c)) v).2) as [Hv' Hin'].
      { split; [by eapply frame_stable|].
        eapply updated_in_place_trans; [exact Hin|].
        by apply same_live_updated_in_place. }
      assert (Kvf (when (call_updateModelMatrix c)
                (setModelMatrix (call_vertices c)) v).2) as Hvf'
        by (by eapply Hvf_stable).
      unfold Ksf in *. rewrite <- Hs in Hsf.
      destruct (when _ _ v) as [[[]|e] v']; cbn in *; done. }
    (* the raw attributes *)
    intros ?. eapply hoare_bind with
      (R := λ r v, live_invariant v ∧ updated_in_place v0 v ∧ Kvf v ∧
                   ∀ k, k ∈ stashableKeys → is_Some (r.1 !! k) → frame_needs c k).
    { intros v (Hv & Hin & Hsf & Hvf).
      pose proof (frames_rawAttributes (call_vertices c) (call_idxs c)
                    (call_normals c) (call_textureMap c) v Hv) as Hsame.
      pose proof (nobuf_rawAttributes (call_vertices c) (call_idxs c)
                    (call_normals c) (call_textureMap c) v I) as Hbuf.
      destruct (rawAttributes _ _ _ _ v) as [[[raw u]|e] v'] eqn:Hraw; cbn in *.
      - destruct (rawAttributes_keys _ _ _ _ _ _ _ _ Hraw) as [Hk _].
        split; [by eapply frame_stable|]. split.
        { eapply updated_in_place_trans; [exact Hin|].
          by apply same_live_updated_in_place. }
        split; [by eapply Hvf_stable|].
        intros k Hks Hsome. apply (Hk k Hks) in Hsome.
        unfold frame_needs. destruct Hsome as [?|[?|[? Hfield]]]; [by left|by right; left|].
        right. right. split; [done|]. by apply Hsf.
      - split; [by eapply frame_stable|].
        eapply updated_in_place_trans; [exact Hin|].
        by apply same_live_updated_in_place. }
    intros [attrRaw useVertexColors]. cbn [fst].
    set (X := λ v, updated_in_place v0 v ∧ Kvf v ∧
                   ∀ k, k ∈ stashableKeys → is_Some (attrRaw !! k) → frame_needs c k).
    assert (∀ v v', live_invariant v → same_live v v' → updated_in_place v v' →
                    X v → X v') as HX_stable.
    { intros v v' _ Hsame Hin' (Hin & Hvf & Hk). split; [|split; [|done]].
      - by eapply updated_in_place_trans.
      - by eapply Hvf_stable. }
    assert (∀ v, live_invariant v → X v → St v) as HX_E.
    { intros v Hv (Hin & _). by split. }
    (* ghosts, material, pause *)
    eapply hoare_bind with (R := λ _ v, live_invariant v ∧ X v).
    { apply (hoare_quiet X St);
        [apply frames_ghostOrClean_false|apply nobuf_ghostOrClean_false|done..]. }
    intros ?. eapply hoare_bind with (R := λ _ v, live_invariant v ∧ X v).
    { apply (hoare_quiet X St);
        [apply frames_on_lib_material|apply nobuf_on_lib_material|done..]. }
    intros mat. eapply hoare_bind with (R := λ _ v, live_invariant v ∧ X v).
    { apply (hoare_quiet X St); [|by intros v _|done..].
      apply respects_gets; exact _. }
    intros flicker. eapply hoare_bind with (R := λ _ v, live_invariant v ∧ X v).
    { apply (hoare_quiet X St); [| |done..].
      - apply respects_when; [exact _|]. apply frames_on_scene.
      - apply respects_when; [exact _|]. apply nobuf_on_scene. }
    (* the update in place *)
    set (X5 := λ v, updated_in_place v0 v ∧ Kvf v).
    assert (∀ v v', live_invariant v → same_live v v' → updated_in_place v v' →
                    X5 v → X5 v') as HX5_stable.
    { intros v v' _ Hsame Hin' (Hin & Hvf). split.
      - by eapply updated_in_place_trans.
      - by eapply Hvf_stable. }
    assert (∀ v, live_invariant v → X5 v → St v) as HX5_E.
    { intros v Hv (Hin & _). by split. }
    intros ?. eapply hoare_bind with (R := λ _ v, live_invariant v ∧ X5 v).
    { intros v (Hv & Hin & Hvf & Hk).
      assert (currMesh v = Some curr) as Hc.
      { destruct Hin as (-> & _). done. }
      unfold buildOrUpdateMesh, bind, gets. rewrite Hc.
      pose proof (updateMesh_spec curr attrRaw mat v Hv Hc)
        as (Hv' & Hc' & Hm' & Hf' & Hb' & _ & Hnoalloc).
      pose proof (updateMesh_keeps curr attrRaw mat v Hv Hc) as [Hg' Ha'].
      assert (updated_in_place v (updateMesh curr attrRaw mat v).2) as Hstep.
      { split; [congruence|]. split; [done|]. split; [done|]. split; [done|].
        split; [intros m Hm; by rewrite Hm'|].
        apply Hnoalloc. intros k Hks Hsome.
        destruct Hin as (_ & _ & _ & Hhas & _). apply Hhas.
        apply Hkeys0; [done|]. by apply Hk. }
      assert (X5 (updateMesh curr attrRaw mat v).2) as HX5.
      { split; [by eapply updated_in_place_trans|].
        unfold Kvf. by rewrite Hf'. }
      destruct (updateMesh curr attrRaw mat v) as [[[]|e] v']; cbn in *.
      - by split.
      - destruct HX5. by split. }
    (* the overlays *)
    intros ?. eapply hoare_bind with (R := λ _ v, live_invariant v ∧ X5 v).
    { apply (hoare_quiet X5 St); [apply frames_repoint|apply nobuf_repoint|done..]. }
    intros ?. eapply hoare_bind with (R := λ _ v, live_invariant v ∧ X5 v).
    { apply (hoare_quiet X5 St); [apply frames_repoint|apply nobuf_repoint|done..]. }
    (* the vector field *)
    intros ?. eapply hoare_bind with (R := λ _ v, live_invariant v ∧ X5 v).
    { intros v (Hv & Hin & Hvf).
      pose proof (showVectorField_spec (call_vertices c) (call_idxs c) v Hv)
        as (Hsame & _ & Hnoalloc).
      assert (same_buffers (store v)
                (store (showVectorField (call_vertices c) (call_idxs c) v).2)) as Hbuf.
      { apply Hnoalloc. destruct (vectorField v) as [fld|] eqn:Hfield; [right|by left].
        destruct Hin as (_ & _ & _ & _ & Hkeep & _).
        assert (is_Some (call_vectorField c)) as Hsome.
        { apply Hvf. rewrite ?Hfield. by eexists. }
        destruct (Hvfm0 Hsome) as [vm Hvm].
        exists vm. by apply Hkeep. }
      assert (live_invariant (showVectorField (call_vertices c) (call_idxs c) v).2)
        as Hv' by (by eapply frame_stable).
      assert (X5 (showVectorField (call_vertices c) (call_idxs c) v).2) as HX5.
      { apply (HX5_stable v); [done..| |by split].
        by apply same_live_updated_in_place. }
      destruct (showVectorField _ _ v) as [[[]|e] v']; cbn in *.
      - by split.
      - destruct HX5. by split. }
    (* resume *)
    intros ?. eapply hoare_weaken.
    - apply (hoare_quiet X5 St); [apply frames_flicker|apply nobuf_flicker|done..].
    - done.
    - intros ? v (Hv & Hin & _). by split.
    - done. }
  specialize (Hrun v0 eq_refl).
  by destruct (run_call c v0) as [[[]|e] v'].
Qed.

(** What holds after a call that returns: there is a current mesh; every
    stashable key of the frame is attached to it and not stashed, with the
    buffer that was stashed if there was one; and a vector field has its
    glyph mesh. *)
Lemma run_call_returns (c : SetGeometryCall F) v0 v1 :
  live_invariant v0 → run_call c v0 = (Ok tt, v1) →
  live_invariant v1 ∧
  is_Some (currMesh v1) ∧
  (∀ k, k ∈ stashableKeys → frame_needs c k →
     bufferAttributeStash v1 !! k = None ∧
     is_Some (liveAttributes v1 !! k) ∧
     ∀ b, bufferAttributeStash v0 !! k = Some b → liveAttributes v1 !! k = Some b) ∧
  (is_Some (call_vectorField c) → is_Some (vectorFieldMesh v1)).
Proof.
  intros Hv0 Hret.
  set (Kvf := λ v : ViewerBase F MeshT,
                is_Some (call_vectorField c) → is_Some (vectorField v)).
  set (Ksf := λ v : ViewerBase F MeshT,
                is_Some (call_scalarField c) → is_Some (scalarField v)).
  set (Reused := λ v : ViewerBase F MeshT,
         ∀ k, k ∈ stashableKeys → frame_needs c k →
           bufferAttributeStash v !! k = None ∧
           is_Some (liveAttributes v !! k) ∧
           ∀ b, bufferAttributeStash v0 !! k = Some b →
                liveAttributes v !! k = Some b).
  set (T := λ _ : ViewerBase F MeshT, True).
  assert (∀ v v', same_live v v' → Kvf v → Kvf v') as Hvf_stable.
  { intros v v' (_ & _ & _ & _ & _ & Hiff & _) HK Hsome. apply Hiff. by apply HK. }
  assert (hoare (λ v, v = v0) (run_call c)
            (λ _ v, live_invariant v ∧ is_Some (currMesh v) ∧ Reused v ∧
                    (is_Some (call_vectorField c) → is_Some (vectorFieldMesh v)))
            T) as Hrun.
  { unfold run_call, setGeometry.
    eapply hoare_bind with
      (R := λ _ v, live_invariant v ∧
                   bufferAttributeStash v = bufferAttributeStash v0 ∧ Ksf v).
    { intros v ->. cbn. split; [exact Hv0|]. split; [done|]. by intros ?. }
    intros ?. eapply hoare_bind with
      (R := λ _ v, live_invariant v ∧
                   bufferAttributeStash v = bufferAttributeStash v0 ∧ Ksf v ∧ Kvf v).
    { intros v (Hv & Hst & Hsf). cbn. split; [exact Hv|]. split; [done|].
      split; [exact Hsf|]. by intros ?. }
    intros ?. eapply hoare_bind with
      (R := λ _ v, live_invariant v ∧
                   bufferAttributeStash v = bufferAttributeStash v0 ∧ Ksf v ∧ Kvf v).
    { intros v (Hv & Hst & Hsf & Hvf).
      pose proof (respects_when live_invariant same_live
                    (call_updateModelMatrix c) _
                    (frames_setModelMatrix (call_vertices c)) v Hv) as Hsame.
      destruct (setModelMatrix_fields (call_updateModelMatrix c)
                  (call_vertices c) v) as [Hs Hf].
      assert (live_invariant (when (call_updateModelMatrix c)
                (setModelMatrix (call_vertices c)) v).2) as Hv'
        by (by eapply frame_stable).
      pose proof Hsame as (_ & _ & _ & Hst' & _).
      unfold Ksf, Kvf in *. rewrite <- Hs in Hsf. rewrite <- Hf in Hvf.
      rewrite <- Hst' in Hst.
      destruct (when _ _ v) as [[[]|e] v']; cbn in *; done. }
    intros ?. eapply hoare_bind with
      (R := λ r v, live_invariant v ∧
                   bufferAttributeStash v = bufferAttributeStash v0 ∧ Kvf v ∧
                   ∀ k, k ∈ stashableKeys → frame_needs c k → is_Some (r.1 !! k)).
    { intros v (Hv & Hst & Hsf & Hvf).
      pose proof (frames_rawAttributes (call_vertices c) (call_idxs c)
                    (call_normals c) (call_textureMap c) v Hv) as Hsame.
      destruct (rawAttributes _ _ _ _ v) as [[[raw u]|e] v'] eqn:Hraw; cbn in *;
        [|done].
      destruct (rawAttributes_keys _ _ _ _ _ _ _ _ Hraw) as [Hk Hf].
      split; [by eapply frame_stable|].
      pose proof Hsame as (_ & _ & _ & Hst' & _).
      split; [congruence|]. split; [by eapply Hvf_stable|].
      intros k Hks Hneeds. apply (Hk k Hks).
      destruct Hneeds as [?|[?|[? Hfield]]]; [by left|by right; left|].
      right. right. split; [done|]. by apply Hsf. }
    intros [attrRaw useVertexColors]. cbn [fst].
    set (X := λ v, bufferAttributeStash v = bufferAttributeStash v0 ∧ Kvf v ∧
                   ∀ k, k ∈ stashableKeys → frame_needs c k → is_Some (attrRaw !! k)).
    assert (∀ v v', live_invariant v → same_live v v' → X v → X v') as HX_stable.
    { intros v v' _ Hsame (Hst & Hvf & Hk).
      pose proof Hsame as (_ & _ & _ & Hst' & _).
      split; [congruence|]. split; [by eapply Hvf_stable|done]. }
    (* ghosts *)
    eapply hoare_bind with (R := λ _ v, live_invariant v ∧ X v).
    { intros v (Hv & Hst & Hvf & Hk).
      pose proof (ghostOrClean_preserves (call_preserveExisting c) v Hv) as Hv'.
      assert (X (ghostOrClean (call_preserveExisting c) v).2) as HX.
      { unfold ghostOrClean, bind, gets.
        pose proof (frames_cleanMeshes_ghost v Hv) as Hclean.
        destruct (call_preserveExisting c), (currMesh v) as [oldMesh|];
          try (apply (HX_stable v); done).
        destruct (ghostCurrentMesh_slots oldMesh v) as (_ & Hst' & _ & _ & _ & Hf').
        split; [congruence|]. split; [|done]. unfold Kvf. by rewrite Hf'. }
      destruct (ghostOrClean _ v) as [[[]|e] v']; cbn in *; done. }
    intros ?. eapply hoare_bind with (R := λ _ v, live_invariant v ∧ X v).
    { apply (hoare_frames X T); [apply frames_on_lib_material|done..]. }
    intros mat. eapply hoare_bind with (R := λ _ v, live_invariant v ∧ X v).
    { apply (hoare_frames X T); [|done..]. apply respects_gets; exact _. }
    intros flicker. eapply hoare_bind with (R := λ _ v, live_invariant v ∧ X v).
    { apply (hoare_frames X T); [|done..].
      apply respects_when; [exact _|]. apply frames_on_scene. }
    (* build or update *)
    set (X5 := λ v, is_Some (currMesh v) ∧ Reused v ∧ Kvf v).
    assert (∀ v v', live_invariant v → same_live v v' → X5 v → X5 v') as HX5_stable.
    { intros v v' _ Hsame (Hc & Hr & Hvf).
      pose proof Hsame as (Hc' & _ & Ha' & Hst' & _).
      split; [by rewrite Hc'|]. split; [|by eapply Hvf_stable].
      intros k Hks Hneeds. rewrite Ha', Hst'. by apply Hr. }
    intros ?. eapply hoare_bind with (R := λ _ v, live_invariant v ∧ X5 v).
    { intros v (Hv & Hst & Hvf & Hk).
      unfold buildOrUpdateMesh, bind, gets.
      destruct (currMesh v) as [curr|] eqn:Hc.
      - pose proof (updateMesh_spec curr attrRaw mat v Hv Hc)
          as (Hv' & Hc' & _ & Hf' & _ & Hneed & _).
        destruct (updateMesh curr attrRaw mat v) as [[[]|e] v'] eqn:Hup; cbn in *;
          [|done].
        split; [done|]. split; [by eexists|]. split.
        + intros k Hks Hneeds. rewrite <- Hst. apply Hneed; [done..|]. by apply Hk.
        + unfold Kvf. by rewrite Hf'.
      - destruct (buildMesh_spec attrRaw mat v Hc)
          as (v' & -> & Hv' & Hc' & _ & Hf' & _ & _ & _ & _ & Hneed).
        split; [done|]. split; [done|]. split.
        + intros k Hks Hneeds. rewrite <- Hst. apply Hneed; [done|]. by apply Hk.
        + unfold Kvf. by rewrite Hf'. }
    intros ?. eapply hoare_bind with (R := λ _ v, live_invariant v ∧ X5 v).
    { apply (hoare_frames X5 T); [apply frames_repoint|done..]. }
    intros ?. eapply hoare_bind with (R := λ _ v, live_invariant v ∧ X5 v).
    { apply (hoare_frames X5 T); [apply frames_repoint|done..]. }
    (* the vector field *)
    set (X6 := λ v, X5 v ∧
                    (is_Some (call_vectorField c) → is_Some (vectorFieldMesh v))).
    intros ?. eapply hoare_bind with (R := λ _ v, live_invariant v ∧ X6 v).
    { intros v (Hv & HX5).
      pose proof (showVectorField_spec (call_vertices c) (call_idxs c) v Hv)
        as (Hsame & Hmesh & _).
      assert (live_invariant (showVectorField (call_vertices c) (call_idxs c) v).2)
        as Hv' by (by eapply frame_stable).
      pose proof (HX5_stable v _ Hv Hsame HX5) as HX5'.
      destruct HX5 as (_ & _ & Hvf).
      destruct (showVectorField _ _ v) as [[[]|e] v']; cbn in *; [|done].
      split; [done|]. split; [done|]. intros Hsome. apply Hmesh; [done|].
      by apply Hvf. }
    intros ?. eapply hoare_weaken.
    - apply (hoare_frames X6 T); [apply frames_flicker| |done].
      intros v v' Hv Hsame [HX5 Hm]. split; [by eapply HX5_stable|].
      intros Hsome. destruct (Hm Hsome) as [vm Hvm].
      destruct Hsame as (_ & _ & _ & _ & Hkeep & _). exists vm. by apply Hkeep.
    - done.
    - intros ? v (Hv & (Hc & Hr & _) & Hm). done.
    - done. }
  specialize (Hrun v0 eq_refl). rewrite Hret in Hrun. exact Hrun.
Qed.

Lemma run_call_supplies (c : SetGeometryCall F) v0 v1 :
  live_invariant v0 → run_call c v0 = (Ok tt, v1) → supplied c v1.
Proof.
  intros Hv0 Hret.
  destruct (run_call_returns c v0 v1 Hv0 Hret) as (_ & _ & Hr & Hm).
  split; [|done]. intros k Hks Hneeds. left. by apply Hr.
Qed.

Lemma supplied_mono (c c' : SetGeometryCall F) v v' :
  needs_no_more c c' → supplied c v → updated_in_place v v' → supplied c' v' ∧ supplied c v'.
Proof.
  intros (_ & Hk & Hf) [Hs Hm] (_ & _ & _ & Hhas & Hkeep & _).
  assert (supplied c v') as Hc.
  { split.
    - intros k Hks Hneeds. by apply Hhas, Hs.
    - intros Hsome. destruct (Hm Hsome) as [vm Hvm]. exists vm. by apply Hkeep. }
  split; [|done]. destruct Hc as [Hs' Hm']. split.
  - intros k Hks Hneeds. apply Hs'; [done|]. by apply Hk.
  - intros Hsome. by apply Hm', Hf.
Qed.

End InPlaceUpdate.


Lemma live_invariant_square_viewer_colored : live_invariant square_viewer_colored.
Proof.
  exact (run_call_preserves scalar_on square_viewer live_invariant_square_viewer).
Qed.

(** X17.  When [setGeometry] returns, there is a current mesh, and every
    stashable key that the frame needs is attached to its geometry and not
    stashed; a key that was stashed before the call is attached with the
    buffer that was stashed, not with a new one.  A vector field has its
    glyph mesh. *)
Theorem setGeometry_reuses_stashed_buffers
    {F : Type} `{FloatOps F} {MeshT : Type} `{MeshAdapter F MeshT}
    (v v' : ViewerBase F MeshT) (c : SetGeometryCall F) :
  live_invariant v →
  run_call c v = (Ok tt, v') →
  is_Some (currMesh v') ∧
  (∀ key, key ∈ stashableKeys → frame_needs c key →
     bufferAttributeStash v' !! key = None ∧
     is_Some (liveAttributes v' !! key) ∧
     ∀ b, bufferAttributeStash v !! key = Some b →
          liveAttributes v' !! key = Some b) ∧
  (is_Some (call_vectorField c) → is_Some (vectorFieldMesh v')).
Proof.
  intros Hv Hret.
  by destruct (run_call_returns c v v' Hv Hret) as (_ & ? & ? & ?).
Qed.

Lemma setGeometry_reuses_stashed_buffers_witness :
  is_Some (currMesh (run_call scalar_on (run_call scalar_off square_viewer_colored).2).2) ∧
  (∀ key, key ∈ stashableKeys → frame_needs scalar_on key →
     bufferAttributeStash
       (run_call scalar_on (run_call scalar_off square_viewer_colored).2).2 !! key
     = None ∧
     is_Some (liveAttributes
       (run_call scalar_on (run_call scalar_off square_viewer_colored).2).2 !! key) ∧
     ∀ b, bufferAttributeStash (run_call scalar_off square_viewer_colored).2 !! key
          = Some b →
          liveAttributes
            (run_call scalar_on (run_call scalar_off square_viewer_colored).2).2 !! key
          = Some b) ∧
  (is_Some (call_vectorField scalar_on) →
   is_Some (vectorFieldMesh
     (run_call scalar_on (run_call scalar_off square_viewer_colored).2).2)).
Proof.
  apply (setGeometry_reuses_stashed_buffers
           (run_call scalar_off square_viewer_colored).2 _ scalar_on).
  - exact (run_call_preserves scalar_off square_viewer_colored
             live_invariant_square_viewer_colored).
  - vm_compute. reflexivity.
Defined.

(** X18.  An update with [preserveExisting=False] of a viewer that has a
    current mesh, a buffer (attached or stashed) for every stashable key the
    frame needs and a glyph mesh if the call shows a vector field, creates no
    buffer object, whether it returns or raises.  It keeps the current mesh,
    its geometry, the buffers under the keys that are never stashed, and a
    buffer for every key that had one. *)
Theorem setGeometry_in_place_creates_no_buffer
    {F : Type} `{FloatOps F} {MeshT : Type} `{MeshAdapter F MeshT}
    (v : ViewerBase F MeshT) (c : SetGeometryCall F) :
  live_invariant v →
  is_Some (currMesh v) →
  call_preserveExisting c = false →
  supplied c v →
  updated_in_place v (run_call c v).2.
Proof. intros Hv Hc Hpe Hs. by apply run_call_in_place. Qed.

Lemma setGeometry_in_place_creates_no_buffer_witness :
  updated_in_place square_viewer_colored (run_call scalar_off square_viewer_colored).2.
Proof.
  apply (setGeometry_in_place_creates_no_buffer square_viewer_colored scalar_off).
  - apply live_invariant_square_viewer_colored.
  - vm_compute. by eexists.
  - reflexivity.
  - apply (supplied_mono scalar_on scalar_off square_viewer_colored).
    + split; [reflexivity|]. split.
      * intros key [?|[[_ Hs]|[_ Hs]]]; [by left| |];
          by destruct Hs as [? [=]].
      * intros Hs. exact Hs.
    + apply (run_call_supplies scalar_on square_viewer).
      * apply live_invariant_square_viewer.
      * vm_compute. reflexivity.
    + apply updated_in_place_refl.
Defined.

(** *** What [setGeometry] keeps and what it changes *)

Section KeepsFacts.
Context {F : Type} `{FloatOps F} {MeshT : Type} `{MeshAdapter F MeshT}.
Implicit Types (v : ViewerBase F MeshT) (h : Store F).

#[global] Instance keeps_frame {A} (f : ViewerBase F MeshT → A) :
  FrameRel (λ _ : ViewerBase F MeshT, True) (keeps f).
Proof. split; [done| |done]. unfold keeps. congruence. Qed.

Lemma keeps_on_store {A B} (f : ViewerBase F MeshT → B) (m : M (Store F) A) :
  (∀ v h, f (set_store (λ _, h) v) = f v) →
  respects (λ _, True) (keeps f) (on_store m).
Proof.
  intros Hf v _. unfold on_store. destruct (m (store v)) as [r h]. apply Hf.
Qed.

Lemma keeps_on_lib {A B} (f : ViewerBase F MeshT → B) (m : M (LibState F) A) :
  (∀ v l h, f (set_store (λ _, h) (set_materialLibrary (λ _, l) v)) = f v) →
  respects (λ _, True) (keeps f) (on_lib m).
Proof.
  intros Hf v _. unfold on_lib. destruct (m _) as [r [l h]]. apply Hf.
Qed.

Lemma keeps_hoare {A B} (f : ViewerBase F MeshT → B) (p : M (ViewerBase F MeshT) A)
    (x : B) E :
  respects (λ _, True) (keeps f) p → (∀ v, f v = x → E v) →
  hoare (λ v, f v = x) p (λ _ v, f v = x) E.
Proof.
  intros Hp HE v Hx. specialize (Hp v I). unfold keeps in Hp.
  destruct (p v) as [[a|e] v']; cbn in *; [congruence|]. apply HE. congruence.
Qed.
End KeepsFacts.

Ltac keeps_step :=
  first
    [ respects_struct
    | apply respects_foldM; [exact _|intros ? ?]
    | apply keeps_on_store; intros; reflexivity
    | apply keeps_on_lib; intros; reflexivity
    | apply respects_modify; intros ? _; reflexivity
    | match goal with
      | |- respects _ _ (match ?x with _ => _ end) => destruct x
      | |- respects _ _ ((match ?x with _ => _ end) _) => destruct x
      end ].

Ltac keeps_auto :=
  unfold setGeometry, setModelMatrix, rawAttributes, ghostOrClean,
    ghostCurrentMesh, __cleanMeshes, buildOrUpdateMesh, buildMesh, updateMesh,
    allocateUpdateOrStashBufferAttribute, repointOverlay, showVectorField,
    on_scene;
  repeat keeps_step.

Section SetGeometryKeeps.
Context {F : Type} `{FloatOps F} {MeshT : Type} `{MeshAdapter F MeshT}.
Implicit Types (v : ViewerBase F MeshT) (h : Store F).



End SetGeometryKeeps.


Section Phases.
Context {F : Type} `{FloatOps F} {MeshT : Type} `{MeshAdapter F MeshT}.
Implicit Types (v : ViewerBase F MeshT) (h : Store F).

(** [setGeometry] phase by phase: an assertion carried from the assignments
    of the fields to the end of the call. *)
Lemma setGeometry_phases
    (P A1 : ViewerBase F MeshT → Prop)
    (A2 A3 : gmap string (ndarray F) → bool → ViewerBase F MeshT → Prop)
    (A4 A4' : gmap string (ndarray F) → oid → ViewerBase F MeshT → Prop)
    (A5 A6 A7 A8 : ViewerBase F MeshT → Prop)
    (Q : unit → ViewerBase F MeshT → Prop) (E : ViewerBase F MeshT → Prop)
    vertices idxs normals preserveExisting updateModelMatrix textureMap
    scalarField0 vectorField0 :
  hoare (λ v, ∃ v0, P v0 ∧
           v = set_vectorField (λ _, vectorField0)
                 (set_scalarField (λ _, scalarField0) v0))
        (when updateModelMatrix (setModelMatrix vertices)) (λ _, A1) E →
  hoare A1 (rawAttributes vertices idxs normals textureMap)
        (λ r, A2 r.1 r.2) E →
  (∀ raw u, hoare (A2 raw u) (ghostOrClean preserveExisting) (λ _, A3 raw u) E) →
  (∀ raw u, hoare (A3 raw u)
              (on_lib (material u (TextureMap.dataTex <$> textureMap)))
              (A4 raw) E) →
  (∀ raw mat v, A4 raw mat v → A4' raw mat (pause_if_flicker v)) →
  (∀ raw mat, hoare (A4' raw mat) (buildOrUpdateMesh raw mat) (λ _, A5) E) →
  hoare A5 (let! wire := gets wireframeMesh in repointOverlay wire) (λ _, A6) E →
  hoare A6 (let! points := gets pointsMesh in repointOverlay points) (λ _, A7) E →
  hoare A7 (showVectorField vertices idxs) (λ _, A8) E →
  (∀ v, A8 v → Q tt (resume_if_flicker v)) →
  hoare P (setGeometry vertices idxs normals preserveExisting updateModelMatrix
                       textureMap scalarField0 vectorField0) Q E.
Proof.
  intros H1 H2 H3 H4 Hpause H5 H6 H7 H8 Hresume. unfold setGeometry.
  eapply hoare_bind with
    (R := λ _ v, ∃ v0, P v0 ∧ v = set_scalarField (λ _, scalarField0) v0).
  { intros v Hv. cbn. by exists v. }
  intros ?. eapply hoare_bind with
    (R := λ _ v, ∃ v0, P v0 ∧
            v = set_vectorField (λ _, vectorField0)
                  (set_scalarField (λ _, scalarField0) v0)).
  { intros v (v0 & Hv0 & ->). cbn. by exists v0. }
  intros ?. eapply hoare_bind; [exact H1|].
  intros ?. eapply hoare_bind; [exact H2|].
  intros [raw u]. cbn [fst snd].
  eapply hoare_bind; [apply H3|].
  intros ?. eapply hoare_bind; [apply H4|].
  intros mat. eapply hoare_bind with (R := λ b v, A4 raw mat v ∧ b = avoidRedrawFlicker v).
  { intros v Hv. by cbn. }
  intros flicker. eapply hoare_bind with (R := λ _, A4' raw mat).
  { intros v [Hv ->]. specialize (Hpause raw mat v Hv).
    unfold pause_if_flicker in Hpause. unfold when, on_scene, modify, ret.
    by destruct (avoidRedrawFlicker v). }
  intros ?. eapply hoare_bind; [apply H5|].
  intros ?. eapply hoare_bind; [exact H6|].
  intros ?. eapply hoare_bind; [exact H7|].
  intros ?. eapply hoare_bind; [exact H8|].
  intros ?. eapply hoare_bind with (R := λ b v, A8 v ∧ b = avoidRedrawFlicker v).
  { intros v Hv. by cbn. }
  intros flicker'. intros v [Hv ->]. specialize (Hresume v Hv).
  unfold resume_if_flicker in Hresume. unfold when, on_scene, modify, ret.
  by destruct (avoidRedrawFlicker v).
Qed.
End Phases.

(** *** Rendering is paused during an update and resumed at its end *)

Section Carried.
Context {F : Type} `{FloatOps F} {MeshT : Type} `{MeshAdapter F MeshT}.
Implicit Types (v : ViewerBase F MeshT) (h : Store F).

(** A method that keeps [f] carries an assertion that depends on [f]
    only. *)
Lemma hoare_keeps {A B} (f : ViewerBase F MeshT → B)
    (X E : ViewerBase F MeshT → Prop) (p : M (ViewerBase F MeshT) A) :
  respects (λ _, True) (keeps f) p →
  (∀ v v', f v' = f v → X v → X v') →
  (∀ v, X v → E v) →
  hoare X p (λ _, X) E.
Proof.
  intros Hp Hst HE v HX. specialize (Hp v I). unfold keeps in Hp.
  specialize (Hst v (p v).2 Hp HX).
  destruct (p v) as [[a|e] v']; cbn in *; [done|by apply HE].
Qed.

Lemma setGeometry_rendering vertices idxs normals preserveExisting
    updateModelMatrix textureMap scalarField0 vectorField0 v0 :
  hoare (λ v, v = v0)
    (setGeometry vertices idxs normals preserveExisting updateModelMatrix
                 textureMap scalarField0 vectorField0)
    (λ _ v, rendering_paused (scene v)
            = if avoidRedrawFlicker v0 then false else rendering_paused (scene v0))
    (λ v, avoidRedrawFlicker v0 = false →
          rendering_paused (scene v) = rendering_paused (scene v0)).
Proof.
  set (f := λ v : ViewerBase F MeshT, (avoidRedrawFlicker v, rendering_paused (scene v))).
  set (X := λ v : ViewerBase F MeshT,
              avoidRedrawFlicker v = avoidRedrawFlicker v0 ∧
              (avoidRedrawFlicker v0 = false →
               rendering_paused (scene v) = rendering_paused (scene v0))).
  set (E := λ v : ViewerBase F MeshT,
              avoidRedrawFlicker v0 = false →
              rendering_paused (scene v) = rendering_paused (scene v0)).
  assert (∀ v v', f v' = f v → X v → X v') as Hst.
  { intros v v' [= Hfl Hp] [Hx1 Hx2]. split; [congruence|].
    intros Hoff. rewrite Hp. by apply Hx2. }
  assert (∀ v, X v → E v) as HE by (by intros v [_ ?]).
  assert (∀ A (p : M (ViewerBase F MeshT) A),
            respects (λ _, True) (keeps f) p → hoare X p (λ _, X) E) as Hphase.
  { intros A p Hp. by apply (hoare_keeps f). }
  apply (setGeometry_phases (λ v, v = v0) X (λ _ _, X) (λ _ _, X) (λ _ _, X)
           (λ _ _, X) X X X X _ E); cbv beta.
  - apply hoare_weaken with (P := X) (Q := λ _, X) (E := E);
      [|by intros v (? & -> & ->)|done|done].
    apply Hphase. keeps_auto.
  - apply Hphase. keeps_auto.
  - intros raw u. apply Hphase. keeps_auto.
  - intros raw u. apply Hphase. keeps_auto.
  - intros raw mat v [Hx1 Hx2]. unfold pause_if_flicker.
    destruct (avoidRedrawFlicker v) eqn:Hfl.
    + split; [cbn; congruence|]. intros Hoff. congruence.
    + split; [congruence|exact Hx2].
  - intros raw mat. apply Hphase. keeps_auto.
  - apply Hphase. keeps_auto.
  - apply Hphase. keeps_auto.
  - apply Hphase. keeps_auto.
  - intros v [Hx1 Hx2]. unfold resume_if_flicker. rewrite Hx1.
    destruct (avoidRedrawFlicker v0); [done|]. by apply Hx2.
Qed.
End Carried.

(** X20.  With [avoidRedrawFlicker] set, rendering is not paused when
    [setGeometry] returns.  Without it, [setGeometry], returned or raised,
    leaves rendering as it was, paused or not. *)
Theorem setGeometry_resumes_rendering
    {F : Type} `{FloatOps F} {MeshT : Type} `{MeshAdapter F MeshT}
    (v : ViewerBase F MeshT) (c : SetGeometryCall F) :
  (avoidRedrawFlicker v = true → (run_call c v).1 = Ok tt →
   rendering_paused (scene (run_call c v).2) = false) ∧
  (avoidRedrawFlicker v = false →
   rendering_paused (scene (run_call c v).2) = rendering_paused (scene v)).
Proof.
  pose proof (setGeometry_rendering (call_vertices c) (call_idxs c)
                (call_normals c) (call_preserveExisting c)
                (call_updateModelMatrix c) (call_textureMap c)
                (call_scalarField c) (call_vectorField c) v v eq_refl) as Hrun.
  fold (run_call c) in Hrun.
  destruct (run_call c v) as [[[]|e] v']; cbn in *.
  - split; [intros Hon _|intros Hoff]; by rewrite Hrun, ?Hon, ?Hoff.
  - split; [by intros _ [=]|done].
Qed.

(** ** Reuse of stashed buffers *)

Section Toggles.
Context {F : Type} `{FloatOps F} {MeshT : Type} `{MeshAdapter F MeshT}.
Implicit Types (v : ViewerBase F MeshT) (c : SetGeometryCall F).




End Toggles.



(** *** The ghost group is purged *)

Section Tidy.
Context {F : Type} `{FloatOps F} {MeshT : Type} `{MeshAdapter F MeshT}.
Implicit Types (v : ViewerBase F MeshT) (h : Store F).

#[global] Instance closed_grows_frame :
  FrameRel (λ _ : Store F, True) closed_grows.
Proof.
  split; [by intros h r|by intros h1 h2 h3 H12 H23 r Hr; apply H23, H12|done].
Qed.

#[global] Instance tidy_frame :
  FrameRel (λ _ : ViewerBase F MeshT, True) tidy.
Proof.
  split; [intros v; split; [done|by intros r]| |done].
  intros v1 v2 v3 [Hg Hc] [Hg' Hc']. split; [congruence|].
  intros r Hr. by apply Hc', Hc.
Qed.

Lemma grows_get_object m : respects (λ _, True) closed_grows (get_object (F:=F) m).
Proof. intros h _. unfold get_object. destruct (_ !! _); apply frame_refl. Qed.

Lemma grows_get_geometry g :
  respects (λ _, True) closed_grows (get_geometry (F:=F) g).
Proof. intros h _. unfold get_geometry. destruct (_ !! _); apply frame_refl. Qed.

Lemma grows_get_array b : respects (λ _, True) closed_grows (get_array (F:=F) b).
Proof. intros h _. unfold get_array. destruct (_ !! _); apply frame_refl. Qed.

Lemma grows_alloc (new : Store F → oid * Store F) :
  (∀ h, closed (new h).2 = closed h) →
  respects (λ _, True) closed_grows (alloc new).
Proof.
  intros Hnew h _. unfold alloc. specialize (Hnew h).
  destruct (new h) as [i h']. cbn in *. intros r. by rewrite Hnew.
Qed.

Lemma grows_updateUniforms mat uniforms h :
  closed (updateUniforms mat uniforms h) = closed h.
Proof.
  unfold updateUniforms. revert h.
  induction uniforms as [|kv us IH]; intros h; cbn; [done|]. by rewrite IH.
Qed.

Lemma tidy_on_store {A} (m : M (Store F) A) :
  respects (λ _, True) closed_grows m →
  respects (λ _, True) tidy (on_store (MeshT:=MeshT) m).
Proof.
  intros Hm v _. unfold on_store. specialize (Hm (store v) I).
  destruct (m (store v)) as [r h']. split; [done|exact Hm].
Qed.

Lemma tidy_on_lib_material u tex :
  respects (λ _, True) tidy (on_lib (F:=F) (MeshT:=MeshT) (material u tex)).
Proof.
  intros v _. unfold on_lib, material.
  destruct (materials (materialLibrary v) !! _); [split; [done|by intros r]|].
  destruct (lib_isLineMesh (materialLibrary v)); split; try done; by intros r.
Qed.

(** A method that respects a relation carries an assertion that the
    relation keeps. *)
Lemma hoare_respects {A} (R : ViewerBase F MeshT → ViewerBase F MeshT → Prop)
    (X E : ViewerBase F MeshT → Prop) (p : M (ViewerBase F MeshT) A) :
  respects (λ _, True) R p →
  (∀ v v', R v v' → X v → X v') →
  (∀ v, X v → E v) →
  hoare X p (λ _, X) E.
Proof.
  intros Hp Hst HE v HX. specialize (Hp v I).
  specialize (Hst v (p v).2 Hp HX).
  destruct (p v) as [[a|e] v']; cbn in *; [done|by apply HE].
Qed.
End Tidy.

Ltac store_tidy_step :=
  first
    [ respects_struct
    | apply grows_get_object | apply grows_get_geometry | apply grows_get_array
    | apply respects_modify; intros ? _; intros ? ?;
      first [ by rewrite grows_updateUniforms | by cbn; auto using list_elem_of_further
            | by right | done ]
    | apply grows_alloc; intros ?; reflexivity
    | match goal with
      | |- respects _ _ (match ?x with _ => _ end) => destruct x
      end ].

Ltac tidy_step :=
  first
    [ respects_struct
    | apply respects_foldM; [exact _|intros ? ?]
    | apply tidy_on_lib_material
    | apply tidy_on_store; unfold getArrows; repeat store_tidy_step
    | apply respects_modify; intros ? _; split; [reflexivity|by intros ?]
    | match goal with
      | |- respects _ _ (match ?x with _ => _ end) => destruct x
      | |- respects _ _ ((match ?x with _ => _ end) _) => destruct x
      end ].

Ltac tidy_auto :=
  unfold buildOrUpdateMesh, buildMesh, updateMesh,
    allocateUpdateOrStashBufferAttribute, repointOverlay, showVectorField,
    on_scene;
  repeat tidy_step.

Section PurgedGhosts.
Context {F : Type} `{FloatOps F} {MeshT : Type} `{MeshAdapter F MeshT}.
Implicit Types (v : ViewerBase F MeshT) (h : Store F).

#[local] Arguments updateUniforms : simpl never.

(** What the loop of [__cleanMeshes] has done to the ghosts [done] of the
    group [group]. *)
Lemma cleanMeshes_loop (group xs done : list oid) :
  hoare (λ v, ghostMeshes v = filter (λ c, c ∉ done) group ∧
              ∀ g, g ∈ done → MeshRef g ∈ closed (store v))
    (for_each xs (λ oldMesh,
       bind (modify (set_ghostMeshes (group_remove oldMesh))) (λ _,
       let! wire := gets wireframeMesh in
       let! points := gets pointsMesh in
       bind
         (when (bool_decide (Some oldMesh ≠ wire) && bool_decide (Some oldMesh ≠ points))
            (let! obj := on_store (get_object oldMesh) in
             bind (on_store (modify (exec_three_obj_method
                                       (GeometryRef (geometry obj)) "dispose"))) (λ _,
             let! g := on_store (get_geometry (geometry obj)) in
             bind (for_each (map_to_list (attributes g))
                            (λ kb, on_store (modify (close (BufferRef kb.2))))) (λ _,
             on_store (modify (close (GeometryRef (geometry obj))))))))
         (λ _, on_store (modify (close (MeshRef oldMesh)))))))
    (λ _ v, ghostMeshes v = filter (λ c, c ∉ done ++ xs) group ∧
            ∀ g, g ∈ done ++ xs → MeshRef g ∈ closed (store v))
    (λ _ : ViewerBase F MeshT, True).
Proof.
  revert done. induction xs as [|x xs IH]; intros done; cbn [for_each].
  - apply hoare_ret. intros v. by rewrite app_nil_r.
  - eapply hoare_bind with
      (R := λ _ v, ghostMeshes v = filter (λ c, c ∉ done ++ [x]) group ∧
                   ∀ g, g ∈ done ++ [x] → MeshRef g ∈ closed (store v));
      [|intros ?].
    2:{ eapply hoare_weaken; [apply (IH (done ++ [x]))|by intros v Hv| |done].
        intros ? v. cbn beta. by rewrite <- app_assoc. }
    set (X := λ v : ViewerBase F MeshT,
                ghostMeshes v = filter (λ c, c ∉ done ++ [x]) group ∧
                ∀ g, g ∈ done → MeshRef g ∈ closed (store v)).
    assert (∀ v v', tidy v v' → X v → X v') as Hst.
    { intros v v' [Hg Hc] [Hx1 Hx2]. split; [congruence|].
      intros g Hg'. by apply Hc, Hx2. }
    eapply hoare_bind with (R := λ _, X).
    { apply hoare_modify. intros v [Hg Hc]. split; [|exact Hc].
      change (group_remove x (ghostMeshes v)
              = filter (λ c, c ∉ done ++ [x]) group).
      unfold group_remove. rewrite Hg.
      rewrite list_filter_filter. apply list_filter_iff. intros c.
      rewrite elem_of_app, list_elem_of_singleton. tauto. }
    intros ?. eapply hoare_bind with (R := λ _, X); [by intros v Hv|intros wire].
    eapply hoare_bind with (R := λ _, X); [by intros v Hv|intros points].
    eapply hoare_bind with (R := λ _, X).
    { apply (hoare_respects tidy); [|exact Hst|done]. repeat tidy_step. }
    intros ?. intros v [Hx1 Hx2]. cbn. split; [done|].
    intros g [Hg|Hg]%elem_of_app.
    + right. by apply Hx2.
    + apply list_elem_of_singleton in Hg as ->. by left.
Qed.

Lemma filter_not_in_nil (l : list oid) : filter (λ c, c ∉ @nil oid) l = l.
Proof.
  induction l as [|a l IH]; [done|]. rewrite filter_cons.
  rewrite decide_True by apply not_elem_of_nil. by rewrite IH.
Qed.

Lemma cleanMeshes_purges v0 :
  hoare (λ v, ghostMeshes v = ghostMeshes v0)
    (__cleanMeshes ghostMeshes set_ghostMeshes)
    (λ _ v, ghostMeshes v = [] ∧
            ∀ g, g ∈ ghostMeshes v0 → MeshRef g ∈ closed (store v))
    (λ _ : ViewerBase F MeshT, True).
Proof.
  unfold __cleanMeshes.
  eapply hoare_bind with
    (R := λ group v, group = ghostMeshes v0 ∧ ghostMeshes v = ghostMeshes v0).
  { intros v Hv. cbn. by rewrite Hv. }
  intros group. destruct (decide (group = ghostMeshes v0)) as [->|Hne].
  2:{ by intros v [? _]. }
  eapply hoare_weaken;
    [apply (cleanMeshes_loop (ghostMeshes v0) (ghostMeshes v0) [])| | |done].
  - intros v [_ Hv]. split; [by rewrite filter_not_in_nil|].
    by intros g Hg%elem_of_nil.
  - intros ? v [Hg Hc]. cbn [app] in *. split; [|done]. rewrite Hg.
    apply elem_of_nil_inv. by intros c [Hn Hin]%list_elem_of_filter.
Qed.

(** A call that does not keep the current mesh as a ghost purges the ghost
    group. *)
Lemma setGeometry_purges vertices idxs normals preserveExisting
    updateModelMatrix textureMap scalarField0 vectorField0 v0 :
  preserveExisting = false ∨ currMesh v0 = None →
  hoare (λ v, v = v0)
    (setGeometry vertices idxs normals preserveExisting updateModelMatrix
                 textureMap scalarField0 vectorField0)
    (λ _ v, ghostMeshes v = [] ∧
            ∀ g, g ∈ ghostMeshes v0 → MeshRef g ∈ closed (store v))
    (λ _, True).
Proof.
  intros Hcond.
  set (f := λ v : ViewerBase F MeshT, (ghostMeshes v, currMesh v)).
  set (K := λ v : ViewerBase F MeshT,
              ghostMeshes v = ghostMeshes v0 ∧ currMesh v = currMesh v0).
  set (Done := λ v : ViewerBase F MeshT,
                 ghostMeshes v = [] ∧
                 ∀ g, g ∈ ghostMeshes v0 → MeshRef g ∈ closed (store v)).
  set (E := λ _ : ViewerBase F MeshT, True).
  assert (∀ A (p : M (ViewerBase F MeshT) A),
            respects (λ _, True) (keeps f) p → hoare K p (λ _, K) E) as Hkeep.
  { intros A p Hp. apply (hoare_keeps f); [exact Hp| |done].
    intros v v' [= Hg Hc] [HK1 HK2]. split; congruence. }
  assert (∀ A (p : M (ViewerBase F MeshT) A),
            respects (λ _, True) tidy p → hoare Done p (λ _, Done) E) as Htidy.
  { intros A p Hp. apply (hoare_respects tidy); [exact Hp| |done].
    intros v v' [Hg Hc] [HD1 HD2]. split; [congruence|].
    intros g Hg'. by apply Hc, HD2. }
  apply (setGeometry_phases (λ v, v = v0) K (λ _ _, K) (λ _ _, Done)
           (λ _ _, Done) (λ _ _, Done) Done Done Done Done _ E); cbv beta.
  - apply hoare_weaken with (P := K) (Q := λ _, K) (E := E);
      [|by intros v (? & -> & ->)|done|done].
    apply Hkeep. keeps_auto.
  - apply Hkeep. keeps_auto.
  - intros raw u. unfold ghostOrClean.
    eapply hoare_bind with
      (R := λ curr v, curr = currMesh v0 ∧ ghostMeshes v = ghostMeshes v0).
    { intros v [HK1 HK2]. by cbn. }
    intros curr.
    assert (hoare (λ v, curr = currMesh v0 ∧ ghostMeshes v = ghostMeshes v0)
              (__cleanMeshes ghostMeshes set_ghostMeshes) (λ _, Done) E) as Hclean.
    { eapply hoare_weaken; [apply (cleanMeshes_purges v0)|by intros v [_ ?]|done|done]. }
    destruct preserveExisting, curr as [old|]; try exact Hclean.
    intros v [Hc _]. destruct Hcond as [?|Hnone]; [done|congruence].
  - intros raw u. apply Htidy. apply tidy_on_lib_material.
  - intros raw mat v [HD1 HD2]. unfold pause_if_flicker.
    by destruct (avoidRedrawFlicker v).
  - intros raw mat. apply Htidy. tidy_auto.
  - apply Htidy. tidy_auto.
  - apply Htidy. tidy_auto.
  - apply Htidy. tidy_auto.
  - intros v [HD1 HD2]. unfold resume_if_flicker.
    by destruct (avoidRedrawFlicker v).
Qed.
End PurgedGhosts.

(** X21.  A call of [setGeometry] that returns and did not keep the
    current mesh as a ghost ([preserveExisting=False], or there was no
    current mesh) leaves the ghost group empty, and every mesh that was in
    the ghost group has been closed. *)
Theorem setGeometry_purges_ghosts
    {F : Type} `{FloatOps F} {MeshT : Type} `{MeshAdapter F MeshT}
    (v v' : ViewerBase F MeshT) (c : SetGeometryCall F) :
  call_preserveExisting c = false ∨ currMesh v = None →
  run_call c v = (Ok tt, v') →
  ghostMeshes v' = [] ∧
  ∀ g, g ∈ ghostMeshes v → MeshRef g ∈ closed (store v').
Proof.
  intros Hcond Hret.
  pose proof (setGeometry_purges (call_vertices c) (call_idxs c)
                (call_normals c) (call_preserveExisting c)
                (call_updateModelMatrix c) (call_textureMap c)
                (call_scalarField c) (call_vectorField c) v Hcond v eq_refl) as Hrun.
  fold (run_call c) in Hrun. by rewrite Hret in Hrun.
Qed.

Lemma setGeometry_purges_ghosts_witness :
  length (ghostMeshes square_viewer_ghosted) = 1 ∧
  ghostMeshes (run_call scalar_off square_viewer_ghosted).2 = [] ∧
  ∀ g, g ∈ ghostMeshes square_viewer_ghosted →
       MeshRef g ∈ closed (store (run_call scalar_off square_viewer_ghosted).2).
Proof.
  split; [vm_compute; reflexivity|].
  apply (setGeometry_purges_ghosts square_viewer_ghosted
           (run_call scalar_off square_viewer_ghosted).2 scalar_off).
  - left. reflexivity.
  - vm_compute. reflexivity.
Defined.

(** *** The current mesh is kept as a ghost *)

Section Kept.
Context {F : Type} `{FloatOps F} {MeshT : Type} `{MeshAdapter F MeshT}.
Implicit Types (v : ViewerBase F MeshT) (h : Store F).

#[global] Instance quiet_frame : FrameRel (λ _ : Store F, True) quiet.
Proof.
  split; [by intros h; split| |done].
  intros h1 h2 h3 [Hc Hn] [Hc' Hn']. split; [congruence|lia].
Qed.

#[global] Instance kept_frame : FrameRel (λ _ : ViewerBase F MeshT, True) kept.
Proof.
  split; [intros v; split; [done|apply frame_refl]| |done].
  intros v1 v2 v3 [Hg Hq] [Hg' Hq']. split; [|by eapply frame_trans].
  intros g Hg0. by apply Hg', Hg.
Qed.

Lemma quiet_get_object m : respects (λ _, True) quiet (get_object (F:=F) m).
Proof. intros h _. unfold get_object. destruct (_ !! _); apply frame_refl. Qed.

Lemma quiet_get_geometry g : respects (λ _, True) quiet (get_geometry (F:=F) g).
Proof. intros h _. unfold get_geometry. destruct (_ !! _); apply frame_refl. Qed.

Lemma quiet_get_array b : respects (λ _, True) quiet (get_array (F:=F) b).
Proof. intros h _. unfold get_array. destruct (_ !! _); apply frame_refl. Qed.

Lemma quiet_alloc (new : Store F → oid * Store F) :
  (∀ h, quiet h (new h).2) → respects (λ _, True) quiet (alloc new).
Proof. intros Hnew h _. unfold alloc. specialize (Hnew h). by destruct (new h). Qed.

Lemma quiet_updateUniforms mat uniforms h : quiet h (updateUniforms mat uniforms h).
Proof.
  unfold updateUniforms. revert h.
  induction uniforms as [|kv us IH]; intros h; cbn; [apply frame_refl|].
  eapply frame_trans; [|apply IH]. by split.
Qed.

Lemma kept_on_store {A} (m : M (Store F) A) :
  respects (λ _, True) quiet m →
  respects (λ _, True) kept (on_store (MeshT:=MeshT) m).
Proof.
  intros Hm v _. unfold on_store. specialize (Hm (store v) I).
  destruct (m (store v)) as [r h']. split; [done|exact Hm].
Qed.

Lemma kept_on_lib_material u tex :
  respects (λ _, True) kept (on_lib (F:=F) (MeshT:=MeshT) (material u tex)).
Proof.
  intros v _. unfold on_lib, material.
  destruct (materials (materialLibrary v) !! _); [split; [done|apply frame_refl]|].
  destruct (lib_isLineMesh (materialLibrary v)); (split; [done|]); (split; cbn; [reflexivity|lia]).
Qed.

Lemma kept_on_lib_ghostMaterial orig :
  respects (λ _, True) kept (on_lib (F:=F) (MeshT:=MeshT) (ghostMaterial orig)).
Proof.
  intros v _. unfold on_lib, ghostMaterial.
  destruct (materialObjs (store v) !! orig) as [o|]; [|split; [done|apply frame_refl]].
  destruct (materials (materialLibrary v) !! _); [split; [done|apply frame_refl]|].
  destruct (_extractMaterialDescriptors o) as [u tex].
  destruct (lib_isLineMesh (materialLibrary v)); (split; [done|]); (split; cbn; [reflexivity|lia]).
Qed.

(** A method that respects a relation relates the state it is run on to the
    state it leaves. *)
Lemma hoare_of_respects {A} (R : ViewerBase F MeshT → ViewerBase F MeshT → Prop)
    (p : M (ViewerBase F MeshT) A) v0 :
  respects (λ _, True) R p →
  hoare (λ v, v = v0) p (λ _ v, R v0 v) (λ v, R v0 v).
Proof.
  intros Hp v ->. specialize (Hp v0 I). by destruct (p v0) as [[a|e] v'].
Qed.

Lemma hoare_conj {A} (P P' : ViewerBase F MeshT → Prop)
    (Q Q' : A → ViewerBase F MeshT → Prop) (E E' : ViewerBase F MeshT → Prop)
    (p : M (ViewerBase F MeshT) A) :
  hoare P p Q E → hoare P' p Q' E' →
  hoare (λ v, P v ∧ P' v) p (λ a v, Q a v ∧ Q' a v) (λ v, E v ∧ E' v).
Proof.
  intros Hp Hp' v [HP HP']. specialize (Hp v HP). specialize (Hp' v HP').
  by destruct (p v) as [[a|e] v'].
Qed.
End Kept.

Ltac store_quiet_step :=
  first
    [ respects_struct
    | apply quiet_get_object | apply quiet_get_geometry | apply quiet_get_array
    | apply respects_modify; intros ? _;
      first [ apply quiet_updateUniforms | by split ]
    | apply quiet_alloc; intros ?; split; cbn; [reflexivity|lia]
    | match goal with
      | |- respects _ _ (match ?x with _ => _ end) => destruct x
      end ].

Ltac kept_step :=
  first
    [ respects_struct
    | apply respects_foldM; [exact _|intros ? ?]
    | apply kept_on_lib_material | apply kept_on_lib_ghostMaterial
    | apply kept_on_store; unfold getArrows; repeat store_quiet_step
    | apply respects_modify; intros ? _; split;
      [ intros ? ?; first [ assumption | apply elem_of_app; by left ]
      | apply frame_refl ]
    | match goal with
      | |- respects _ _ (match ?x with _ => _ end) => destruct x
      | |- respects _ _ ((match ?x with _ => _ end) _) => destruct x
      end ].

Ltac kept_auto :=
  unfold ghostCurrentMesh, buildOrUpdateMesh, buildMesh, updateMesh,
    allocateUpdateOrStashBufferAttribute, repointOverlay, showVectorField,
    on_scene;
  repeat kept_step.

Section GhostKept.
Context {F : Type} `{FloatOps F} {MeshT : Type} `{MeshAdapter F MeshT}.
Implicit Types (v : ViewerBase F MeshT) (h : Store F).

#[local] Arguments updateUniforms : simpl never.

Lemma kept_ghostCurrentMesh old :
  respects (λ _ : ViewerBase F MeshT, True) kept (ghostCurrentMesh old).
Proof. kept_auto. Qed.

Lemma kept_buildOrUpdateMesh attrRaw mat :
  respects (λ _ : ViewerBase F MeshT, True) kept (buildOrUpdateMesh attrRaw mat).
Proof. kept_auto. Qed.

Lemma kept_repoint (slot : ViewerBase F MeshT → option oid) :
  respects (λ _, True) kept (let! overlay := gets slot in repointOverlay overlay).
Proof. kept_auto. Qed.

Lemma kept_showVectorField vertices idxs :
  respects (λ _ : ViewerBase F MeshT, True) kept (showVectorField vertices idxs).
Proof. kept_auto. Qed.

Lemma hoare_any {A} (P : ViewerBase F MeshT → Prop) (p : M (ViewerBase F MeshT) A) :
  hoare P p (λ _ _, True) (λ _, True).
Proof. intros v _. by destruct (p v) as [[a|e] v']. Qed.

(** When [ghostCurrentMesh] returns, the mesh is in the ghost group. *)
Lemma ghostCurrentMesh_ghosts old :
  hoare (λ _ : ViewerBase F MeshT, True) (ghostCurrentMesh old)
        (λ _ v, old ∈ ghostMeshes v) (λ _, True).
Proof.
  unfold ghostCurrentMesh.
  eapply hoare_bind; [apply hoare_any|intros ?].
  eapply hoare_bind; [apply hoare_any|intros obj].
  eapply hoare_bind; [apply hoare_any|intros ghost].
  eapply hoare_bind; [apply hoare_any|intros ?].
  eapply hoare_bind; [apply hoare_any|intros ?].
  eapply hoare_bind with (R := λ _ v, old ∈ ghostMeshes v).
  { apply hoare_modify. intros v _. cbn. apply elem_of_app. right. by left. }
  intros ?. apply (hoare_respects kept); [repeat kept_step| |done].
  intros v v' [Hg _] Hold. by apply Hg.
Qed.

(** [buildMesh] makes a new object the current mesh. *)
Lemma buildMesh_fresh attrRaw mat (n0 : oid) :
  hoare (λ v : ViewerBase F MeshT, n0 ≤ next_id (store v))
        (buildMesh attrRaw mat)
        (λ _ v, ∃ m, currMesh v = Some m ∧ n0 ≤ m) (λ _, True).
Proof.
  set (N := λ v : ViewerBase F MeshT, n0 ≤ next_id (store v)).
  assert (∀ A (p : M (ViewerBase F MeshT) A),
            respects (λ _, True) kept p → hoare N p (λ _, N) (λ _, True)) as Hn.
  { intros A p Hp. apply (hoare_respects kept); [exact Hp| |done].
    intros v v' [_ [_ Hle]] Hv. unfold N in *. lia. }
  unfold buildMesh. cbv zeta.
  eapply hoare_bind; [apply Hn; kept_auto|intros [attr raw']].
  eapply hoare_bind; [apply Hn; kept_auto|intros attr2].
  eapply hoare_bind; [apply Hn; kept_auto|intros geom].
  eapply hoare_bind with (R := λ _, N); [by intros v Hv|intros cls].
  eapply hoare_bind with (R := λ m v, n0 ≤ m).
  { intros v Hv. unfold on_store, alloc, new_Object3D. cbn. exact Hv. }
  intros m. eapply hoare_bind with (R := λ _ v, currMesh v = Some m ∧ n0 ≤ m).
  { apply hoare_modify. by intros v Hv. }
  intros ?. apply hoare_modify. intros v Hv. by exists m.
Qed.

(** A call that keeps the current mesh as a ghost. *)
Lemma setGeometry_ghosts vertices idxs normals updateModelMatrix textureMap
    scalarField0 vectorField0 v0 old :
  currMesh v0 = Some old →
  hoare (λ v, v = v0)
    (setGeometry vertices idxs normals true updateModelMatrix
                 textureMap scalarField0 vectorField0)
    (λ _ v, (∃ m, currMesh v = Some m ∧ next_id (store v0) ≤ m) ∧
            old ∈ ghostMeshes v ∧ kept v0 v)
    (λ _, True).
Proof.
  intros Hold.
  set (f := λ v : ViewerBase F MeshT, (ghostMeshes v, currMesh v, store v)).
  set (K := λ v : ViewerBase F MeshT,
              ghostMeshes v = ghostMeshes v0 ∧ currMesh v = Some old ∧
              store v = store v0).
  set (D := λ v : ViewerBase F MeshT, old ∈ ghostMeshes v ∧ kept v0 v).
  set (G := λ v : ViewerBase F MeshT, currMesh v = None ∧ D v).
  set (C := λ v : ViewerBase F MeshT,
              ∃ m, currMesh v = Some m ∧ next_id (store v0) ≤ m).
  set (G5 := λ v : ViewerBase F MeshT, C v ∧ D v).
  set (E := λ _ : ViewerBase F MeshT, True).
  assert (∀ A (p : M (ViewerBase F MeshT) A),
            respects (λ _, True) (keeps f) p → hoare K p (λ _, K) E) as Hkeep.
  { intros A p Hp. apply (hoare_keeps f); [exact Hp| |done].
    intros v v' [= Hg Hc Hs] (HK1 & HK2 & HK3). repeat split; congruence. }
  assert (∀ v v', kept v v' → D v → D v') as HD.
  { intros v v' Hk [Hin Hk0]. split; [by apply Hk|].
    by eapply frame_trans. }
  assert (∀ A (p : M (ViewerBase F MeshT) A),
            respects (λ _, True) kept p → hoare D p (λ _, D) E) as Hkept.
  { intros A p Hp. by apply (hoare_respects kept). }
  assert (∀ A (p : M (ViewerBase F MeshT) A),
            respects (λ _, True) (keeps (currMesh (F:=F) (MeshT:=MeshT))) p →
            respects (λ _, True) kept p → hoare G5 p (λ _, G5) E) as Hboth.
  { intros A p Hc Hk.
    eapply hoare_weaken;
      [apply (hoare_conj C D (λ _, C) (λ _, D) E E)|done|done|done].
    - apply (hoare_keeps currMesh); [exact Hc| |done].
      intros v v' Heq [m [Hm Hle]]. exists m. split; [congruence|done].
    - by apply Hkept. }
  apply (setGeometry_phases (λ v, v = v0) K (λ _ _, K) (λ _ _, G)
           (λ _ _, G) (λ _ _, G) G5 G5 G5 G5 _ E); cbv beta.
  - apply hoare_weaken with (P := K) (Q := λ _, K) (E := E);
      [|by intros v (? & -> & ->)|done|done].
    apply Hkeep. keeps_auto.
  - apply Hkeep. keeps_auto.
  - intros raw u v1 (Hg & Hc & Hs). unfold ghostOrClean, bind, gets. rewrite Hc.
    pose proof (ghostCurrentMesh_slots old v1) as (Hnone & _).
    pose proof (kept_ghostCurrentMesh old v1 I) as Hk.
    pose proof (ghostCurrentMesh_ghosts old v1 I) as Hin.
    assert (kept v0 v1) as Hk01.
    { split; [by intros g; rewrite Hg|]. rewrite Hs. apply frame_refl. }
    destruct (ghostCurrentMesh old v1) as [[[]|e] v']; cbn in *; [|done].
    split; [done|]. split; [done|]. by eapply frame_trans.
  - intros raw u. eapply hoare_weaken with (P := G) (Q := λ _, G) (E := E);
      [|done|done|done].
    eapply hoare_weaken;
      [apply (hoare_conj (λ v, currMesh v = None) D
                (λ _ v, currMesh v = None) (λ _, D) E E)|done|done|done].
    + apply (hoare_keeps currMesh); [|by intros v v' ->|done].
      keeps_auto.
    + apply Hkept. apply kept_on_lib_material.
  - intros raw mat v [Hc [Hin Hk]]. unfold pause_if_flicker.
    by destruct (avoidRedrawFlicker v).
  - intros raw mat. unfold buildOrUpdateMesh.
    eapply hoare_bind with (R := λ curr v, curr = None ∧ D v).
    { intros v [Hc HDv]. by cbn. }
    intros [curr|]; [by intros v [? _]|].
    eapply hoare_weaken;
      [apply (hoare_conj (λ v, next_id (store v0) ≤ next_id (store v)) D
                (λ _, C) (λ _, D) E E)| |done|done].
    + apply buildMesh_fresh.
    + apply Hkept. kept_auto.
    + intros v [_ HDv]. split; [|done]. by destruct HDv as [_ [_ [_ ?]]].
  - apply Hboth; [keeps_auto|apply kept_repoint].
  - apply Hboth; [keeps_auto|apply kept_repoint].
  - apply Hboth; [keeps_auto|apply kept_showVectorField].
  - intros v [HC [Hin Hk]]. unfold resume_if_flicker.
    by destruct (avoidRedrawFlicker v).
Qed.
End GhostKept.

(** X22.  A call of [setGeometry] with [preserveExisting=True] that
    returns, on a viewer with a current mesh: the old mesh is in the ghost
    group, the ghosts that were there are still there, nothing was closed,
    and the current mesh is a new object, whose identity had not been
    allocated before the call. *)
Theorem setGeometry_keeps_old_mesh_as_ghost
    {F : Type} `{FloatOps F} {MeshT : Type} `{MeshAdapter F MeshT}
    (v v' : ViewerBase F MeshT) (c : SetGeometryCall F) (old : oid) :
  currMesh v = Some old →
  call_preserveExisting c = true →
  run_call c v = (Ok tt, v') →
  old ∈ ghostMeshes v' ∧
  (∀ g, g ∈ ghostMeshes v → g ∈ ghostMeshes v') ∧
  closed (store v') = closed (store v) ∧
  ∃ m, currMesh v' = Some m ∧ next_id (store v) ≤ m.
Proof.
  intros Hold Hpe Hret.
  pose proof (setGeometry_ghosts (call_vertices c) (call_idxs c)
                (call_normals c) (call_updateModelMatrix c) (call_textureMap c)
                (call_scalarField c) (call_vectorField c) v old Hold v eq_refl)
    as Hrun.
  rewrite <- Hpe in Hrun. fold (run_call c) in Hrun. rewrite Hret in Hrun.
  destruct Hrun as (Hm & Hin & Hg & Hc & _). done.
Qed.

Lemma setGeometry_keeps_old_mesh_as_ghost_witness :
  5 ∈ ghostMeshes square_viewer_ghosted ∧
  (∀ g, g ∈ ghostMeshes square_viewer → g ∈ ghostMeshes square_viewer_ghosted) ∧
  closed (store square_viewer_ghosted) = closed (store square_viewer) ∧
  ∃ m, currMesh square_viewer_ghosted = Some m ∧ next_id (store square_viewer) ≤ m.
Proof.
  apply (setGeometry_keeps_old_mesh_as_ghost square_viewer square_viewer_ghosted
           (square_call true None None) 5).
  - vm_compute. reflexivity.
  - reflexivity.
  - vm_compute. reflexivity.
Defined.

(** *** The constructor *)

Section Constructor.
Context {F : Type} `{FloatOps F} {MeshT : Type} `{MeshAdapter F MeshT}.
Implicit Types (v : ViewerBase F MeshT) (h : Store F).

End Constructor.


(** ** Camera *)

(** C9.  [setCameraParams] returns, and [getCameraParams] then returns the
    triple that was set. *)
Theorem camera_params_roundtrip
    {F : Type} `{FloatOps F} {MeshT : Type} `{MeshAdapter F MeshT}
    (v : ViewerBase F MeshT) (position up target : list F) :
  ∃ v', setCameraParams (position, up, target) v = (Ok tt, v') ∧
        getCameraParams v' = (Ok (position, up, target), v').
Proof. eexists. split; reflexivity. Qed.

(** ** Stash and live geometry *)

(** C2.  From a viewer state that satisfies the live invariant, as the
    constructor's does, the state after every call of a sequence of
    [setGeometry] calls, returned or raised, has no stashable key both in the
    attributes of the current mesh's geometry and in the stash. *)
Theorem stash_live_exclusive_after_each_call
    {F : Type} `{FloatOps F} {MeshT : Type} `{MeshAdapter F MeshT}
    (v : ViewerBase F MeshT) (calls : list (SetGeometryCall F)) :
  live_invariant v →
  Forall stash_live_exclusive (states_after calls v).
Proof.
  revert v. induction calls as [|c calls IH]; intros v Hv; cbn; [done|].
  assert (live_invariant (run_call c v).2) as Hv'.
  { pose proof (setGeometry_preserves (call_vertices c) (call_idxs c) (call_normals c)
      (call_preserveExisting c) (call_updateModelMatrix c) (call_textureMap c)
      (call_scalarField c) (call_vectorField c) v Hv) as Hrun.
    unfold run_call. by destruct (setGeometry _ _ _ _ _ _ _ _ v) as [[[]|e] v']. }
  constructor; [apply Hv'|by apply IH].
Qed.

Lemma stash_live_exclusive_after_each_call_witness :
  Forall stash_live_exclusive
    (states_after [scalar_on; scalar_off; square_call true None None]
                  (initial_fields (Some false) (Some Mesh) square 512 512 empty_store)).
Proof.
  apply stash_live_exclusive_after_each_call.
  apply live_invariant_no_current. reflexivity.
Defined.
